(** * Gemini Conductor Kanban: the task synchronisation and progression engine

    A shallow embedding of the [App] component (its state, its event
    handlers and its simulation effect), of [services/geminiService.ts]
    ([generateTaskLog], [connectToSocket], [getDemoState]) and of [types.ts].

    React state is a record; every handler is a function on that record,
    and an asynchronous handler is one function per stretch between two
    [await]s. A closure is kept as the values it captured: the interval
    callback with the [tasks], [activeTaskId] and [isRunning] of the render
    that created it, a socket with the [isRealtime] and [connectionUrl] of
    the render in which [handleConnect] ran. Values that the JavaScript
    runtime supplies ([Date.now()], the draw of [Math.random()], the outcome
    of [JSON.parse], the answer of the log provider) are arguments of the
    handler that reads them. Numbers in tasks and log entries are integers,
    as in the data model of the specification. *)

From Stdlib Require Import ZArith QArith Lia Bool Ascii String.
From stdpp Require Import base list strings pretty.

Close Scope Q_scope.
Open Scope Z_scope.

(* ===================================================================== *)
(** * types.ts *)
(* ===================================================================== *)

Inductive TaskStatus := PENDING | IN_PROGRESS | REVIEW | COMPLETED.

Inductive LogType := info | success | error | warning.

Inductive Priority := low | medium | high.

Module LogEntry.
Record t := mk { timestamp : Z; message : string; type : LogType }.
End LogEntry.

Module Task.
Record t := mk {
  id : string;
  title : string;
  description : string;
  status : TaskStatus;
  priority : Priority;
  logs : list LogEntry.t;
  progress : Z;                       (* 0 to 100 *)
  fileChanges : option (list string)  (* fileChanges?: string[] *)
}.

(** Object spread with overridden fields: [{ ...t, progress: p }] etc. *)
Definition with_progress (p : Z) (x : t) : t :=
  mk (id x) (title x) (description x) (status x) (priority x) (logs x) p
     (fileChanges x).

Definition with_status (s : TaskStatus) (x : t) : t :=
  mk (id x) (title x) (description x) s (priority x) (logs x) (progress x)
     (fileChanges x).

Definition with_logs (l : list LogEntry.t) (x : t) : t :=
  mk (id x) (title x) (description x) (status x) (priority x) l (progress x)
     (fileChanges x).
End Task.

Definition status_eqb (a b : TaskStatus) : bool :=
  match a, b with
  | PENDING, PENDING | IN_PROGRESS, IN_PROGRESS
  | REVIEW, REVIEW | COMPLETED, COMPLETED => true
  | _, _ => false
  end.

Definition logtype_eqb (a b : LogType) : bool :=
  match a, b with
  | info, info | success, success | error, error | warning, warning => true
  | _, _ => false
  end.

Definition is_status (s : TaskStatus) (t : Task.t) : bool :=
  status_eqb (Task.status t) s.

(* ===================================================================== *)
(** * JavaScript array helpers *)
(* ===================================================================== *)

(** [Array.prototype.findIndex]: the index of the first element satisfying
    the callback; JavaScript's [-1] is [None]. *)
Fixpoint findIndex {A} (p : A → bool) (l : list A) : option nat :=
  match l with
  | [] => None
  | x :: r => if p x then Some 0%nat else S <$> findIndex p r
  end.

(** [Array.prototype.find]. *)
Fixpoint find {A} (p : A → bool) (l : list A) : option A :=
  match l with
  | [] => None
  | x :: r => if p x then Some x else find p r
  end.

(** [Array.prototype.every]. *)
Definition every {A} (p : A → bool) (l : list A) : bool := forallb p l.

(** [arr.slice(-n)]: the last [n] elements, the whole array when it is
    shorter. *)
Definition slice_last {A} (n : nat) (l : list A) : list A :=
  drop (length l - n) l.

(** Truthiness of a JavaScript string: every string but the empty one. *)
Definition truthy_string (s : string) : bool :=
  match s with EmptyString => false | _ => true end.

(* ===================================================================== *)
(** * The global log: [addLog] *)
(* ===================================================================== *)

(** The updater that [addLog] hands to [setGlobalLogs]:
    [prev => [...prev.slice(-99), entry]]. *)
Definition appendLog (entry : LogEntry.t) (prev : list LogEntry.t)
  : list LogEntry.t :=
  slice_last 99 prev ++ [entry].

(* ===================================================================== *)
(** * The simulation tick: the [setTasks] updater *)
(* ===================================================================== *)

(** State setters and timers called from inside the updater. *)
Inductive Cmd :=
| SetActiveTaskId (a : option string)
| AddLog (message : string) (type : LogType)
| DeferStop.   (* setTimeout(() => setIsRunning(false), 0) *)

Definition ALL_DONE_MESSAGE : string := "All tasks completed successfully.".

(** The body of [setTasks(prevTasks => ...)] in the interval callback.
    [isRunning] is the value captured by the callback's closure and
    [increment] the value of [Math.floor(Math.random() * 15) + 5]. *)
Definition tickUpdater (isRunning : bool) (increment : Z)
    (prevTasks : list Task.t) : list Task.t * list Cmd :=
  let newTasks := prevTasks in
  match findIndex (is_status IN_PROGRESS) newTasks with
  | None =>
      match findIndex (is_status PENDING) newTasks with
      | Some activeIndex =>
          match newTasks !! activeIndex with
          | Some t =>
              let t' := Task.with_progress 5 (Task.with_status IN_PROGRESS t) in
              (<[activeIndex := t']> newTasks, [SetActiveTaskId (Some (Task.id t'))])
          | None => (newTasks, [])
          end
      | None =>
          let allDone := every (is_status COMPLETED) newTasks in
          if allDone && isRunning
          then (newTasks,
                [DeferStop; SetActiveTaskId None; AddLog ALL_DONE_MESSAGE success])
          else (newTasks, [])
      end
  | Some activeIndex =>
      match newTasks !! activeIndex with
      | Some currentTask =>
          let newProgress := Z.min (Task.progress currentTask + increment) 100 in
          let updated := Task.with_progress newProgress currentTask in
          if 100 <=? newProgress
          then (<[activeIndex := Task.with_status COMPLETED updated]> newTasks,
                [SetActiveTaskId None])
          else (<[activeIndex := updated]> newTasks, [])
      | None => (newTasks, [])
      end
  end.

(* ===================================================================== *)
(** * String helpers: [String.prototype.trim] *)
(* ===================================================================== *)

(** A string is kept as the UTF-8 encoding of its text, one [ascii] per
    byte, which is what a string literal denotes here. Equality and
    concatenation of strings are then those of their encodings. (Text with
    an unpaired surrogate has no UTF-8 encoding and is left out.) *)
Definition utf8 (bytes : list nat) : string :=
  foldr (λ n s, String (ascii_of_nat n) s) EmptyString bytes.

(** The characters that [trim] removes, the WhiteSpace and LineTerminator
    code points of ECMAScript, each in UTF-8: TAB, LF, VT, FF, CR, SP,
    U+00A0, U+1680, U+2000 to U+200A, U+2028, U+2029, U+202F, U+205F,
    U+3000 and U+FEFF. *)
Definition WHITE_SPACE : list string :=
  utf8 <$> [ [9]; [10]; [11]; [12]; [13]; [32];
             [194; 160];
             [225; 154; 128];
             [226; 128; 128]; [226; 128; 129]; [226; 128; 130];
             [226; 128; 131]; [226; 128; 132]; [226; 128; 133];
             [226; 128; 134]; [226; 128; 135]; [226; 128; 136];
             [226; 128; 137]; [226; 128; 138];
             [226; 128; 168]; [226; 128; 169];
             [226; 128; 175];
             [226; 129; 159];
             [227; 128; 128];
             [239; 187; 191] ]%nat.

(** [s] without the prefix [w], when [s] starts with [w]. *)
Fixpoint stripPrefix (w s : string) : option string :=
  match w, s with
  | EmptyString, _ => Some s
  | String a w', String b s' =>
      if Ascii.eqb a b then stripPrefix w' s' else None
  | String _ _, EmptyString => None
  end.

(** [s] without its first character, when that character is white space.
    No encoding of [WHITE_SPACE] is a prefix of another one, so at most
    one of them matches. *)
Definition white (s : string) : option string :=
  head (omap (λ w, stripPrefix w s) WHITE_SPACE).

(** Whether [s] is exactly one white space character. *)
Definition isWhite (s : string) : bool := existsb (String.eqb s) WHITE_SPACE.

(** [trimStart]: white space characters are removed from the front while
    there are any. Each removal shortens the string, so that as many steps
    as the string has bytes are enough. *)
Fixpoint trimStartN (n : nat) (s : string) : string :=
  match n with
  | O => s
  | S n' =>
      match white s with
      | Some r => trimStartN n' r
      | None => s
      end
  end.

Definition trimStart (s : string) : string := trimStartN (String.length s) s.

(** [trimEnd], from the right: with the rest of the string already
    trimmed, the string ends in white space exactly when what is left is
    one white space character as a whole. *)
Fixpoint trimEnd (s : string) : string :=
  match s with
  | String c r =>
      let s' := String c (trimEnd r) in
      if isWhite s' then EmptyString else s'
  | EmptyString => EmptyString
  end.

Definition trim (s : string) : string := trimEnd (trimStart s).

(** The one-character string holding a double quote. *)
Definition DQUOTE : string := String (ascii_of_nat 34) EmptyString.

(* ===================================================================== *)
(** * services/geminiService.ts *)
(* ===================================================================== *)

(** The value [generateTaskLog] resolves to. *)
Record LogData := mkLogData { ld_message : string; ld_type : LogType }.

(** What happens inside [generateTaskLog]: no API key, an answer of the
    model (whose [text] may be undefined), or an exception. *)
Inductive ProviderOutcome :=
| NoClient
| Response (text : option string)
| ProviderFailed.

Definition generateTaskLog (o : ProviderOutcome) : LogData :=
  match o with
  | NoClient => mkLogData "Simulated local execution..." info
  | Response text =>
      let m := match text with Some s => trim s | None => EmptyString end in
      mkLogData (if truthy_string m then m else "Processing...") info
  | ProviderFailed => mkLogData "Executing internal process..." info
  end.

(** [getDemoState]: [uuid k] is the value of the [k]-th call of
    [crypto.randomUUID()], [now] the value of [Date.now()]. *)
Definition getDemoState (uuid : nat → string) (now : Z)
  : list Task.t * string :=
  ([ Task.mk (uuid 0%nat) "Initialize Repository & Config"
       "Setup git, tsconfig, and linting rules" COMPLETED high
       [LogEntry.mk (now - 120000) "Initialized git repository" success]
       100 (Some ["tsconfig.json"; ".gitignore"]);
     Task.mk (uuid 1%nat) "Core Service Architecture"
       "Implement base service classes and DI container" COMPLETED high
       [LogEntry.mk (now - 60000) "Service container registered" success]
       100 (Some ["src/services/base.ts"]);
     Task.mk (uuid 2%nat) "Implement API Routes"
       "Create RESTful endpoints for the main resource" IN_PROGRESS high
       [LogEntry.mk now "Compiling route handlers..." info]
       42 (Some ["src/routes/api.ts"]);
     Task.mk (uuid 3%nat) "Frontend Integration"
       "Connect React frontend to the new API" PENDING medium
       [] 0 (Some []);
     Task.mk (uuid 4%nat) "E2E Testing"
       "Run full suite of Cypress tests" PENDING medium
       [] 0 (Some []) ],
   "DEMO: Refactor Legacy API (Simulation)").

(** A [WebSocket] made by [connectToSocket]. The four callbacks that
    [handleConnect] passes are closures over the variables of the render in
    which [handleConnect] ran; of those they read [connectionUrl] (kept as
    [ws_url]) and [isRealtime] (kept as [cap_isRealtime]). *)
Inductive ReadyState := CONNECTING | OPEN | CLOSING | CLOSED.

Record Socket := mkSocket {
  ws_url : string;
  readyState : ReadyState;
  cap_isRealtime : bool
}.

(** [ws.close()]: starts the closing handshake unless already closing or
    closed. *)
Definition ws_close (s : Socket) : Socket :=
  match readyState s with
  | CONNECTING | OPEN => mkSocket (ws_url s) CLOSING (cap_isRealtime s)
  | CLOSING | CLOSED => s
  end.

Definition ws_set_readyState (r : ReadyState) (s : Socket) : Socket :=
  mkSocket (ws_url s) r (cap_isRealtime s).

(** A connection is active while it is being established or is open. *)
Definition ws_active (s : Socket) : bool :=
  match readyState s with
  | CONNECTING | OPEN => true
  | CLOSING | CLOSED => false
  end.

(* ===================================================================== *)
(** * App.tsx: the component's state *)
(* ===================================================================== *)

(** The variables that the interval callback captured when the simulation
    effect created it. *)
Record TickClosure := mkClosure {
  c_isRunning : bool;
  c_activeTaskId : option string;
  c_tasks : list Task.t
}.

(** A tick suspended at [await generateTaskLog(currentTask)]. *)
Record PendingLog := mkPending {
  p_activeTaskId : string;
  p_currentTask : Task.t
}.

Record App := mkApp {
  (* useState *)
  goal : string;
  connectionUrl : string;
  tasks : list Task.t;
  isRunning : bool;
  isProcessing : bool;
  isRealtime : bool;
  activeTaskId : option string;
  globalLogs : list LogEntry.t;
  (* useRef *)
  processingRef : bool;
  socketRef : option nat;              (* index into [sockets] *)
  (* the environment of the component *)
  tasksRev : nat;                      (* identity of the [tasks] array *)
  sockets : list Socket;               (* every WebSocket created so far *)
  interval : option TickClosure;       (* the timer set by the effect *)
  inflight : option PendingLog;        (* the suspended tick, if any *)
  stopTimeouts : nat;                  (* queued setTimeout(stop, 0) *)
  pendingPlans : list string;          (* generatePlan calls not yet settled *)
  pendingDemos : nat                   (* getDemoState calls not yet settled *)
}.

Definition initialApp : App :=
  mkApp EmptyString "ws://localhost:8080" [] false false false None []
        false None 0%nat [] None None 0%nat [] 0%nat.

Definition set_goal (v : string) (a : App) : App :=
  mkApp v (connectionUrl a) (tasks a) (isRunning a) (isProcessing a)
    (isRealtime a) (activeTaskId a) (globalLogs a) (processingRef a)
    (socketRef a) (tasksRev a) (sockets a) (interval a) (inflight a)
    (stopTimeouts a) (pendingPlans a) (pendingDemos a).
Definition set_connectionUrl (v : string) (a : App) : App :=
  mkApp (goal a) v (tasks a) (isRunning a) (isProcessing a)
    (isRealtime a) (activeTaskId a) (globalLogs a) (processingRef a)
    (socketRef a) (tasksRev a) (sockets a) (interval a) (inflight a)
    (stopTimeouts a) (pendingPlans a) (pendingDemos a).
(** [setTasks] always receives a freshly built array here, so the identity
    of [tasks] changes on every call. *)
Definition setTasks (v : list Task.t) (a : App) : App :=
  mkApp (goal a) (connectionUrl a) v (isRunning a) (isProcessing a)
    (isRealtime a) (activeTaskId a) (globalLogs a) (processingRef a)
    (socketRef a) (S (tasksRev a)) (sockets a) (interval a) (inflight a)
    (stopTimeouts a) (pendingPlans a) (pendingDemos a).
Definition set_isRunning (v : bool) (a : App) : App :=
  mkApp (goal a) (connectionUrl a) (tasks a) v (isProcessing a)
    (isRealtime a) (activeTaskId a) (globalLogs a) (processingRef a)
    (socketRef a) (tasksRev a) (sockets a) (interval a) (inflight a)
    (stopTimeouts a) (pendingPlans a) (pendingDemos a).
Definition set_isProcessing (v : bool) (a : App) : App :=
  mkApp (goal a) (connectionUrl a) (tasks a) (isRunning a) v
    (isRealtime a) (activeTaskId a) (globalLogs a) (processingRef a)
    (socketRef a) (tasksRev a) (sockets a) (interval a) (inflight a)
    (stopTimeouts a) (pendingPlans a) (pendingDemos a).
Definition set_isRealtime (v : bool) (a : App) : App :=
  mkApp (goal a) (connectionUrl a) (tasks a) (isRunning a) (isProcessing a)
    v (activeTaskId a) (globalLogs a) (processingRef a)
    (socketRef a) (tasksRev a) (sockets a) (interval a) (inflight a)
    (stopTimeouts a) (pendingPlans a) (pendingDemos a).
Definition set_activeTaskId (v : option string) (a : App) : App :=
  mkApp (goal a) (connectionUrl a) (tasks a) (isRunning a) (isProcessing a)
    (isRealtime a) v (globalLogs a) (processingRef a)
    (socketRef a) (tasksRev a) (sockets a) (interval a) (inflight a)
    (stopTimeouts a) (pendingPlans a) (pendingDemos a).
Definition set_globalLogs (v : list LogEntry.t) (a : App) : App :=
  mkApp (goal a) (connectionUrl a) (tasks a) (isRunning a) (isProcessing a)
    (isRealtime a) (activeTaskId a) v (processingRef a)
    (socketRef a) (tasksRev a) (sockets a) (interval a) (inflight a)
    (stopTimeouts a) (pendingPlans a) (pendingDemos a).
Definition set_processingRef (v : bool) (a : App) : App :=
  mkApp (goal a) (connectionUrl a) (tasks a) (isRunning a) (isProcessing a)
    (isRealtime a) (activeTaskId a) (globalLogs a) v
    (socketRef a) (tasksRev a) (sockets a) (interval a) (inflight a)
    (stopTimeouts a) (pendingPlans a) (pendingDemos a).
Definition set_socketRef (v : option nat) (a : App) : App :=
  mkApp (goal a) (connectionUrl a) (tasks a) (isRunning a) (isProcessing a)
    (isRealtime a) (activeTaskId a) (globalLogs a) (processingRef a)
    v (tasksRev a) (sockets a) (interval a) (inflight a)
    (stopTimeouts a) (pendingPlans a) (pendingDemos a).
Definition set_sockets (v : list Socket) (a : App) : App :=
  mkApp (goal a) (connectionUrl a) (tasks a) (isRunning a) (isProcessing a)
    (isRealtime a) (activeTaskId a) (globalLogs a) (processingRef a)
    (socketRef a) (tasksRev a) v (interval a) (inflight a)
    (stopTimeouts a) (pendingPlans a) (pendingDemos a).
Definition set_interval (v : option TickClosure) (a : App) : App :=
  mkApp (goal a) (connectionUrl a) (tasks a) (isRunning a) (isProcessing a)
    (isRealtime a) (activeTaskId a) (globalLogs a) (processingRef a)
    (socketRef a) (tasksRev a) (sockets a) v (inflight a)
    (stopTimeouts a) (pendingPlans a) (pendingDemos a).
Definition set_inflight (v : option PendingLog) (a : App) : App :=
  mkApp (goal a) (connectionUrl a) (tasks a) (isRunning a) (isProcessing a)
    (isRealtime a) (activeTaskId a) (globalLogs a) (processingRef a)
    (socketRef a) (tasksRev a) (sockets a) (interval a) v
    (stopTimeouts a) (pendingPlans a) (pendingDemos a).
Definition set_stopTimeouts (v : nat) (a : App) : App :=
  mkApp (goal a) (connectionUrl a) (tasks a) (isRunning a) (isProcessing a)
    (isRealtime a) (activeTaskId a) (globalLogs a) (processingRef a)
    (socketRef a) (tasksRev a) (sockets a) (interval a) (inflight a)
    v (pendingPlans a) (pendingDemos a).
Definition set_pendingPlans (v : list string) (a : App) : App :=
  mkApp (goal a) (connectionUrl a) (tasks a) (isRunning a) (isProcessing a)
    (isRealtime a) (activeTaskId a) (globalLogs a) (processingRef a)
    (socketRef a) (tasksRev a) (sockets a) (interval a) (inflight a)
    (stopTimeouts a) v (pendingDemos a).
Definition set_pendingDemos (v : nat) (a : App) : App :=
  mkApp (goal a) (connectionUrl a) (tasks a) (isRunning a) (isProcessing a)
    (isRealtime a) (activeTaskId a) (globalLogs a) (processingRef a)
    (socketRef a) (tasksRev a) (sockets a) (interval a) (inflight a)
    (stopTimeouts a) (pendingPlans a) v.

(** [addLog(message, type)]; [now] is the value of [Date.now()]. *)
Definition addLog (message : string) (type : LogType) (now : Z) (a : App)
  : App :=
  set_globalLogs (appendLog (LogEntry.mk now message type) (globalLogs a)) a.

(* ===================================================================== *)
(** * App.tsx: the simulation effect and re-rendering *)
(* ===================================================================== *)

(** One run of the effect
    [useEffect(..., [isRunning, isRealtime, activeTaskId, tasks, addLog])]:
    the cleanup of the previous run ([clearInterval]) followed by the body. *)
Definition simulationEffect (now : Z) (a : App) : App :=
  let a := set_interval None a in
  if isRunning a && negb (isRealtime a) then
    if every (is_status COMPLETED) (tasks a) && (0 <? length (tasks a))%nat
    then set_isRunning false a
    else
      let a := if negb (processingRef a)
               then addLog "Conductor simulation engine started." success now a
               else a in
      set_interval (Some (mkClosure (isRunning a) (activeTaskId a) (tasks a))) a
  else if negb (isRunning a) then
    match activeTaskId a with
    | Some x => if truthy_string x then set_activeTaskId None a else a
    | None => a
    end
  else a.

Definition option_string_eqb (x y : option string) : bool :=
  match x, y with
  | Some s, Some t => String.eqb s t
  | None, None => true
  | _, _ => false
  end.

(** Whether a dependency of the effect differs between two renders
    ([addLog] is stable: it is built by [useCallback] with no dependency). *)
Definition depsChanged (prev next : App) : bool :=
  negb (Bool.eqb (isRunning prev) (isRunning next))
  || negb (Bool.eqb (isRealtime prev) (isRealtime next))
  || negb (option_string_eqb (activeTaskId prev) (activeTaskId next))
  || negb (tasksRev prev =? tasksRev next)%nat.

(** Re-render after a state change: the effect runs when a dependency
    changed, and runs again when its own state updates changed one. *)
Fixpoint rerender (fuel : nat) (now : Z) (prev next : App) : App :=
  match fuel with
  | O => next
  | S f =>
      if depsChanged prev next
      then rerender f now next (simulationEffect now next)
      else next
  end.

(** The effect settles after at most three runs (stop, clear the active
    task, nothing). *)
Definition commit (now : Z) (prev next : App) : App := rerender 3 now prev next.

(* ===================================================================== *)
(** * App.tsx: the interval callback *)
(* ===================================================================== *)

Definition applyCmd (now : Z) (c : Cmd) (a : App) : App :=
  match c with
  | SetActiveTaskId x => set_activeTaskId x a
  | AddLog m ty => addLog m ty now a
  | DeferStop => set_stopTimeouts (S (stopTimeouts a)) a
  end.

Definition applyCmds (now : Z) (cs : list Cmd) (a : App) : App :=
  foldl (λ s c, applyCmd now c s) a cs.

(** The synchronous part of the interval callback, up to
    [await generateTaskLog(currentTask)] or to its end. [tasks] and
    [activeTaskId] read outside the updater are the captured ones. *)
Definition tickHandler (c : TickClosure) (increment now : Z) (a : App) : App :=
  if processingRef a then a
  else
    let a := set_processingRef true a in
    let '(newTasks, cmds) := tickUpdater (c_isRunning c) increment (tasks a) in
    let a := applyCmds now cmds (setTasks newTasks a) in
    let finished := set_processingRef false a in
    match c_activeTaskId c with
    | Some aid =>
        if truthy_string aid then
          match find (λ t, String.eqb (Task.id t) aid) (c_tasks c) with
          | Some currentTask =>
              if is_status IN_PROGRESS currentTask
              then set_inflight (Some (mkPending aid currentTask)) a
              else finished
          | None => finished
          end
        else finished
    | None => finished
    end.

(** The timer fires. *)
Definition tick (increment now : Z) (a : App) : App :=
  match interval a with
  | Some c => tickHandler c increment now a
  | None => a
  end.

(** The update that the resumed tick hands to [setTasks]. *)
Definition appendTaskLog (activeTaskId : string) (entry : LogEntry.t)
    (current : list Task.t) : list Task.t :=
  map (λ t, if String.eqb (Task.id t) activeTaskId
            then Task.with_logs (Task.logs t ++ [entry]) t
            else t) current.

(** [generateTaskLog] settles and the suspended tick resumes. *)
Definition logResolved (logData : LogData) (now : Z) (a : App) : App :=
  match inflight a with
  | Some p =>
      let entry := LogEntry.mk now (ld_message logData) (ld_type logData) in
      let a := setTasks (appendTaskLog (p_activeTaskId p) entry (tasks a)) a in
      let a := addLog ("[" +:+ Task.title (p_currentTask p) +:+ "] "
                       +:+ ld_message logData) (ld_type logData) now a in
      set_processingRef false (set_inflight None a)
  | None => a
  end.

(** A queued [setTimeout(() => setIsRunning(false), 0)] runs. *)
Definition timeoutFired (a : App) : App :=
  match stopTimeouts a with
  | S n => set_isRunning false (set_stopTimeouts n a)
  | O => a
  end.

(* ===================================================================== *)
(** * App.tsx: planning, demo and stop handlers *)
(* ===================================================================== *)

(** [handlePlan] up to [await generatePlan(goal)]. *)
Definition handlePlan (now : Z) (a : App) : App :=
  if negb (truthy_string (trim (goal a))) then a
  else
    let a := set_isProcessing true a in
    let a := addLog ("Connecting to Gemini Conductor... analyzing goal: "
                     +:+ DQUOTE +:+ goal a +:+ DQUOTE) info now a in
    set_pendingPlans (pendingPlans a ++ [goal a]) a.

(** [generatePlan] settles: [Some plan] when it resolved, [None] when it
    threw. *)
Definition planSettled (r : option (list Task.t)) (now : Z) (a : App) : App :=
  match pendingPlans a with
  | _ :: rest =>
      let a := set_pendingPlans rest a in
      let a := match r with
               | Some plan =>
                   addLog ("Plan generated with " +:+ pretty (length plan)
                           +:+ " tasks. Ready to execute.") success now
                          (setTasks plan a)
               | None =>
                   addLog "Failed to generate plan. Please check API Key."
                          error now a
               end in
      set_isProcessing false a
  | [] => a
  end.

(** [loadDemoMode] up to [await getDemoState()]. *)
Definition loadDemoMode (now : Z) (a : App) : App :=
  let a := set_isProcessing true a in
  let a := addLog "Loading Demo Simulation..." info now a in
  set_pendingDemos (S (pendingDemos a)) a.

(** [getDemoState] resolves and [loadDemoMode] resumes. *)
Definition demoResolved (uuid : nat → string) (now : Z) (a : App) : App :=
  match pendingDemos a with
  | S n =>
      let a := set_pendingDemos n a in
      let '(recoveredTasks, recoveredGoal) := getDemoState uuid now in
      let a := set_goal recoveredGoal (setTasks recoveredTasks a) in
      let a := match find (is_status IN_PROGRESS) recoveredTasks with
               | Some active => set_activeTaskId (Some (Task.id active)) a
               | None => a
               end in
      let a := set_isRunning true (set_isRealtime false a) in
      let a := addLog "Demo loaded. This is a simulation, not real data."
                      warning now a in
      set_isProcessing false a
  | O => a
  end.

Definition stopConductor (now : Z) (a : App) : App :=
  let a := set_isRealtime false (set_isRunning false a) in
  match socketRef a with
  | Some i =>
      let a := set_sockets (alter ws_close i (sockets a)) a in
      let a := set_socketRef None a in
      addLog "Disconnected from Conductor." info now a
  | None => a
  end.

(* ===================================================================== *)
(** * App.tsx: [handleConnect] and the socket callbacks *)
(* ===================================================================== *)

(** [handleConnect]. [ctorThrows] tells whether [new WebSocket(url)] inside
    [connectToSocket] rejects the URL with an exception. The socket that
    [socketRef] holds is closed, and the reference cleared, before
    [connectToSocket] is called. *)
Definition closeExisting (a : App) : App :=
  match socketRef a with
  | Some i => set_socketRef None (set_sockets (alter ws_close i (sockets a)) a)
  | None => a
  end.

Definition connectToSocket (url : string) (isRealtime : bool) (a : App)
  : nat * App :=
  let ws := mkSocket url CONNECTING isRealtime in
  (length (sockets a), set_sockets (sockets a ++ [ws]) a).

Definition handleConnect (ctorThrows : bool) (now : Z) (a : App) : App :=
  if negb (truthy_string (trim (connectionUrl a))) then a
  else
    let url := connectionUrl a in
    let captured := isRealtime a in
    let a := set_isProcessing true a in
    let a := addLog ("Initiating handshake with conductor at " +:+ url
                     +:+ "...") info now a in
    let a := closeExisting a in
    if ctorThrows then a
    else
      let '(ws, a) := connectToSocket url captured a in
      set_socketRef (Some ws) a.

(** The [onOpen] callback. *)
Definition onOpen (s : Socket) (now : Z) (a : App) : App :=
  let a := set_isProcessing false a in
  let a := set_isRealtime true a in
  let a := set_isRunning true a in
  addLog ("Successfully connected to live session at " +:+ ws_url s)
         success now a.

(** The error callback; [isRealtime] is the captured variable. *)
Definition onError (s : Socket) (now : Z) (a : App) : App :=
  if negb (cap_isRealtime s) then
    let a := addLog ("Connection failed to " +:+ ws_url s +:+ ".") error now a in
    let a := addLog
      "Make sure the Conductor is running and exposing a WebSocket server."
      warning now a in
    set_isProcessing false a
  else a.

Definition closeMessage (code : N) : string :=
  "Connection closed by server (Code: " +:+ pretty code +:+ ").".

(** The [onClose] callback; [isRealtime] is the captured variable and [code]
    is [event.code]. *)
Definition onClose (s : Socket) (code : N) (now : Z) (a : App) : App :=
  if cap_isRealtime s then
    let a := addLog (closeMessage code) warning now a in
    let a := set_isRealtime false a in
    set_isRunning false a
  else a.

(** The browser reports that socket [i] is open. *)
Definition socketOpen (i : nat) (now : Z) (a : App) : App :=
  match sockets a !! i with
  | Some s =>
      match readyState s with
      | CONNECTING =>
          onOpen s now (set_sockets (<[i := ws_set_readyState OPEN s]> (sockets a)) a)
      | _ => a
      end
  | None => a
  end.

(** The browser reports an error on socket [i]. *)
Definition socketError (i : nat) (now : Z) (a : App) : App :=
  match sockets a !! i with
  | Some s =>
      match readyState s with
      | CLOSED => a
      | _ => onError s now a
      end
  | None => a
  end.

(** The browser reports that socket [i] closed with [code]. *)
Definition socketClose (i : nat) (code : N) (now : Z) (a : App) : App :=
  match sockets a !! i with
  | Some s =>
      match readyState s with
      | CLOSED => a
      | _ =>
          onClose s code now
            (set_sockets (<[i := ws_set_readyState CLOSED s]> (sockets a)) a)
      end
  | None => a
  end.

(* ===================================================================== *)
(** * The feed: [ws.onmessage] and the [onMessage] callback *)
(* ===================================================================== *)

(** A value produced by [JSON.parse]. An object lists its own properties,
    each key once. *)
#[warnings="-register-all"]
Inductive json :=
| JNull
| JBool (b : bool)
| JNum (x : Q)
| JStr (s : string)
| JArr (items : list json)
| JObj (fields : list (string * json)).

(** A JavaScript value read from such data; [None] is [undefined]. *)
Definition jsval := option json.

Fixpoint assoc (k : string) (fs : list (string * json)) : jsval :=
  match fs with
  | [] => None
  | (k', v) :: r => if String.eqb k k' then Some v else assoc k r
  end.

(** [v.k] for [v] other than [null], and for the property names this
    program reads ([tasks], [log], [logs], [projectGoal], [status], [id],
    [message], [type]): no prototype defines them, so only objects have
    them. On [null] the read throws a TypeError, see [onMessage]. *)
Definition prop (k : string) (v : json) : jsval :=
  match v with
  | JObj fs => assoc k fs
  | _ => None
  end.

Definition truthy (v : jsval) : bool :=
  match v with
  | None | Some JNull => false
  | Some (JBool b) => b
  | Some (JNum x) => negb (Qnum x =? 0)
  | Some (JStr s) => truthy_string s
  | Some (JArr _) | Some (JObj _) => true
  end.

Definition isArray (v : jsval) : bool :=
  match v with Some (JArr _) => true | _ => false end.

(** State setters called by [onMessage], with the raw values they get. *)
Inductive FeedAction :=
| FSetTasks (v : json)
| FSetActiveTaskId (v : jsval)
| FAddLog (message type : jsval)
| FSetGoal (v : json).

(** A run of handler code: the setters called so far, and whether the code
    ran to its end ([true]) or threw ([false]). *)
Definition Run : Type := list FeedAction * bool.

Definition done_ : Run := ([], true).
Definition throw : Run := ([], false).
Definition emit (x : FeedAction) : Run := ([x], true).
Definition andThen (m k : Run) : Run :=
  if m.2 then (m.1 ++ k.1, k.2) else m.
Definition when (c : bool) (m : Run) : Run := if c then m else done_.

Infix ">>+" := andThen (at level 65, right associativity).

(** [data.tasks.find((t) => t.status === TaskStatus.IN_PROGRESS)]:
    [None] when reading [t.status] throws ([t] is [null]). *)
Fixpoint findActive (l : list json) : option (option json) :=
  match l with
  | [] => Some None
  | JNull :: _ => None
  | t :: r =>
      match prop "status" t with
      | Some (JStr "IN_PROGRESS") => Some (Some t)
      | _ => findActive r
      end
  end.

(** The [if (data.tasks)] block. A value that is not an array has no
    callable [find]. *)
Definition onTasks (v : json) : Run :=
  emit (FSetTasks v) >>+
  match v with
  | JArr l =>
      match findActive l with
      | Some (Some active) => emit (FSetActiveTaskId (prop "id" active))
      | Some None => emit (FSetActiveTaskId (Some JNull))
      | None => throw
      end
  | _ => throw
  end.

(** [data.logs.forEach((l) => addLog(l.message, l.type))]. *)
Fixpoint forEachLog (l : list json) : Run :=
  match l with
  | [] => done_
  | JNull :: _ => throw
  | x :: r => emit (FAddLog (prop "message" x) (prop "type" x)) >>+ forEachLog r
  end.

Definition orElse (v d : jsval) : jsval := if truthy v then v else d.

(** The message callback that [handleConnect] passes to
    [connectToSocket]. *)
Definition onMessage (data : json) : Run :=
  match data with
  | JNull => throw
  | _ =>
      when (truthy (prop "tasks" data))
        (match prop "tasks" data with Some v => onTasks v | None => done_ end) >>+
      when (truthy (prop "log" data))
        (match prop "log" data with
         | Some l => emit (FAddLog (prop "message" l)
                                   (orElse (prop "type" l) (Some (JStr "info"))))
         | None => done_
         end) >>+
      when (truthy (prop "logs" data) && isArray (prop "logs" data))
        (match prop "logs" data with
         | Some (JArr l) => forEachLog l
         | _ => done_
         end) >>+
      when (truthy (prop "projectGoal" data))
        (match prop "projectGoal" data with
         | Some g => emit (FSetGoal g)
         | None => done_
         end)
  end.

(** [ws.onmessage] as set by [connectToSocket]: [parsed] is the outcome of
    [JSON.parse(event.data)], [None] when it throws. Whatever is thrown
    inside the [try] block is caught and reported on the console. *)
Definition ws_onmessage (parsed : option json) : list FeedAction :=
  match parsed with
  | Some data => (onMessage data).1
  | None => []
  end.

(** ** Reading raw values at the interfaces of types.ts

    The state of the component is typed ([Task[]], [LogEntry[]], [string]);
    [data] is [any]. A raw value has a counterpart in the typed state only
    when it fits the interface; the decoders return [None] otherwise. *)

Definition decodeString (v : jsval) : option string :=
  match v with Some (JStr s) => Some s | _ => None end.

Definition decodeInt (v : jsval) : option Z :=
  match v with
  | Some (JNum x) =>
      let r := Qred x in
      if (Qden r =? 1)%positive then Some (Qnum r) else None
  | _ => None
  end.

Definition decodeStatus (v : jsval) : option TaskStatus :=
  match v with
  | Some (JStr "PENDING") => Some PENDING
  | Some (JStr "IN_PROGRESS") => Some IN_PROGRESS
  | Some (JStr "REVIEW") => Some REVIEW
  | Some (JStr "COMPLETED") => Some COMPLETED
  | _ => None
  end.

Definition decodePriority (v : jsval) : option Priority :=
  match v with
  | Some (JStr "low") => Some low
  | Some (JStr "medium") => Some medium
  | Some (JStr "high") => Some high
  | _ => None
  end.

Definition decodeLogType (v : jsval) : option LogType :=
  match v with
  | Some (JStr "info") => Some info
  | Some (JStr "success") => Some success
  | Some (JStr "error") => Some error
  | Some (JStr "warning") => Some warning
  | _ => None
  end.

Definition decodeLogEntry (v : json) : option LogEntry.t :=
  ts ← decodeInt (prop "timestamp" v);
  m ← decodeString (prop "message" v);
  ty ← decodeLogType (prop "type" v);
  Some (LogEntry.mk ts m ty).

Definition decodeArray {A} (f : json → option A) (v : jsval)
  : option (list A) :=
  match v with
  | Some (JArr l) => mapM f l
  | _ => None
  end.

Definition decodeTask (v : json) : option Task.t :=
  i ← decodeString (prop "id" v);
  ti ← decodeString (prop "title" v);
  d ← decodeString (prop "description" v);
  s ← decodeStatus (prop "status" v);
  p ← decodePriority (prop "priority" v);
  l ← decodeArray decodeLogEntry (prop "logs" v);
  pr ← decodeInt (prop "progress" v);
  fc ← match prop "fileChanges" v with
       | None => Some None
       | w => Some <$> decodeArray (λ x, decodeString (Some x)) w
       end;
  Some (Task.mk i ti d s p l pr fc).

(** One setter applied to the typed state; the default [type = 'info'] of
    [addLog] replaces an undefined second argument. *)
Definition applyFeedAction (now : Z) (x : FeedAction) (a : App) : option App :=
  match x with
  | FSetTasks v => ts ← decodeArray decodeTask (Some v); Some (setTasks ts a)
  | FSetActiveTaskId (Some JNull) => Some (set_activeTaskId None a)
  | FSetActiveTaskId v => i ← decodeString v; Some (set_activeTaskId (Some i) a)
  | FAddLog m ty =>
      m' ← decodeString m;
      ty' ← match ty with None => Some info | _ => decodeLogType ty end;
      Some (addLog m' ty' now a)
  | FSetGoal v => g ← decodeString (Some v); Some (set_goal g a)
  end.

Fixpoint applyFeedActions (now : Z) (xs : list FeedAction) (a : App)
  : option App :=
  match xs with
  | [] => Some a
  | x :: r => a' ← applyFeedAction now x a; applyFeedActions now r a'
  end.

(** A message event on socket [i]; messages are delivered only while the
    socket is open. [None]: the state left the typed interfaces. *)
Definition socketMessage (i : nat) (parsed : option json) (now : Z) (a : App)
  : option App :=
  match sockets a !! i with
  | Some s =>
      match readyState s with
      | OPEN => applyFeedActions now (ws_onmessage parsed) a
      | _ => Some a
      end
  | None => Some a
  end.

(* ===================================================================== *)
(** * Events and runs of the component *)
(* ===================================================================== *)

(** What drives the progression engine: the timer, the log provider
    settling, and the deferred stop. *)
Inductive EngineEvent :=
| Tick (increment : Z)
| LogResolved (o : ProviderOutcome)
| TimeoutFired.

Definition engineHandle (e : EngineEvent) (now : Z) (a : App) : App :=
  match e with
  | Tick increment => tick increment now a
  | LogResolved o => logResolved (generateTaskLog o) now a
  | TimeoutFired => timeoutFired a
  end.

(** A handler runs, then React re-renders. *)
Definition engineStep (e : EngineEvent) (now : Z) (a : App) : App :=
  commit now a (engineHandle e now a).

(** Events come with the clock value at which they happen. *)
Fixpoint runEngine (evs : list (EngineEvent * Z)) (a : App) : App :=
  match evs with
  | [] => a
  | (e, now) :: r => runEngine r (engineStep e now a)
  end.

Inductive Event :=
| EvSetGoal (s : string)
| EvSetConnectionUrl (s : string)
| EvHandlePlan
| EvPlanSettled (r : option (list Task.t))
| EvHandleConnect (ctorThrows : bool)
| EvSocketOpen (i : nat)
| EvSocketError (i : nat)
| EvSocketClose (i : nat) (code : N)
| EvSocketMessage (i : nat) (parsed : option json)
| EvLoadDemoMode
| EvDemoResolved (uuid : nat → string)
| EvStopConductor
| EvEngine (e : EngineEvent).

Definition handle (e : Event) (now : Z) (a : App) : option App :=
  match e with
  | EvSetGoal s => Some (set_goal s a)
  | EvSetConnectionUrl s => Some (set_connectionUrl s a)
  | EvHandlePlan => Some (handlePlan now a)
  | EvPlanSettled r => Some (planSettled r now a)
  | EvHandleConnect ctorThrows => Some (handleConnect ctorThrows now a)
  | EvSocketOpen i => Some (socketOpen i now a)
  | EvSocketError i => Some (socketError i now a)
  | EvSocketClose i code => Some (socketClose i code now a)
  | EvSocketMessage i parsed => socketMessage i parsed now a
  | EvLoadDemoMode => Some (loadDemoMode now a)
  | EvDemoResolved uuid => Some (demoResolved uuid now a)
  | EvStopConductor => Some (stopConductor now a)
  | EvEngine e => Some (engineHandle e now a)
  end.

Definition step (e : Event) (now : Z) (a : App) : option App :=
  commit now a <$> handle e now a.

Fixpoint run (evs : list (Event * Z)) (a : App) : option App :=
  match evs with
  | [] => Some a
  | (e, now) :: r => a' ← step e now a; run r a'
  end.

(** One engine cycle without interference: the timer fires and the log
    provider, if asked, answers before the next tick. *)
Definition cycle (increment : Z) (o : ProviderOutcome) (now : Z) (a : App)
  : App :=
  engineStep (LogResolved o) now (engineStep (Tick increment) now a).

Fixpoint cycles (incs : list Z) (o : ProviderOutcome) (now : Z) (a : App)
  : App :=
  match incs with
  | [] => a
  | i :: r => cycles r o (now + 2000) (cycle i o now a)
  end.

(** The component at the moment the running flag is raised over a given
    task list with no live connection. App.tsx raises the flag this way in
    [loadDemoMode] only, over the demo tasks; the statements about a
    simulation over planned tasks start from this state. *)
Definition startSimulation (ts : list Task.t) (now : Z) : App :=
  commit now initialApp (set_isRunning true (setTasks ts initialApp)).

(** A task as [generatePlan] builds it. *)
Definition pendingTask (i : string) : Task.t :=
  Task.mk i ("Task " +:+ i) "planned" PENDING medium [] 0 (Some []).

(* ===================================================================== *)
(** * Observations used in the statements *)
(* ===================================================================== *)

(** [tasks.filter(t => t.status === s).length], as the header computes. *)
Definition countStatus (s : TaskStatus) (ts : list Task.t) : nat :=
  length (List.filter (is_status s) ts).

(** The task a tick works on: the first one in progress, else the first
    pending one. *)
Definition selectedIndex (ts : list Task.t) : option nat :=
  match findIndex (is_status IN_PROGRESS) ts with
  | Some i => Some i
  | None => findIndex (is_status PENDING) ts
  end.

(** What the updater writes back for the selected task [t]: the first step
    of a pending task, or one more step of a task in progress. *)
Definition tickTask (increment : Z) (t : Task.t) : Task.t :=
  if is_status IN_PROGRESS t then
    let newProgress := Z.min (Task.progress t + increment) 100 in
    let updated := Task.with_progress newProgress t in
    if 100 <=? newProgress then Task.with_status COMPLETED updated else updated
  else Task.with_progress 5 (Task.with_status IN_PROGRESS t).

Definition progressInRange (t : Task.t) : Prop := 0 ≤ Task.progress t ≤ 100.

Definition validIncrement (e : EngineEvent * Z) : Prop :=
  match e.1 with
  | Tick increment => 5 ≤ increment ≤ 19
  | _ => True
  end.

Definition isAllDoneLog (e : LogEntry.t) : bool :=
  String.eqb (LogEntry.message e) ALL_DONE_MESSAGE.

Definition countAllDone (logs : list LogEntry.t) : nat :=
  length (List.filter isAllDoneLog logs).

Definition isWarning (e : LogEntry.t) : bool :=
  logtype_eqb (LogEntry.type e) warning.

Definition activeSockets (l : list Socket) : nat :=
  length (List.filter ws_active l).

(** Appending a sequence of entries to a buffer, one [addLog] each. *)
Definition appendAll (es : list LogEntry.t) (buf : list LogEntry.t)
  : list LogEntry.t :=
  foldl (λ b e, appendLog e b) buf es.

(** Every socket that is still connecting or open is the one [socketRef]
    holds. *)
Definition socketInv (a : App) : Prop :=
  ∀ i s, sockets a !! i = Some s → ws_active s = true → socketRef a = Some i.

Definition noActiveSocket (l : list Socket) : Prop :=
  ∀ i s, l !! i = Some s → ws_active s = false.

(** Two states with the same sockets and the same [socketRef]. *)
Definition sameNet (a b : App) : Prop :=
  sockets a = sockets b ∧ socketRef a = socketRef b.

Definition noAllDone (logs : list LogEntry.t) : Prop :=
  Forall (λ e, isAllDoneLog e = false) logs.

(** While the timer is set over a non-empty task list, not all tasks are
    completed, and the log holds no completion line. *)
Definition engineQuiet (a : App) : Prop :=
  tasks a ≠ []
  ∧ (interval a ≠ None → every (is_status COMPLETED) (tasks a) = false)
  ∧ noAllDone (globalLogs a).

(** Tasks the engine can bring to completion: pending, in progress below
    100, or completed. *)
Definition drivable (t : Task.t) : Prop :=
  match Task.status t with
  | PENDING | COMPLETED => True
  | IN_PROGRESS => Task.progress t < 100
  | REVIEW => False
  end.

(** An upper bound on the ticks a task still needs when every increment is
    at least 5: one to start it and nineteen to take it from 5 to 100. *)
Definition ticksLeft (t : Task.t) : nat :=
  match Task.status t with
  | PENDING => 20
  | IN_PROGRESS => Z.to_nat ((104 - Task.progress t) / 5)
  | REVIEW | COMPLETED => 0
  end.

Definition totalTicksLeft (ts : list Task.t) : nat :=
  foldr (λ t n, (ticksLeft t + n)%nat) 0%nat ts.

(** The simulation between two cycles: no tick suspended, no live
    connection, and the timer set exactly while some task is not
    completed. *)
Definition betweenCycles (a : App) : Prop :=
  Forall drivable (tasks a)
  ∧ tasks a ≠ []
  ∧ processingRef a = false
  ∧ inflight a = None
  ∧ isRealtime a = false
  ∧ ((every (is_status COMPLETED) (tasks a) = true
      ∧ isRunning a = false ∧ interval a = None)
     ∨ (every (is_status COMPLETED) (tasks a) = false
        ∧ isRunning a = true ∧ is_Some (interval a))).

(** How many more times the effect can change one of its own
    dependencies: it can clear the running flag, and then the active
    task. *)
Definition effectBudget (a : App) : nat :=
  if isRunning a then 2
  else match activeTaskId a with
       | Some x => if truthy_string x then 1 else 0
       | None => 0
       end.

Definition logsOk (a : App) : Prop := (length (globalLogs a) ≤ 100)%nat.





(** The mode of the session, read off the flags: the LIVE badge shows
    while [isRealtime] holds, the simulation effect runs while [isRunning]
    holds without it. *)
Inductive SessionMode := idle | planning | simulating | live.

Definition sessionMode (a : App) : SessionMode :=
  if isRealtime a then live
  else if isRunning a then simulating
  else if isProcessing a then planning
  else idle.

#[global] Instance LogType_eq_dec : EqDecision LogType.
Proof. solve_decision. Defined.

#[global] Instance LogEntry_eq_dec : EqDecision LogEntry.t.
Proof. solve_decision. Defined.

(* ===================================================================== *)
(** * Concrete scenarios *)
(* ===================================================================== *)

(** 101 distinct log entries, numbered by their time stamp. *)
Definition numberedEntry (k : nat) : LogEntry.t :=
  LogEntry.mk (Z.of_nat k) "line" info.

Definition entries101 : list LogEntry.t := numberedEntry <$> seq 0 101.

(** Three planned tasks, and the simulation started over them. *)
Definition threeTasks : list Task.t :=
  [pendingTask "1"; pendingTask "2"; pendingTask "3"].

Definition threeStarted : App := startSimulation threeTasks 0.

(** The events of [n] cycles: a tick, then the provider's answer. *)
Fixpoint cycleEvents (incs : list Z) (o : ProviderOutcome) (now : Z)
  : list (EngineEvent * Z) :=
  match incs with
  | [] => []
  | i :: r => (Tick i, now) :: (LogResolved o, now) :: cycleEvents r o (now + 2000)
  end.

(** Connect, see the socket open, connect again. *)
Definition reconnectTrace : list (Event * Z) :=
  [(EvHandleConnect false, 0); (EvSocketOpen 0, 50); (EvHandleConnect false, 100)].

(** The same, and the second socket opens too. *)
Definition reconnectOpenTrace : list (Event * Z) :=
  reconnectTrace ++ [(EvSocketOpen 1, 150)].

(** Nine cycles with the largest increment the engine draws. *)
Definition steadyRun : list (EngineEvent * Z) :=
  cycleEvents (replicate 9 19%Z) NoClient 2000.

Definition demoUuid (k : nat) : string := "id-" +:+ pretty k.

(** Connect is clicked and, while the handshake is pending, View Demo: the
    demo loads and the first tick asks the log provider. The socket is
    still connecting and the provider has not answered. *)
Definition lateResultTrace : list (Event * Z) :=
  [(EvHandleConnect false, 200000); (EvLoadDemoMode, 200100);
   (EvDemoResolved demoUuid, 200900); (EvEngine (Tick 10), 202900)].

Definition lateAnswer : ProviderOutcome :=
  Response (Some "Compiling src/utils.ts...").

(** The late-result rule as the specification words it: when the session
    goes from simulating to live while a log request is in flight, the
    answer that arrives afterwards leaves the task list as it is. *)
Definition lateResultsDiscarded : Prop :=
  ∀ evs a i t b o t' c,
    run evs initialApp = Some a →
    sessionMode a = simulating → is_Some (inflight a) →
    step (EvSocketOpen i) t a = Some b → sessionMode b = live →
    step (EvEngine (LogResolved o)) t' b = Some c →
    tasks c = tasks b.

(** A snapshot of two tasks, one of them in progress, as the feed sends
    it. *)
Definition feedTask (i st : string) (p : Z) : json :=
  JObj [("id", JStr i); ("title", JStr ("Task " +:+ i));
        ("description", JStr "from the feed"); ("status", JStr st);
        ("priority", JStr "high"); ("logs", JArr []);
        ("progress", JNum (p # 1))].

Definition feedSnapshot : json :=
  JObj [("tasks", JArr [feedTask "a" "IN_PROGRESS" 30; feedTask "b" "PENDING" 0])].

(** Connect from the idle state, the socket opens, the feed delivers the
    snapshot. *)
Definition feedTrace : list (Event * Z) :=
  [(EvHandleConnect false, 0); (EvSocketOpen 0, 50);
   (EvSocketMessage 0 (Some feedSnapshot), 100)].

(** The three planned tasks after [n] cycles with the increment fixed
    at 20. *)
Definition threeAfter (n : nat) : App :=
  cycles (replicate n 20%Z) NoClient 2000 threeStarted.

Definition statusAfter (n i : nat) : option TaskStatus :=
  Task.status <$> tasks (threeAfter n) !! i.

Definition progressAfter (n i : nat) : option Z :=
  Task.progress <$> tasks (threeAfter n) !! i.

(** The scenario as the specification words it. [origin] is the number
    given to the first tick, so that "after tick k" is after
    [k + 1 - origin] ticks. *)
Definition scenarioAsSpecified (origin : nat) : Prop :=
  statusAfter (5 + 1 - origin) 0 = Some COMPLETED
  ∧ statusAfter (6 + 1 - origin) 1 = Some IN_PROGRESS
  ∧ countStatus COMPLETED (tasks (threeAfter 20)) = 3%nat
  ∧ countAllDone (globalLogs (threeAfter 20)) = 1%nat.

(** One planned task, run for twenty cycles with increment 19. *)
Definition oneTaskRun : App :=
  cycles (replicate 20 19%Z) NoClient 2000 (startSimulation [pendingTask "1"] 0).

(* ===================================================================== *)
(** * types.ts: the columns and ConductorBoard *)
(* ===================================================================== *)

Record Column := mkColumn {
  col_id : TaskStatus;
  col_title : string;
  col_color : string
}.

Definition COLUMN_CONFIG : list Column :=
  [ mkColumn PENDING "Backlog" "border-slate-600";
    mkColumn IN_PROGRESS "In Progress" "border-blue-500";
    mkColumn REVIEW "Review / QA" "border-purple-500";
    mkColumn COMPLETED "Done" "border-green-500" ].

(** [tasks.filter((t) => t.status === col.id)] in ConductorBoard. *)
Definition colTasks (col : Column) (tasks : list Task.t) : list Task.t :=
  List.filter (λ t, status_eqb (Task.status t) (col_id col)) tasks.

(** [task.id === activeTaskId], with [activeTaskId : string | null]. *)
Definition isActiveCard (activeTaskId : option string) (task : Task.t) : bool :=
  option_string_eqb (Some (Task.id task)) activeTaskId.

(** What ConductorBoard renders: per column of [COLUMN_CONFIG], in that
    order, the cards of its tasks with their [isActive] flag. The count
    badge of a column is the length of its list. *)
Definition ConductorBoard (tasks : list Task.t) (activeTaskId : option string)
  : list (Column * list (Task.t * bool)) :=
  map (λ col,
         (col, map (λ task, (task, isActiveCard activeTaskId task))
                   (colTasks col tasks)))
      COLUMN_CONFIG.

(* ===================================================================== *)
(** * Invariants of the component *)
(* ===================================================================== *)

(** The timer exists only while the simulation runs without a live
    connection, and its callback holds the current [tasks] and
    [activeTaskId]. *)
Definition timerFresh (a : App) : Prop :=
  ∀ c, interval a = Some c →
       isRunning a = true ∧ isRealtime a = false
       ∧ c = mkClosure true (activeTaskId a) (tasks a).

(** [activeTaskId] as a condition: [if (activeTaskId)]. *)
Definition truthy_id (x : option string) : bool :=
  match x with Some s => truthy_string s | None => false end.

(** Outside a run no task is marked active. *)
Definition idleClear (a : App) : Prop :=
  isRunning a = false → truthy_id (activeTaskId a) = false.

(** A suspended tick holds the busy flag. *)
Definition inflightBusy (a : App) : Prop :=
  is_Some (inflight a) → processingRef a = true.

(** The place of a ready state in the life of a socket. *)
Definition rsRank (r : ReadyState) : nat :=
  match r with CONNECTING => 0 | OPEN => 1 | CLOSING => 2 | CLOSED => 3 end.

(** Socket [s'] is a later state of socket [s]. *)
Definition socketLater (s s' : Socket) : Prop :=
  ws_url s' = ws_url s ∧ cap_isRealtime s' = cap_isRealtime s
  ∧ (rsRank (readyState s) ≤ rsRank (readyState s'))%nat.

(** Task [t'] is a later state of task [t] in the hands of the engine:
    same identity, a log that only grew, and a status that only moved
    forward. *)
Definition taskLater (t t' : Task.t) : Prop :=
  Task.id t' = Task.id t ∧ Task.title t' = Task.title t
  ∧ Task.description t' = Task.description t
  ∧ Task.priority t' = Task.priority t
  ∧ Task.fileChanges t' = Task.fileChanges t
  ∧ Task.logs t `prefix_of` Task.logs t'
  ∧ match Task.status t with
    | PENDING => Task.status t' ≠ REVIEW
    | IN_PROGRESS =>
        Task.status t' = IN_PROGRESS ∨ Task.status t' = COMPLETED
    | REVIEW | COMPLETED =>
        Task.status t' = Task.status t ∧ Task.progress t' = Task.progress t
    end.

(** The events whose handlers call [setIsRunning(true)]. *)
Definition startsRun (e : Event) : bool :=
  match e with
  | EvSocketOpen _ | EvDemoResolved _ => true
  | _ => false
  end.

(** The string a status has in JSON (the values of the [TaskStatus] enum). *)
Definition statusName (s : TaskStatus) : string :=
  match s with
  | PENDING => "PENDING"
  | IN_PROGRESS => "IN_PROGRESS"
  | REVIEW => "REVIEW"
  | COMPLETED => "COMPLETED"
  end.

(** The setters of the feed that leave the task list alone. *)
Definition logOrGoal (x : FeedAction) : bool :=
  match x with
  | FAddLog _ _ | FSetGoal _ => true
  | FSetTasks _ | FSetActiveTaskId _ => false
  end.

(** The active task after a snapshot: the first task in progress. *)
Definition firstInProgress (ts : list Task.t) : option string :=
  Task.id <$> find (is_status IN_PROGRESS) ts.

(** One element of [data.logs] as [addLog(l.message, l.type)] takes it:
    a message that is a string and a type of the union, with the default
    of [addLog] for a missing type. *)
Definition feedLine (x : json) : option (string * LogType) :=
  m ← decodeString (prop "message" x);
  ty ← match prop "type" x with None => Some info | w => decodeLogType w end;
  Some (m, ty).

(** [addLog] called once per line, in order. *)
Definition addLogs (es : list (string * LogType)) (now : Z) (a : App) : App :=
  foldl (λ b e, addLog e.1 e.2 now b) a es.

(** The session after Connect was clicked in the initial state and the
    socket opened. *)
Definition connectedApp : App :=
  default initialApp
    (run [(EvHandleConnect false, 0); (EvSocketOpen 0, 50)] initialApp).

(** A batch of two log lines, the second without a type, then a [null]
    element and a further line, together with a project goal. *)
Definition feedLogs : json :=
  JObj [("logs", JArr [JObj [("message", JStr "compiling"); ("type", JStr "success")];
                       JObj [("message", JStr "linking")];
                       JNull;
                       JObj [("message", JStr "never shown")]]);
        ("projectGoal", JStr "never set")].


(** A batch of two log lines, the second without a type, and a project
    goal. *)
Definition feedBatch : json :=
  JObj [("logs", JArr [JObj [("message", JStr "compiling"); ("type", JStr "success")];
                       JObj [("message", JStr "linking")]]);
        ("projectGoal", JStr "Ship the release")].

(** Every socket of [l] is still there in [l'], in a later state. *)
Definition socketsLater (l l' : list Socket) : Prop :=
  ∀ i s, l !! i = Some s → ∃ s', l' !! i = Some s' ∧ socketLater s s'.

(** Whether the event is a Connect click. *)
Definition isConnectClick (e : Event) : bool :=
  match e with EvHandleConnect _ => true | _ => false end.

(** The number of Connect clicks in a trace. *)
Definition connectClicks (evs : list (Event * Z)) : nat :=
  length (List.filter (λ ev, isConnectClick ev.1) evs).

(** Two Connect clicks, both sockets open in turn, the server closes the
    second one, and a late open event arrives for it. *)
Definition closedTrace : list (Event * Z) :=
  reconnectOpenTrace ++ [(EvSocketClose 1 1006, 200); (EvSocketOpen 1, 250)].

(** The three counters of the header: Pending, Active, Done. *)
Definition headerStats (tasks : list Task.t) : nat * nat * nat :=
  (countStatus PENDING tasks, countStatus IN_PROGRESS tasks,
   countStatus COMPLETED tasks).

(** The tasks on the cards of the board, column after column. *)
Definition boardTasks (tasks : list Task.t) (activeTaskId : option string)
  : list Task.t :=
  concat (map (λ c, c.2.*1) (ConductorBoard tasks activeTaskId)).

(** The component after View Demo was clicked in the initial state at
    [n1] and [getDemoState] resolved at [n2]. *)
Definition demoLoaded (uuid : nat → string) (n1 n2 : Z) : App :=
  let a1 := commit n1 initialApp (loadDemoMode n1 initialApp) in
  commit n2 a1 (demoResolved uuid n2 a1).

(** A string of white space characters only (the empty string included),
    read from the left, one character at a time. *)
Fixpoint blankN (n : nat) (s : string) : bool :=
  match s with
  | EmptyString => true
  | String _ _ =>
      match n with
      | O => false
      | S n' =>
          match white s with
          | Some r => blankN n' r
          | None => false
          end
      end
  end.

Definition blank (s : string) : bool := blankN (String.length s) s.

(** The strings of a list, one after the other. *)
Definition joined (ws : list string) : string :=
  foldr String.append EmptyString ws.

(** The text field a click handler reads before it does anything. *)
Definition inputOf (e : Event) (a : App) : option string :=
  match e with
  | EvHandlePlan => Some (goal a)
  | EvHandleConnect _ => Some (connectionUrl a)
  | _ => None
  end.

(** The active task id after one setter call of the updater. *)
Definition cmdActive (x : option string) (c : Cmd) : option string :=
  match c with SetActiveTaskId y => y | _ => x end.

(** At most one task is in progress, and while the run is on the active
    task id is the id of that task, or [null] when there is none. *)
Definition activeTracks (a : App) : Prop :=
  (countStatus IN_PROGRESS (tasks a) ≤ 1)%nat
  ∧ (isRunning a = true → activeTaskId a = firstInProgress (tasks a)).

(** The events that can bring a stopped session back: a Connect click and
    the demo state that arrives. *)
Definition revives (e : Event) : bool :=
  match e with
  | EvHandleConnect _ | EvDemoResolved _ => true
  | _ => false
  end.

(** A trace of late events after Stop: the closing socket still reports
    open, error and close, a message arrives, the timer and the provider
    fire, and a plan is asked for. *)
Definition lateEvents : list (Event * Z) :=
  [(EvSocketOpen 0, 300); (EvSocketMessage 0 (Some feedSnapshot), 310);
   (EvSocketError 0, 320); (EvSocketClose 0 1000, 330);
   (EvEngine (Tick 10), 340); (EvEngine (LogResolved NoClient), 350);
   (EvSetGoal "next", 360); (EvHandlePlan, 370)].

(* ===================================================================== *)
(** * Lists and the global log *)
(* ===================================================================== *)

Section ListFacts.
Context {A : Type}.
Implicit Types (l r : list A) (p : A → bool).

Lemma slice_last_length n l : length (slice_last n l) = (length l `min` n)%nat.
Proof. unfold slice_last. rewrite length_drop. lia. Qed.

Lemma slice_last_short n l : (length l ≤ n)%nat → slice_last n l = l.
Proof.
  intros H. unfold slice_last.
  replace (length l - n)%nat with 0%nat by lia. done.
Qed.

(** Keeping the last [n] twice is keeping them once. *)
Lemma slice_last_app n l r :
  slice_last n (slice_last n l ++ r) = slice_last n (l ++ r).
Proof.
  unfold slice_last.
  set (k := (length l - n)%nat).
  assert (Hk : (k ≤ length l)%nat) by lia.
  rewrite !length_app, length_drop.
  rewrite <- (take_drop k l) at 4.
  rewrite <- (assoc_L (++)).
  rewrite (drop_app_ge (take k l)) by (rewrite length_take; lia).
  rewrite length_take.
  f_equal. lia.
Qed.

Lemma slice_last_snoc n l x :
  slice_last n l ++ [x] = slice_last (S n) (l ++ [x]).
Proof.
  unfold slice_last. rewrite length_app. simpl.
  replace (length l + 1 - S n)%nat with (length l - n)%nat by lia.
  rewrite drop_app_le by lia. done.
Qed.

Lemma findIndex_Some p l i :
  findIndex p l = Some i →
  ∃ x, l !! i = Some x ∧ p x = true.
Proof.
  revert i. induction l as [|y l IH]; intros i; simpl; [done|].
  destruct (p y) eqn:Hy.
  - intros [= <-]. eauto.
  - destruct (findIndex p l) as [j|]; simpl; [|done].
    intros [= <-]. destruct (IH j eq_refl) as (x & ? & ?). eauto.
Qed.

Lemma findIndex_None p l x :
  findIndex p l = None → x ∈ l → p x = false.
Proof.
  induction l as [|y l IH]; simpl; intros Hf Hin.
  - by apply elem_of_nil in Hin.
  - destruct (p y) eqn:Hy; [done|].
    destruct (findIndex p l); [done|].
    apply elem_of_cons in Hin as [->|Hin]; auto.
Qed.

Lemma findIndex_None_filter p l :
  findIndex p l = None → List.filter p l = [].
Proof.
  induction l as [|y l IH]; simpl; [done|].
  destruct (p y); [done|].
  destruct (findIndex p l); [done|]. auto.
Qed.

(** Replacing one element changes a count by that element only. *)
Lemma filter_length_insert p l i x y :
  l !! i = Some x →
  (length (List.filter p (<[i:=y]> l)) + (if p x then 1 else 0)
   = length (List.filter p l) + (if p y then 1 else 0))%nat.
Proof.
  revert i. induction l as [|z l IH]; intros [|i]; simpl; try done.
  - intros [= ->]. destruct (p x), (p y); simpl; lia.
  - intros H. specialize (IH _ H). destruct (p z); simpl; lia.
Qed.
End ListFacts.

Lemma appendLog_length e buf : (length (appendLog e buf) ≤ 100)%nat.
Proof.
  unfold appendLog. rewrite length_app, slice_last_length. simpl. lia.
Qed.

Lemma appendLog_slice e buf : appendLog e buf = slice_last 100 (buf ++ [e]).
Proof. unfold appendLog. apply slice_last_snoc. Qed.

Lemma appendAll_slice es buf :
  (length buf ≤ 100)%nat → appendAll es buf = slice_last 100 (buf ++ es).
Proof.
  revert buf. induction es as [|e es IH]; intros buf Hlen; simpl.
  - rewrite app_nil_r. symmetry. by apply slice_last_short.
  - unfold appendAll in *. simpl. rewrite IH by apply appendLog_length.
    rewrite appendLog_slice, slice_last_app, <- app_assoc. done.
Qed.

Lemma appendAll_length es buf :
  (length buf ≤ 100)%nat → (length (appendAll es buf) ≤ 100)%nat.
Proof.
  intros H. rewrite appendAll_slice, slice_last_length by done. lia.
Qed.

(* ===================================================================== *)
(** * The updater of the simulation tick *)
(* ===================================================================== *)

Lemma insert_as_alter {A} (f : A → A) (l : list A) i x :
  l !! i = Some x → <[i := f x]> l = alter f i l.
Proof.
  revert i. induction l as [|y l IH]; intros [|i]; simpl; try done.
  - by intros [= ->].
  - intros H. f_equal. by apply IH.
Qed.

Lemma is_status_true s t : is_status s t = true ↔ Task.status t = s.
Proof. unfold is_status. destruct (Task.status t), s; simpl; split; done. Qed.

Lemma is_status_false s t : is_status s t = false ↔ Task.status t ≠ s.
Proof. unfold is_status. destruct (Task.status t), s; simpl; split; done. Qed.

Lemma selectedIndex_Some ts i :
  selectedIndex ts = Some i →
  ∃ t, ts !! i = Some t ∧
       (is_status IN_PROGRESS t = true
        ∨ (findIndex (is_status IN_PROGRESS) ts = None
           ∧ is_status PENDING t = true)).
Proof.
  unfold selectedIndex.
  destruct (findIndex (is_status IN_PROGRESS) ts) as [j|] eqn:Hj.
  - intros [= <-]. apply findIndex_Some in Hj as (t & ? & ?). eauto.
  - intros Hp. apply findIndex_Some in Hp as (t & ? & ?). eauto.
Qed.

(** The task list that the updater returns: the selected task rewritten by
    [tickTask], every other position as it was. *)
Lemma tickUpdater_tasks r increment ts :
  (tickUpdater r increment ts).1 =
  match selectedIndex ts with
  | Some i => alter (tickTask increment) i ts
  | None => ts
  end.
Proof.
  unfold tickUpdater, selectedIndex.
  destruct (findIndex (is_status IN_PROGRESS) ts) as [i|] eqn:Hi.
  - apply findIndex_Some in Hi as (t & Ht & Hs). rewrite Ht.
    rewrite <- (insert_as_alter _ _ _ _ Ht). unfold tickTask. rewrite Hs.
    simpl. by destruct (100 <=? _).
  - destruct (findIndex (is_status PENDING) ts) as [i|] eqn:Hp.
    + pose proof Hp as Hp'.
      apply findIndex_Some in Hp' as (t & Ht & Hs). rewrite Ht.
      rewrite <- (insert_as_alter _ _ _ _ Ht). unfold tickTask.
      apply is_status_true in Hs.
      assert (is_status IN_PROGRESS t = false) as ->; [|done].
      apply is_status_false. congruence.
    + by destruct (every _ _ && r).
Qed.

Lemma tickUpdater_length r increment ts :
  length (tickUpdater r increment ts).1 = length ts.
Proof.
  rewrite tickUpdater_tasks. destruct (selectedIndex ts); [|done].
  apply length_alter.
Qed.

Lemma tickUpdater_frame r increment ts i :
  selectedIndex ts ≠ Some i →
  (tickUpdater r increment ts).1 !! i = ts !! i.
Proof.
  intros H. rewrite tickUpdater_tasks.
  destruct (selectedIndex ts) as [j|]; [|done].
  apply list_lookup_alter_ne. congruence.
Qed.

Lemma tickTask_progress increment t :
  0 ≤ increment → progressInRange t → progressInRange (tickTask increment t).
Proof.
  unfold progressInRange, tickTask. intros Hi Ht.
  destruct (is_status IN_PROGRESS t); simpl; [|lia].
  destruct (100 <=? _); simpl; lia.
Qed.

Lemma tickUpdater_progress r increment ts :
  0 ≤ increment →
  Forall progressInRange ts →
  Forall progressInRange (tickUpdater r increment ts).1.
Proof.
  intros Hi H. rewrite tickUpdater_tasks.
  destruct (selectedIndex ts); [|done].
  apply Forall_alter; [done|]. intros. by apply tickTask_progress.
Qed.

Lemma tickUpdater_countActive r increment ts :
  (countStatus IN_PROGRESS ts ≤ 1)%nat →
  (countStatus IN_PROGRESS (tickUpdater r increment ts).1 ≤ 1)%nat.
Proof.
  intros H. rewrite tickUpdater_tasks. unfold countStatus in *.
  destruct (selectedIndex ts) as [i|] eqn:Hsel; [|done].
  apply selectedIndex_Some in Hsel as (t & Ht & Hcase).
  rewrite <- (insert_as_alter _ _ _ _ Ht).
  pose proof (filter_length_insert (is_status IN_PROGRESS) ts i t
                (tickTask increment t) Ht) as Hc.
  destruct Hcase as [Hs | [Hnone Hs]].
  - rewrite Hs in Hc. destruct (is_status IN_PROGRESS (tickTask increment t)); lia.
  - rewrite (findIndex_None_filter _ _ Hnone) in Hc. simpl in Hc.
    destruct (is_status IN_PROGRESS t), (is_status IN_PROGRESS (tickTask increment t));
      lia.
Qed.

(** The updater promotes a pending task only when no task is in progress,
    and points the active task at it. *)
Lemma tickUpdater_promotes_when_idle r increment ts i t :
  ts !! i = Some t →
  Task.status t = PENDING →
  (∃ t', (tickUpdater r increment ts).1 !! i = Some t'
         ∧ Task.status t' = IN_PROGRESS) →
  countStatus IN_PROGRESS ts = 0%nat
  ∧ (tickUpdater r increment ts).2 = [SetActiveTaskId (Some (Task.id t))]
  ∧ (tickUpdater r increment ts).1 !! i
    = Some (Task.with_progress 5 (Task.with_status IN_PROGRESS t)).
Proof.
  intros Ht Hs (t' & Ht' & Hs').
  destruct (decide (selectedIndex ts = Some i)) as [Hsel|Hsel].
  2:{ rewrite tickUpdater_frame in Ht' by done. congruence. }
  unfold selectedIndex in Hsel. unfold tickUpdater in *. unfold countStatus.
  destruct (findIndex (is_status IN_PROGRESS) ts) as [j|] eqn:Hj.
  - injection Hsel as ->. apply findIndex_Some in Hj as (x & Hx & Hxs).
    apply is_status_true in Hxs. congruence.
  - rewrite Hsel in *. rewrite Ht in *. simpl in *.
    rewrite (findIndex_None_filter _ _ Hj). split; [done|]. split; [done|].
    apply list_lookup_insert_eq. by eapply lookup_lt_Some.
Qed.

(** When the updater completes a task it clears the active task in the same
    step. *)
Lemma tickUpdater_completes_clears r increment ts i t t' :
  ts !! i = Some t →
  Task.status t ≠ COMPLETED →
  (tickUpdater r increment ts).1 !! i = Some t' →
  Task.status t' = COMPLETED →
  (tickUpdater r increment ts).2 = [SetActiveTaskId None]
  ∧ Task.progress t' = 100.
Proof.
  intros Ht Hs Ht' Hs'.
  destruct (decide (selectedIndex ts = Some i)) as [Hsel|Hsel].
  2:{ rewrite tickUpdater_frame in Ht' by done. congruence. }
  unfold selectedIndex in Hsel. unfold tickUpdater in *.
  destruct (findIndex (is_status IN_PROGRESS) ts) as [j|] eqn:Hj.
  - injection Hsel as ->. rewrite Ht in *.
    destruct (100 <=? _) eqn:Hc; simpl in *.
    + split; [done|].
      rewrite list_lookup_insert_eq in Ht' by (by eapply lookup_lt_Some).
      injection Ht' as <-. simpl. apply Z.leb_le in Hc. lia.
    + rewrite list_lookup_insert_eq in Ht' by (by eapply lookup_lt_Some).
      injection Ht' as <-. simpl in Hs'.
      apply findIndex_Some in Hj as (x & Hx & Hxs).
      apply is_status_true in Hxs. congruence.
  - rewrite Hsel in *. rewrite Ht in *. simpl in *.
    rewrite list_lookup_insert_eq in Ht' by (by eapply lookup_lt_Some).
    injection Ht' as <-. done.
Qed.

(* ===================================================================== *)
(** * Re-rendering leaves tasks, sockets and the live flag alone *)
(* ===================================================================== *)

Ltac effect_cases :=
  unfold simulationEffect; simpl;
  repeat match goal with
         | |- context [if ?b then _ else _] => destruct b; simpl
         | |- context [match ?x with Some _ => _ | None => _ end] =>
             destruct x; simpl
         end; try reflexivity.

Lemma simulationEffect_tasks now a : tasks (simulationEffect now a) = tasks a.
Proof. effect_cases. Qed.

Lemma simulationEffect_sockets now a :
  sockets (simulationEffect now a) = sockets a.
Proof. effect_cases. Qed.

Lemma simulationEffect_socketRef now a :
  socketRef (simulationEffect now a) = socketRef a.
Proof. effect_cases. Qed.

Lemma simulationEffect_isRealtime now a :
  isRealtime (simulationEffect now a) = isRealtime a.
Proof. effect_cases. Qed.

Lemma simulationEffect_inflight now a :
  inflight (simulationEffect now a) = inflight a.
Proof. effect_cases. Qed.

Lemma simulationEffect_goal now a : goal (simulationEffect now a) = goal a.
Proof. effect_cases. Qed.

(** A projection that the effect preserves is preserved by a commit. *)
Lemma rerender_preserves {B} (f : App → B) :
  (∀ now a, f (simulationEffect now a) = f a) →
  ∀ fuel now prev next, f (rerender fuel now prev next) = f next.
Proof.
  intros Hf fuel now. induction fuel as [|n IH]; intros prev next; simpl.
  - done.
  - destruct (depsChanged prev next); [|done]. by rewrite IH, Hf.
Qed.

Lemma commit_tasks now prev next : tasks (commit now prev next) = tasks next.
Proof. apply (rerender_preserves tasks), simulationEffect_tasks. Qed.

Lemma commit_sockets now prev next :
  sockets (commit now prev next) = sockets next.
Proof. apply (rerender_preserves sockets), simulationEffect_sockets. Qed.

Lemma commit_socketRef now prev next :
  socketRef (commit now prev next) = socketRef next.
Proof. apply (rerender_preserves socketRef), simulationEffect_socketRef. Qed.

Lemma commit_isRealtime now prev next :
  isRealtime (commit now prev next) = isRealtime next.
Proof. apply (rerender_preserves isRealtime), simulationEffect_isRealtime. Qed.

Lemma commit_inflight now prev next :
  inflight (commit now prev next) = inflight next.
Proof. apply (rerender_preserves inflight), simulationEffect_inflight. Qed.

Lemma commit_goal now prev next : goal (commit now prev next) = goal next.
Proof. apply (rerender_preserves goal), simulationEffect_goal. Qed.

Lemma commit_same now a : commit now a a = a.
Proof.
  unfold commit. simpl. unfold depsChanged.
  rewrite !Bool.eqb_reflx, Nat.eqb_refl. simpl.
  destruct (activeTaskId a) as [s|]; simpl; [|done]. by rewrite String.eqb_refl.
Qed.

Lemma depsChanged_same_fields a b :
  isRunning a = isRunning b → isRealtime a = isRealtime b →
  activeTaskId a = activeTaskId b → tasksRev a = tasksRev b →
  depsChanged a b = false.
Proof.
  intros H1 H2 H3 H4. unfold depsChanged. rewrite H1, H2, H3, H4.
  rewrite !Bool.eqb_reflx, Nat.eqb_refl. simpl.
  destruct (activeTaskId b) as [x|]; simpl; [|done]. by rewrite String.eqb_refl.
Qed.

(** Each run of the effect that changes a dependency uses up budget. *)
Lemma simulationEffect_budget now a :
  depsChanged a (simulationEffect now a) = true →
  (effectBudget (simulationEffect now a) < effectBudget a)%nat.
Proof.
  unfold simulationEffect, effectBudget. simpl.
  destruct (isRunning a) eqn:Hr; simpl.
  - destruct (negb (isRealtime a)); simpl.
    + destruct (every _ _ && _); simpl.
      * intros _. destruct (activeTaskId a) as [x|]; [|lia].
        destruct (truthy_string x); lia.
      * destruct (processingRef a); simpl;
          rewrite depsChanged_same_fields; done.
    + rewrite depsChanged_same_fields; done.
  - destruct (activeTaskId a) as [x|] eqn:Ha; simpl.
    + destruct (truthy_string x) eqn:Hx; simpl.
      * intros _. rewrite Hr. lia.
      * rewrite depsChanged_same_fields; done.
    + rewrite depsChanged_same_fields; done.
Qed.

Lemma rerender_enough now k prev next :
  (effectBudget next < k)%nat →
  rerender (S k) now prev next = rerender k now prev next.
Proof.
  revert prev next. induction k as [|k IH]; intros prev next Hb; [lia|].
  change (rerender (S (S k)) now prev next)
    with (if depsChanged prev next
          then rerender (S k) now next (simulationEffect now next) else next).
  change (rerender (S k) now prev next)
    with (if depsChanged prev next
          then rerender k now next (simulationEffect now next) else next).
  destruct (depsChanged prev next); [|done].
  destruct (depsChanged next (simulationEffect now next)) eqn:Hd.
  - apply IH. pose proof (simulationEffect_budget now next Hd). lia.
  - simpl. rewrite Hd. destruct k; simpl; by rewrite ?Hd.
Qed.

(** Three runs of the effect are enough: more fuel gives the same state. *)
Lemma commit_settled now prev next n :
  rerender (3 + n) now prev next = commit now prev next.
Proof.
  unfold commit. induction n as [|n IH]; [done|].
  rewrite <- IH. replace (3 + S n)%nat with (S (3 + n)) by lia.
  apply rerender_enough.
  unfold effectBudget. destruct (isRunning next); [lia|].
  destruct (activeTaskId next) as [x|]; [|lia]. destruct (truthy_string x); lia.
Qed.

(* ===================================================================== *)
(** * The tasks after an engine event *)
(* ===================================================================== *)

Lemma applyCmds_tasks now cs a : tasks (applyCmds now cs a) = tasks a.
Proof.
  unfold applyCmds. revert a. induction cs as [|c cs IH]; intros a; simpl.
  - done.
  - rewrite IH. by destruct c.
Qed.

Lemma tickHandler_tasks c increment now a :
  tasks (tickHandler c increment now a) =
  if processingRef a then tasks a
  else (tickUpdater (c_isRunning c) increment (tasks a)).1.
Proof.
  unfold tickHandler. destruct (processingRef a); [done|]. simpl.
  destruct (tickUpdater _ _ _) as [newTasks cmds] eqn:Hu. simpl.
  repeat match goal with
         | |- context [if ?b then _ else _] => destruct b
         | |- context [match ?x with Some _ => _ | None => _ end] => destruct x
         end; simpl; apply applyCmds_tasks.
Qed.

Lemma logResolved_tasks d now a :
  tasks (logResolved d now a) =
  match inflight a with
  | Some p =>
      appendTaskLog (p_activeTaskId p)
        (LogEntry.mk now (ld_message d) (ld_type d)) (tasks a)
  | None => tasks a
  end.
Proof. unfold logResolved. by destruct (inflight a). Qed.

Lemma timeoutFired_tasks a : tasks (timeoutFired a) = tasks a.
Proof. unfold timeoutFired. by destruct (stopTimeouts a). Qed.

(** A property of task lists kept by the updater and by the appending of a
    task log is kept by every engine event. *)
Lemma engineStep_tasks_ind (P : list Task.t → Prop) e now a :
  P (tasks a) →
  (∀ r increment ts, e = Tick increment → P ts →
                     P (tickUpdater r increment ts).1) →
  (∀ aid entry ts, P ts → P (appendTaskLog aid entry ts)) →
  P (tasks (engineStep e now a)).
Proof.
  intros Ha Htick Hlog. unfold engineStep. rewrite commit_tasks.
  destruct e as [increment|o|]; simpl.
  - unfold tick. destruct (interval a) as [c|]; [|done].
    rewrite tickHandler_tasks. destruct (processingRef a); [done|].
    by apply Htick.
  - rewrite logResolved_tasks. destruct (inflight a); [|done]. by apply Hlog.
  - by rewrite timeoutFired_tasks.
Qed.

Lemma appendTaskLog_lookup aid entry ts i :
  appendTaskLog aid entry ts !! i =
  (λ t, if String.eqb (Task.id t) aid
        then Task.with_logs (Task.logs t ++ [entry]) t else t) <$> ts !! i.
Proof. unfold appendTaskLog. apply list_lookup_fmap. Qed.

Lemma appendTaskLog_progress aid entry ts :
  Forall progressInRange ts → Forall progressInRange (appendTaskLog aid entry ts).
Proof.
  intros H. unfold appendTaskLog. apply Forall_fmap.
  eapply Forall_impl; [exact H|]. intros t Ht. simpl.
  unfold progressInRange in *. by destruct (String.eqb _ _).
Qed.

Lemma appendTaskLog_countStatus s aid entry ts :
  countStatus s (appendTaskLog aid entry ts) = countStatus s ts.
Proof.
  unfold countStatus, appendTaskLog.
  induction ts as [|t ts IH]; simpl; [done|].
  assert (is_status s (if String.eqb (Task.id t) aid
                       then Task.with_logs (Task.logs t ++ [entry]) t else t)
          = is_status s t) as -> by (by destruct (String.eqb _ _)).
  destruct (is_status s t); simpl; by rewrite IH.
Qed.

(** C10. A tick changes at most one task: the list keeps its length, and
    every position other than the selected one (the first task in
    progress, else the first pending task) holds the very same task after
    the tick as before. *)
Theorem tick_changes_only_selected (a : App) (increment now : Z) :
  length (tasks (engineStep (Tick increment) now a)) = length (tasks a)
  ∧ ∀ i, selectedIndex (tasks a) ≠ Some i →
         tasks (engineStep (Tick increment) now a) !! i = tasks a !! i.
Proof.
  unfold engineStep. rewrite commit_tasks. simpl. unfold tick.
  destruct (interval a) as [c|]; [|done].
  rewrite tickHandler_tasks. destruct (processingRef a); [done|].
  split; [apply tickUpdater_length|]. intros i Hi. by apply tickUpdater_frame.
Qed.

Lemma tick_changes_only_selected_witness :
  selectedIndex (tasks threeStarted) = Some 0%nat
  ∧ tasks (engineStep (Tick 7) 2000 threeStarted) !! 1%nat
    = Some (pendingTask "2")
  ∧ tasks (engineStep (Tick 7) 2000 threeStarted) !! 2%nat
    = Some (pendingTask "3").
Proof.
  split; [reflexivity|].
  destruct (tick_changes_only_selected threeStarted 7 2000) as [_ H].
  split; rewrite H; [reflexivity | by vm_compute | reflexivity | by vm_compute].
Defined.

(** C5. The engine keeps at most one task in progress: from a task list
    with at most one task in progress, every sequence of engine events
    (ticks with any increments, log results, deferred stops) leads to a
    task list with at most one task in progress. A pending task becomes
    in progress only when no task is in progress, and the step that
    completes a task clears the active task. *)
Theorem engine_keeps_single_active (evs : list (EngineEvent * Z)) (a : App) :
  ((countStatus IN_PROGRESS (tasks a) ≤ 1)%nat →
   (countStatus IN_PROGRESS (tasks (runEngine evs a)) ≤ 1)%nat)
  ∧ (∀ r increment ts i t,
       ts !! i = Some t → Task.status t = PENDING →
       (∃ t', (tickUpdater r increment ts).1 !! i = Some t'
              ∧ Task.status t' = IN_PROGRESS) →
       countStatus IN_PROGRESS ts = 0%nat)
  ∧ (∀ r increment ts i t t',
       ts !! i = Some t → Task.status t ≠ COMPLETED →
       (tickUpdater r increment ts).1 !! i = Some t' →
       Task.status t' = COMPLETED →
       (tickUpdater r increment ts).2 = [SetActiveTaskId None]).
Proof.
  split; [|split].
  - revert a. induction evs as [|[e now] evs IH]; intros a Ha; simpl; [done|].
    apply IH.
    apply (engineStep_tasks_ind (λ ts, (countStatus IN_PROGRESS ts ≤ 1)%nat)).
    + done.
    + intros. by apply tickUpdater_countActive.
    + intros. by rewrite appendTaskLog_countStatus.
  - intros r increment ts i t Ht Hs Hex.
    by destruct (tickUpdater_promotes_when_idle r increment ts i t Ht Hs Hex).
  - intros r increment ts i t t' Ht Hs Ht' Hs'.
    by destruct (tickUpdater_completes_clears r increment ts i t t' Ht Hs Ht' Hs').
Qed.

Lemma engine_keeps_single_active_witness :
  (countStatus IN_PROGRESS
     (tasks (runEngine steadyRun threeStarted))
   ≤ 1)%nat
  ∧ countStatus IN_PROGRESS threeTasks = 0%nat.
Proof.
  destruct (engine_keeps_single_active steadyRun threeStarted)
    as (H1 & H2 & _).
  split.
  - apply H1. vm_compute. lia.
  - apply (H2 true 19 threeTasks 0%nat (pendingTask "1")); [reflexivity..|].
    eexists. split; reflexivity.
Defined.

(** C4. Progress stays within 0..100: from tasks whose progress lies in
    0..100, after every sequence of engine events whose ticks draw their
    increment from 5..19, every task's progress lies in 0..100. The step
    that starts a pending task seeds its progress with 5. *)
Theorem engine_keeps_progress_in_range (evs : list (EngineEvent * Z)) (a : App) :
  (Forall progressInRange (tasks a) →
   Forall validIncrement evs →
   Forall progressInRange (tasks (runEngine evs a)))
  ∧ (∀ r increment ts i t,
       ts !! i = Some t → Task.status t = PENDING →
       (∃ t', (tickUpdater r increment ts).1 !! i = Some t'
              ∧ Task.status t' = IN_PROGRESS) →
       (tickUpdater r increment ts).1 !! i
       = Some (Task.with_progress 5 (Task.with_status IN_PROGRESS t))).
Proof.
  split.
  - revert a. induction evs as [|[e now] evs IH]; intros a Ha Hv; simpl; [done|].
    apply Forall_cons in Hv as [He Hv].
    apply IH; [|done]. apply (engineStep_tasks_ind (Forall progressInRange)).
    + done.
    + intros r increment ts -> Hts. unfold validIncrement in He. simpl in He.
      apply tickUpdater_progress; [lia|done].
    + intros. by apply appendTaskLog_progress.
  - intros r increment ts i t Ht Hs Hex.
    by destruct (tickUpdater_promotes_when_idle r increment ts i t Ht Hs Hex)
      as (_ & _ & ?).
Qed.

Lemma engine_keeps_progress_in_range_witness :
  Forall progressInRange (tasks (runEngine steadyRun threeStarted))
  ∧ (tickUpdater true 19 threeTasks).1 !! 0%nat
    = Some (Task.with_progress 5 (Task.with_status IN_PROGRESS (pendingTask "1"))).
Proof.
  destruct (engine_keeps_progress_in_range steadyRun threeStarted)
    as (H1 & H2).
  split.
  - apply H1.
    + repeat constructor; unfold progressInRange; simpl; lia.
    + repeat constructor; unfold validIncrement; simpl; lia.
  - apply H2; [reflexivity..|]. eexists. split; reflexivity.
Defined.

(* ===================================================================== *)
(** * The global log in the states of the component *)
(* ===================================================================== *)

Lemma addLog_logsOk m ty now a : logsOk (addLog m ty now a).
Proof. unfold logsOk, addLog. simpl. apply appendLog_length. Qed.

Ltac logs_ok :=
  unfold logsOk in *;
  repeat match goal with
         | |- context [match ?v with _ => _ end] => destruct v
         | |- context [let '(_, _) := ?v in _] => destruct v
         end;
  simpl; first [assumption | apply appendLog_length].

Lemma simulationEffect_logsOk now a : logsOk a → logsOk (simulationEffect now a).
Proof. intros H. unfold simulationEffect. logs_ok. Qed.

Lemma rerender_logsOk fuel now prev next :
  logsOk next → logsOk (rerender fuel now prev next).
Proof.
  revert prev next. induction fuel as [|n IH]; intros prev next H; simpl; [done|].
  destruct (depsChanged prev next); [|done]. by apply IH, simulationEffect_logsOk.
Qed.

Lemma applyCmds_logsOk now cs a : logsOk a → logsOk (applyCmds now cs a).
Proof.
  unfold applyCmds. revert a. induction cs as [|c cs IH]; intros a H; simpl; [done|].
  apply IH. destruct c; [done | apply addLog_logsOk | done].
Qed.

Lemma engineHandle_logsOk e now a : logsOk a → logsOk (engineHandle e now a).
Proof.
  intros H. destruct e as [increment|o|]; simpl.
  - unfold tick. destruct (interval a) as [c|]; [|done].
    unfold tickHandler. destruct (processingRef a); [done|].
    destruct (tickUpdater _ _ _) as [newTasks cmds].
    pose proof (applyCmds_logsOk now cmds
                  (setTasks newTasks (set_processingRef true a)) H).
    logs_ok.
  - unfold logResolved. logs_ok.
  - unfold timeoutFired. logs_ok.
Qed.

Lemma applyFeedActions_logsOk now xs a b :
  applyFeedActions now xs a = Some b → logsOk a → logsOk b.
Proof.
  revert a. induction xs as [|x xs IH]; intros a; simpl.
  - by intros [= ->].
  - destruct (applyFeedAction now x a) as [a'|] eqn:Hx; simpl; [|done].
    intros Hr Ha. apply (IH a' Hr).
    unfold applyFeedAction in Hx.
    repeat case_match; simplify_option_eq; first [done | apply addLog_logsOk].
Qed.

(** Every handler writes the global log through [addLog] only. *)
Lemma step_logsOk e now a b : step e now a = Some b → logsOk a → logsOk b.
Proof.
  unfold step. intros Hstep Ha.
  destruct (handle e now a) as [a'|] eqn:He; simpl in Hstep; [|done].
  injection Hstep as <-. apply rerender_logsOk.
  destruct e; simpl in He; try (injection He as <-).
  - done.
  - done.
  - unfold handlePlan. logs_ok.
  - unfold planSettled. logs_ok.
  - unfold handleConnect, closeExisting, connectToSocket. logs_ok.
  - unfold socketOpen, onOpen. logs_ok.
  - unfold socketError, onError. logs_ok.
  - unfold socketClose, onClose. logs_ok.
  - unfold socketMessage in He.
    destruct (sockets a !! i) as [s|]; [|by injection He as <-].
    destruct (readyState s); try (by injection He as <-).
    by eapply applyFeedActions_logsOk.
  - unfold loadDemoMode. logs_ok.
  - unfold demoResolved. logs_ok.
  - unfold stopConductor. logs_ok.
  - by apply engineHandle_logsOk.
Qed.

Lemma run_logsOk evs a b : run evs a = Some b → logsOk a → logsOk b.
Proof.
  revert a. induction evs as [|[e now] evs IH]; intros a; simpl.
  - by intros [= ->].
  - destruct (step e now a) as [a'|] eqn:Hs; simpl; [|done].
    intros Hr Ha. apply (IH a' Hr). by eapply step_logsOk.
Qed.

(** C6. The global log is a FIFO bounded by 100: a buffer of at most 100
    entries stays so under every sequence of appends, and so does the
    global log in every state the component reaches; starting from the
    empty buffer it holds exactly the last 100 entries appended, in order;
    and after 101 appends the first entry appended is gone while the newest
    is the last element. *)
Theorem global_log_bounded_fifo (es : list LogEntry.t) :
  (∀ buf, (length buf ≤ 100)%nat → (length (appendAll es buf) ≤ 100)%nat) ∧
  (∀ evs a, run evs initialApp = Some a → (length (globalLogs a) ≤ 100)%nat) ∧
  appendAll es [] = slice_last 100 es ∧
  (∀ first rest newest,
     es = first :: rest ++ [newest] → length es = 101%nat →
     appendAll es [] = rest ++ [newest]
     ∧ last (appendAll es []) = Some newest
     ∧ (first ∉ rest ++ [newest] → first ∉ appendAll es [])).
Proof.
  split; [intros; by apply appendAll_length|].
  split.
  { intros evs a Hrun. apply (run_logsOk evs initialApp a Hrun).
    unfold logsOk. simpl. lia. }
  assert (Hs : appendAll es [] = slice_last 100 es).
  { rewrite appendAll_slice by (simpl; lia). done. }
  split; [done|].
  intros first rest newest -> Hlen. rewrite Hs.
  assert (Hr : slice_last 100 (first :: rest ++ [newest]) = rest ++ [newest]).
  { unfold slice_last. rewrite Hlen. done. }
  rewrite Hr. split; [done|]. split; [|done].
  apply last_snoc.
Qed.

Lemma global_log_bounded_fifo_witness :
  appendAll entries101 [] = numberedEntry <$> seq 1 100
  ∧ last (appendAll entries101 []) = Some (numberedEntry 100)
  ∧ (numberedEntry 0 ∉ appendAll entries101 [])
  ∧ (length (appendAll entries101 (appendAll entries101 [])) ≤ 100)%nat
  ∧ ∃ a, run reconnectTrace initialApp = Some a
         ∧ (length (globalLogs a) ≤ 100)%nat.
Proof.
  destruct (global_log_bounded_fifo entries101) as (Hb & Hrun & _ & H).
  destruct (H (numberedEntry 0) (numberedEntry <$> seq 1 99) (numberedEntry 100))
    as (H1 & H2 & H3); [vm_compute; reflexivity | vm_compute; reflexivity |].
  split; [exact H1|]. split; [exact H2|].
  split; [apply H3; compute_done|].
  split; [apply Hb; rewrite H1; vm_compute; lia|].
  eexists. split; [vm_compute; reflexivity|].
  apply (Hrun reconnectTrace). vm_compute. reflexivity.
Defined.

(* ===================================================================== *)
(** * The feed: unrecognised and unparsable messages *)
(* ===================================================================== *)


(** The values found under a recognised key are not checked: a [tasks]
    value that is no array still reaches [setTasks] before the handler
    throws. *)
Lemma onMessage_tasks_not_validated :
  onMessage (JObj [("tasks", JNum (5 # 1))]) = ([FSetTasks (JNum (5 # 1))], false).
Proof. reflexivity. Qed.




(* ===================================================================== *)
(** * At most one connection *)
(* ===================================================================== *)

Lemma filter_none {A} (p : A → bool) (l : list A) :
  (∀ i x, l !! i = Some x → p x = false) → List.filter p l = [].
Proof.
  induction l as [|z l IH]; intros H; simpl; [done|].
  rewrite (H 0%nat z eq_refl). apply IH. intros i x Hi. by apply (H (S i)).
Qed.

Lemma filter_at_most_one {A} (p : A → bool) (l : list A) :
  (∀ i j x y, l !! i = Some x → l !! j = Some y →
              p x = true → p y = true → i = j) →
  (length (List.filter p l) ≤ 1)%nat.
Proof.
  induction l as [|z l IH]; intros H; simpl; [lia|].
  destruct (p z) eqn:Hz; simpl.
  - assert (List.filter p l = []) as ->; [|simpl; lia].
    apply filter_none. intros j y Hj.
    destruct (p y) eqn:Hpy; [|done].
    specialize (H 0%nat (S j) z y eq_refl Hj Hz Hpy). done.
  - apply IH. intros i j x y Hi Hj Hx Hy.
    specialize (H (S i) (S j) x y Hi Hj Hx Hy). lia.
Qed.

Lemma socketInv_at_most_one a :
  socketInv a → (activeSockets (sockets a) ≤ 1)%nat.
Proof.
  intros H. apply filter_at_most_one. intros i j x y Hi Hj Hx Hy.
  pose proof (H i x Hi Hx). pose proof (H j y Hj Hy). congruence.
Qed.

Lemma noActiveSocket_count l : noActiveSocket l → activeSockets l = 0%nat.
Proof. intros H. unfold activeSockets. by rewrite filter_none. Qed.

Lemma ws_close_inactive s : ws_active (ws_close s) = false.
Proof. unfold ws_close, ws_active. by destruct s as [u [] c]. Qed.

Lemma socketInv_sameNet a b : sameNet a b → socketInv a → socketInv b.
Proof. intros [Hs Hr] H i s. rewrite <- Hs, <- Hr. apply H. Qed.

Lemma commit_sameNet now prev next : sameNet next (commit now prev next).
Proof. split; [by rewrite commit_sockets | by rewrite commit_socketRef]. Qed.

(** After [closeExisting] no socket is active. *)
Lemma closeExisting_noActive a :
  socketInv a →
  noActiveSocket (sockets (closeExisting a)) ∧ socketRef (closeExisting a) = None.
Proof.
  intros H. unfold closeExisting.
  destruct (socketRef a) as [k|] eqn:Hk; simpl.
  - split; [|done]. intros i s Hi.
    destruct (decide (k = i)) as [->|Hne].
    + rewrite list_lookup_alter_eq in Hi.
      destruct (sockets a !! i) as [s0|]; simpl in Hi; [|done].
      injection Hi as <-. apply ws_close_inactive.
    + rewrite list_lookup_alter_ne in Hi by done.
      destruct (ws_active s) eqn:Hs; [|done].
      specialize (H i s Hi Hs). congruence.
  - split; [|done]. intros i s Hi.
    destruct (ws_active s) eqn:Hs; [|done].
    specialize (H i s Hi Hs). congruence.
Qed.

Lemma noActive_socketInv a : noActiveSocket (sockets a) → socketInv a.
Proof. intros H i s Hi Hs. rewrite (H i s Hi) in Hs. done. Qed.

Lemma closeExisting_after_log_inv m ty now a :
  socketInv a → socketInv (addLog m ty now (set_isProcessing true a)).
Proof. apply socketInv_sameNet. by split. Qed.

Lemma handleConnect_inv ctorThrows now a :
  socketInv a → socketInv (handleConnect ctorThrows now a).
Proof.
  intros H. unfold handleConnect.
  destruct (negb _); [done|].
  set (b := addLog _ info now (set_isProcessing true a)).
  assert (Hb : socketInv b) by by apply closeExisting_after_log_inv.
  destruct (closeExisting_noActive b Hb) as [Hno Href].
  destruct ctorThrows.
  - by apply noActive_socketInv.
  - simpl. intros i s Hi Hs. simpl in *.
    apply lookup_app_Some in Hi as [Hi | [Hge Hi]].
    + rewrite (Hno i s Hi) in Hs. done.
    + destruct (i - length (sockets (closeExisting b)))%nat eqn:Hd; simpl in Hi.
      * f_equal. lia.
      * done.
Qed.

Lemma stopConductor_inv now a : socketInv a → socketInv (stopConductor now a).
Proof.
  intros H. unfold stopConductor.
  set (b := set_isRealtime false (set_isRunning false a)).
  assert (Hb : socketInv b) by (revert H; apply socketInv_sameNet; by split).
  pose proof (closeExisting_noActive b Hb) as [Hno _].
  unfold closeExisting in Hno.
  change (socketRef b) with (socketRef a) in *.
  destruct (socketRef a) as [k|] eqn:Hk; simpl in *.
  - by apply noActive_socketInv.
  - by apply noActive_socketInv.
Qed.

Lemma socketOpen_inv i now a : socketInv a → socketInv (socketOpen i now a).
Proof.
  intros H. unfold socketOpen.
  destruct (sockets a !! i) as [s|] eqn:Hi; [|done].
  destruct (readyState s) eqn:Hr; try done.
  intros j t Hj Ht. simpl in *.
  change (socketRef a = Some j).
  destruct (decide (i = j)) as [->|Hne].
  - apply (H j s Hi). unfold ws_active. by rewrite Hr.
  - rewrite list_lookup_insert_ne in Hj by done. by apply (H j t).
Qed.

Lemma socketClose_inv i code now a :
  socketInv a → socketInv (socketClose i code now a).
Proof.
  intros H. unfold socketClose.
  destruct (sockets a !! i) as [s|] eqn:Hi; [|done].
  assert (Hgen : socketInv
            (onClose s code now
               (set_sockets (<[i:=ws_set_readyState CLOSED s]> (sockets a)) a))).
  { intros j t Hj Ht.
    assert (Hj' : <[i:=ws_set_readyState CLOSED s]> (sockets a) !! j = Some t).
    { revert Hj. unfold onClose. by destruct (cap_isRealtime s). }
    assert (socketRef a = Some j) as Hgoal.
    { destruct (decide (i = j)) as [->|Hne].
      - rewrite list_lookup_insert_eq in Hj' by (by eapply lookup_lt_Some).
        injection Hj' as <-. done.
      - rewrite list_lookup_insert_ne in Hj' by done. by apply (H j t). }
    revert Hgoal. unfold onClose. by destruct (cap_isRealtime s). }
  by destruct (readyState s).
Qed.

Lemma applyFeedActions_sameNet now xs a b :
  applyFeedActions now xs a = Some b → sameNet a b.
Proof.
  revert a. induction xs as [|x xs IH]; intros a; simpl.
  - by intros [= ->].
  - destruct (applyFeedAction now x a) as [a'|] eqn:Hx; simpl; [|done].
    intros Hr. specialize (IH _ Hr).
    assert (sameNet a a') as [Hs1 Hr1].
    { unfold applyFeedAction in Hx.
      repeat case_match; simplify_option_eq; by split. }
    destruct IH as [Hs2 Hr2]. split; congruence.
Qed.

Ltac same_net :=
  split; simpl;
  repeat match goal with
         | |- context [match ?v with _ => _ end] => destruct v; simpl
         end; reflexivity.

Lemma engineHandle_sameNet e now a : sameNet a (engineHandle e now a).
Proof.
  destruct e as [increment|o|]; simpl.
  - unfold tick. destruct (interval a) as [c|]; [|by split].
    unfold tickHandler. destruct (processingRef a); [by split|].
    destruct (tickUpdater _ _ _) as [newTasks cmds].
    assert (Hc : ∀ b, sameNet b (applyCmds now cmds b)).
    { unfold applyCmds. induction cmds as [|c0 cmds IH]; intros b; simpl.
      - by split.
      - destruct (IH (applyCmd now c0 b)) as [? ?].
        split; [etrans; [|done] | etrans; [|done]]; by destruct c0. }
    destruct (Hc (setTasks newTasks (set_processingRef true a))) as [Hs Hr].
    simpl in Hs, Hr.
    split;
      repeat match goal with
             | |- context [match ?v with _ => _ end] => destruct v; simpl
             end; done.
  - unfold logResolved. same_net.
  - unfold timeoutFired. same_net.
Qed.

(** Every event keeps the invariant. *)
Lemma step_socketInv e now a b :
  step e now a = Some b → socketInv a → socketInv b.
Proof.
  unfold step. intros Hstep Ha.
  destruct (handle e now a) as [a'|] eqn:He; simpl in Hstep; [|done].
  injection Hstep as <-.
  apply (socketInv_sameNet a'); [apply commit_sameNet|].
  destruct e; simpl in He; try (injection He as <-).
  - revert Ha. apply socketInv_sameNet. by split.
  - revert Ha. apply socketInv_sameNet. by split.
  - revert Ha. apply socketInv_sameNet. unfold handlePlan. same_net.
  - revert Ha. apply socketInv_sameNet. unfold planSettled. same_net.
  - by apply handleConnect_inv.
  - by apply socketOpen_inv.
  - revert Ha. apply socketInv_sameNet. unfold socketError, onError. same_net.
  - by apply socketClose_inv.
  - revert Ha. apply socketInv_sameNet. unfold socketMessage in He.
    destruct (sockets a !! i) as [s|]; [|by injection He as <-].
    destruct (readyState s); try (by injection He as <-).
    by eapply applyFeedActions_sameNet.
  - revert Ha. apply socketInv_sameNet. unfold loadDemoMode. same_net.
  - revert Ha. apply socketInv_sameNet. unfold demoResolved. same_net.
  - by apply stopConductor_inv.
  - revert Ha. apply socketInv_sameNet. apply engineHandle_sameNet.
Qed.

Lemma run_socketInv evs a b :
  run evs a = Some b → socketInv a → socketInv b.
Proof.
  revert a. induction evs as [|[e now] evs IH]; intros a; simpl.
  - by intros [= ->].
  - destruct (step e now a) as [a'|] eqn:Hs; simpl; [|done].
    intros Hr Ha. apply (IH a' Hr). by eapply step_socketInv.
Qed.

Lemma initialApp_socketInv : socketInv initialApp.
Proof. intros i s Hi. done. Qed.

(** C8. At most one connection is active at a time: in every state the
    component reaches, at most one socket is connecting or open; and
    [handleConnect] closes the socket it holds before it makes the new one,
    so that no socket is active when [connectToSocket] is called and
    exactly one is once [handleConnect] has returned. *)
Theorem at_most_one_connection (evs : list (Event * Z)) (a : App) :
  run evs initialApp = Some a →
  (activeSockets (sockets a) ≤ 1)%nat
  ∧ ∀ now,
      truthy_string (trim (connectionUrl a)) = true →
      let mid :=
        closeExisting
          (addLog ("Initiating handshake with conductor at "
                   +:+ connectionUrl a +:+ "...") info now
                  (set_isProcessing true a)) in
      activeSockets (sockets mid) = 0%nat
      ∧ socketRef mid = None
      ∧ handleConnect false now a
        = set_socketRef (Some (length (sockets mid)))
            (connectToSocket (connectionUrl a) (isRealtime a) mid).2
      ∧ activeSockets (sockets (handleConnect false now a)) = 1%nat.
Proof.
  intros Hrun.
  assert (Ha : socketInv a).
  { eapply run_socketInv; [exact Hrun | apply initialApp_socketInv]. }
  split; [by apply socketInv_at_most_one|].
  intros now Hurl mid.
  assert (Hb : socketInv (addLog ("Initiating handshake with conductor at "
                   +:+ connectionUrl a +:+ "...") info now
                  (set_isProcessing true a)))
    by by apply closeExisting_after_log_inv.
  destruct (closeExisting_noActive _ Hb) as [Hno Href].
  fold mid in Hno, Href.
  assert (Hzero : activeSockets (sockets mid) = 0%nat)
    by by apply noActiveSocket_count.
  assert (Heq : handleConnect false now a
        = set_socketRef (Some (length (sockets mid)))
            (connectToSocket (connectionUrl a) (isRealtime a) mid).2).
  { unfold handleConnect. rewrite Hurl. simpl. done. }
  repeat split; try done.
  rewrite Heq. simpl. unfold activeSockets in *.
  rewrite List.filter_app, length_app, Hzero. done.
Qed.

Lemma at_most_one_connection_witness :
  ∃ a, run reconnectTrace initialApp = Some a
       ∧ (activeSockets (sockets a) ≤ 1)%nat
       ∧ activeSockets (sockets (handleConnect false 200 a)) = 1%nat.
Proof.
  eexists. split; [vm_compute; reflexivity|].
  match goal with
  | |- (activeSockets (sockets ?x) ≤ 1)%nat ∧ _ =>
      destruct (at_most_one_connection reconnectTrace x) as [H1 H2];
        [vm_compute; reflexivity|]
  end.
  split; [exact H1|].
  destruct (H2 200) as (_ & _ & _ & H3); [vm_compute; reflexivity|].
  exact H3.
Defined.

(* ===================================================================== *)
(** * The close event *)
(* ===================================================================== *)

(** [handleConnect] stores in the new socket's callbacks the [isRealtime] of
    the render it ran in. *)
Lemma handleConnect_captures now a :
  truthy_string (trim (connectionUrl a)) = true →
  last (sockets (handleConnect false now a))
  = Some (mkSocket (connectionUrl a) CONNECTING (isRealtime a)).
Proof.
  intros Hurl. unfold handleConnect. rewrite Hurl. simpl. apply last_snoc.
Qed.

(** What the close callback does when the variable it captured is set: one
    warning entry naming the close code, and both flags cleared. *)
Lemma onClose_captured_live s code now a :
  cap_isRealtime s = true →
  globalLogs (onClose s code now a)
  = appendLog (LogEntry.mk now (closeMessage code) warning) (globalLogs a)
  ∧ isRealtime (onClose s code now a) = false
  ∧ isRunning (onClose s code now a) = false.
Proof. intros H. unfold onClose. rewrite H. done. Qed.

(** What it does otherwise: nothing. *)
Lemma onClose_captured_idle s code now a :
  cap_isRealtime s = false → onClose s code now a = a.
Proof. intros H. unfold onClose. by rewrite H. Qed.

Example closeMessage_1006 :
  closeMessage 1006 = "Connection closed by server (Code: 1006).".
Proof. reflexivity. Qed.

(** A socket made by a second [handleConnect], run while the session was
    already live, captured [isRealtime = true]: its close event does write
    the warning and ends the live mode. *)
Lemma close_1006_after_reconnect_while_live :
  ∃ before after,
    run reconnectOpenTrace initialApp = Some before
    ∧ sessionMode before = live
    ∧ step (EvSocketClose 1 1006) 300 before = Some after
    ∧ sessionMode after = idle
    ∧ List.filter isWarning (globalLogs after)
      = [LogEntry.mk 300 "Connection closed by server (Code: 1006)." warning].
Proof.
  eexists _, _.
  split; [vm_compute; reflexivity|].
  split; [reflexivity|].
  split; [vm_compute; reflexivity|].
  split; reflexivity.
Qed.

(** C2, evaluated on the specification's scenario. The connection is made
    from the idle state, opens (the session is live) and delivers a
    snapshot; then the close event arrives with code 1006. The callback
    reads the [isRealtime] it captured when [handleConnect] ran, which is
    [false]: no log entry is added and the session stays live. *)
Theorem close_1006_after_connect_from_idle :
  ∃ before after,
    run feedTrace initialApp = Some before
    ∧ sessionMode before = live
    ∧ step (EvSocketClose 0 1006) 200 before = Some after
    ∧ (readyState <$> sockets after !! 0%nat) = Some CLOSED
    ∧ sessionMode after = live
    ∧ isRunning after = true
    ∧ globalLogs after = globalLogs before
    ∧ List.filter isWarning (globalLogs after) = [].
Proof.
  eexists _, _.
  split; [vm_compute; reflexivity|].
  split; [reflexivity|].
  split; [vm_compute; reflexivity|].
  repeat split.
Qed.

(* ===================================================================== *)
(** * The completion line *)
(* ===================================================================== *)

Lemma appendLog_noAllDone e buf :
  isAllDoneLog e = false → noAllDone buf → noAllDone (appendLog e buf).
Proof.
  intros He Hb. unfold noAllDone, appendLog, slice_last.
  apply Forall_app. split; [by apply Forall_drop|]. by apply Forall_singleton.
Qed.

Lemma noAllDone_count logs : noAllDone logs → countAllDone logs = 0%nat.
Proof.
  intros H. unfold countAllDone. rewrite filter_none; [done|].
  intros i x Hi. by eapply Forall_lookup_1 in H.
Qed.

Lemma simulationEffect_quiet now a :
  tasks a ≠ [] → noAllDone (globalLogs a) → engineQuiet (simulationEffect now a).
Proof.
  intros Hne Hlog. unfold engineQuiet.
  rewrite simulationEffect_tasks. split; [done|].
  unfold simulationEffect. simpl.
  destruct (isRunning a && negb (isRealtime a)).
  - destruct (every (is_status COMPLETED) (tasks a)) eqn:Hev; simpl.
    + assert ((0 <? length (tasks a))%nat = true) as ->.
      { apply Nat.ltb_lt. destruct (tasks a); [done|simpl; lia]. }
      simpl. done.
    + destruct (processingRef a); simpl; split; try done.
      apply appendLog_noAllDone; done.
  - destruct (negb (isRunning a)); simpl; [|done].
    destruct (activeTaskId a) as [x|]; [|done].
    by destruct (truthy_string x).
Qed.

Lemma rerender_quiet fuel now prev next :
  engineQuiet next → engineQuiet (rerender fuel now prev next).
Proof.
  revert prev next. induction fuel as [|n IH]; intros prev next H; simpl.
  - done.
  - destruct (depsChanged prev next); [|done].
    apply IH. destruct H as (? & _ & ?). by apply simulationEffect_quiet.
Qed.

Lemma commit_quiet_changed now prev next :
  depsChanged prev next = true →
  tasks next ≠ [] → noAllDone (globalLogs next) →
  engineQuiet (commit now prev next).
Proof.
  intros Hd Hne Hlog. unfold commit.
  change (rerender 3 now prev next)
    with (if depsChanged prev next
          then rerender 2 now next (simulationEffect now next) else next).
  rewrite Hd. apply rerender_quiet. by apply simulationEffect_quiet.
Qed.

Lemma depsChanged_tasksRev prev next :
  tasksRev next = S (tasksRev prev) → depsChanged prev next = true.
Proof.
  intros H. unfold depsChanged. rewrite H.
  assert ((tasksRev prev =? S (tasksRev prev))%nat = false) as ->
    by (apply Nat.eqb_neq; lia).
  simpl. by rewrite !orb_true_r.
Qed.

(** Unless every task is completed, the updater only moves the active-task
    pointer. *)
Lemma tickUpdater_cmds r increment ts :
  every (is_status COMPLETED) ts = false →
  (tickUpdater r increment ts).2 = []
  ∨ ∃ x, (tickUpdater r increment ts).2 = [SetActiveTaskId x].
Proof.
  intros H. unfold tickUpdater. rewrite H. simpl.
  repeat match goal with
         | |- context [match ?v with _ => _ end] => destruct v; simpl
         end; eauto.
Qed.

Lemma tickHandler_quiet_fields c increment now a :
  processingRef a = false →
  every (is_status COMPLETED) (tasks a) = false →
  tasksRev (tickHandler c increment now a) = S (tasksRev a)
  ∧ globalLogs (tickHandler c increment now a) = globalLogs a.
Proof.
  intros Hp Hev. unfold tickHandler. rewrite Hp. simpl.
  pose proof (tickUpdater_cmds (c_isRunning c) increment (tasks a) Hev) as Hc.
  destruct (tickUpdater _ _ _) as [newTasks cmds]. simpl in Hc.
  destruct Hc as [-> | [x ->]]; simpl;
    repeat match goal with
           | |- context [match ?v with _ => _ end] => destruct v; simpl
           end; done.
Qed.

Lemma bracketed_not_allDone now title m ty :
  isAllDoneLog (LogEntry.mk now ("[" +:+ title +:+ "] " +:+ m) ty) = false.
Proof. reflexivity. Qed.

Lemma engineStep_quiet e now a : engineQuiet a → engineQuiet (engineStep e now a).
Proof.
  intros (Hne & Hint & Hlog). unfold engineStep.
  destruct e as [increment|o|]; simpl.
  - unfold tick. destruct (interval a) as [c|] eqn:Hc.
    2:{ apply rerender_quiet. split; [done|]. split; [|done]. by rewrite Hc. }
    destruct (processingRef a) eqn:Hp.
    { unfold tickHandler. rewrite Hp. apply rerender_quiet.
      split; [done|]. split; [|done]. by rewrite Hc. }
    assert (Hev : every (is_status COMPLETED) (tasks a) = false) by by apply Hint.
    destruct (tickHandler_quiet_fields c increment now a Hp Hev) as [Hrev Hgl].
    apply commit_quiet_changed.
    + by apply depsChanged_tasksRev.
    + rewrite tickHandler_tasks, Hp. intros E.
      apply (f_equal length) in E. rewrite tickUpdater_length in E.
      destruct (tasks a); [done|simpl in E; lia].
    + by rewrite Hgl.
  - unfold logResolved. destruct (inflight a) as [p|] eqn:Hi.
    2:{ by apply rerender_quiet. }
    apply commit_quiet_changed.
    + by apply depsChanged_tasksRev.
    + simpl. unfold appendTaskLog. intros E. apply (f_equal length) in E.
      rewrite length_map in E. destruct (tasks a); [done|simpl in E; lia].
    + simpl. apply appendLog_noAllDone; [apply bracketed_not_allDone|done].
  - unfold timeoutFired. destruct (stopTimeouts a); by apply rerender_quiet.
Qed.

Lemma runEngine_quiet evs a : engineQuiet a → engineQuiet (runEngine evs a).
Proof.
  revert a. induction evs as [|[e now] evs IH]; intros a H; simpl; [done|].
  by apply IH, engineStep_quiet.
Qed.

Lemma startSimulation_quiet t ts now : engineQuiet (startSimulation (t :: ts) now).
Proof.
  unfold startSimulation. apply commit_quiet_changed.
  - reflexivity.
  - done.
  - constructor.
Qed.

Lemma cycles_runEngine incs o now a :
  cycles incs o now a = runEngine (cycleEvents incs o now) a.
Proof.
  revert now a. induction incs as [|i incs IH]; intros now a; simpl; [done|].
  by rewrite IH.
Qed.

(* ===================================================================== *)
(** * The three-task scenario *)
(* ===================================================================== *)

(** C7, as amended. With the increment fixed at 20 and three planned
    tasks, counting ticks from 1: the first task is started by tick 1,
    stands at 85 after tick 5 and is completed by tick 6; the second task
    is still pending after tick 6 and in progress after tick 7; after
    tick 18 all three tasks are completed and the engine has stopped, and
    ticks 19 and 20 change nothing. *)
Theorem three_tasks_increment_20 :
  statusAfter 1 0 = Some IN_PROGRESS ∧ progressAfter 1 0 = Some 5
  ∧ statusAfter 5 0 = Some IN_PROGRESS ∧ progressAfter 5 0 = Some 85
  ∧ statusAfter 6 0 = Some COMPLETED ∧ progressAfter 6 0 = Some 100
  ∧ statusAfter 6 1 = Some PENDING
  ∧ statusAfter 7 1 = Some IN_PROGRESS
  ∧ countStatus COMPLETED (tasks (threeAfter 17)) = 2%nat
  ∧ countStatus COMPLETED (tasks (threeAfter 18)) = 3%nat
  ∧ isRunning (threeAfter 18) = false
  ∧ interval (threeAfter 18) = None
  ∧ threeAfter 20 = threeAfter 18
  ∧ countStatus COMPLETED (tasks (threeAfter 20)) = 3%nat.
Proof. vm_compute. repeat split. Qed.

(** C7, as stated, fails. With ticks numbered from 1, the first task is
    still in progress after tick 5; however the ticks are numbered, the log
    holds no completion line after twenty ticks. *)
Lemma three_tasks_scenario_fails :
  ¬ scenarioAsSpecified 1 ∧ ¬ scenarioAsSpecified 0.
Proof.
  split.
  - intros (H & _). vm_compute in H. discriminate.
  - intros (_ & _ & _ & H). vm_compute in H. discriminate.
Qed.
(* ===================================================================== *)
(** * The simulation runs to completion *)
(* ===================================================================== *)

Lemma ticksLeft_tickTask increment t :
  5 ≤ increment → drivable t → Task.status t ≠ COMPLETED →
  drivable (tickTask increment t)
  ∧ (ticksLeft (tickTask increment t) < ticksLeft t)%nat.
Proof.
  unfold drivable, tickTask, ticksLeft, is_status.
  destruct t as [i ti d st pr l p fc]; simpl. intros Hi Hd Hs.
  destruct st; simpl in *; try done.
  - split; [lia|]. change ((104 - 5) / 5) with 19. lia.
  - destruct (100 <=? Z.min (p + increment) 100) eqn:Hc; simpl.
    + split; [done|]. apply Z.leb_le in Hc.
      assert (1 ≤ (104 - p) / 5) by (apply Z.div_le_lower_bound; lia). lia.
    + apply Z.leb_gt in Hc. split; [lia|].
      assert (Hm : Z.min (p + increment) 100 = p + increment) by lia.
      rewrite Hm.
      assert (1 ≤ (104 - (p + increment)) / 5)
        by (apply Z.div_le_lower_bound; lia).
      assert ((104 - (p + increment)) / 5 + 1 ≤ (104 - p) / 5).
      { replace ((104 - (p + increment)) / 5 + 1)
          with ((104 - (p + increment) + 1 * 5) / 5)
          by (rewrite Z.div_add; lia).
        apply Z.div_le_mono; lia. }
      lia.
Qed.

Lemma totalTicksLeft_cons t ts :
  totalTicksLeft (t :: ts) = (ticksLeft t + totalTicksLeft ts)%nat.
Proof. reflexivity. Qed.

Lemma totalTicksLeft_alter f ts i t :
  ts !! i = Some t →
  (totalTicksLeft (alter f i ts) + ticksLeft t
   = totalTicksLeft ts + ticksLeft (f t))%nat.
Proof.
  revert i. induction ts as [|x ts IH]; intros [|i]; try done.
  - intros [= ->]. change (alter f 0%nat (t :: ts)) with (f t :: ts).
    rewrite !totalTicksLeft_cons. lia.
  - intros H. change (alter f (S i) (x :: ts)) with (x :: alter f i ts).
    rewrite !totalTicksLeft_cons. specialize (IH i H). lia.
Qed.

Lemma every_completed_false_selected ts :
  Forall drivable ts →
  every (is_status COMPLETED) ts = false →
  ∃ i t, selectedIndex ts = Some i ∧ ts !! i = Some t
         ∧ Task.status t ≠ COMPLETED.
Proof.
  intros Hd Hev.
  destruct (selectedIndex ts) as [i|] eqn:Hsel.
  - pose proof Hsel as Hsel'.
    apply selectedIndex_Some in Hsel' as (t & Ht & Hcase).
    exists i, t. split; [done|]. split; [done|].
    destruct Hcase as [Hs | [_ Hs]]; apply is_status_true in Hs; congruence.
  - exfalso. unfold selectedIndex in Hsel.
    destruct (findIndex (is_status IN_PROGRESS) ts) eqn:Hip; [done|].
    assert (every (is_status COMPLETED) ts = true); [|congruence].
    unfold every. apply forallb_forall. intros t Hin.
    apply list_elem_of_In in Hin.
    pose proof (findIndex_None _ _ t Hip Hin) as H1.
    pose proof (findIndex_None _ _ t Hsel Hin) as H2.
    apply is_status_false in H1, H2.
    pose proof (proj1 (Forall_forall _ _) Hd t Hin) as Ht.
    unfold drivable in Ht. apply is_status_true.
    destruct (Task.status t); done.
Qed.

(** A tick over drivable tasks that are not all completed takes at least
    one unit off the bound. *)
Lemma tickUpdater_ticksLeft r increment ts :
  5 ≤ increment →
  Forall drivable ts →
  every (is_status COMPLETED) ts = false →
  Forall drivable (tickUpdater r increment ts).1
  ∧ (totalTicksLeft (tickUpdater r increment ts).1 < totalTicksLeft ts)%nat.
Proof.
  intros Hi Hd Hev.
  destruct (every_completed_false_selected ts Hd Hev) as (i & t & Hsel & Ht & Hs).
  rewrite tickUpdater_tasks, Hsel.
  pose proof (Forall_lookup_1 _ _ _ _ Hd Ht) as Hdt.
  destruct (ticksLeft_tickTask increment t Hi Hdt Hs) as [Hd' Hlt].
  split.
  - rewrite <- (insert_as_alter _ _ _ _ Ht). by apply Forall_insert.
  - pose proof (totalTicksLeft_alter (tickTask increment) ts i t Ht). lia.
Qed.

Lemma appendTaskLog_same_status aid entry t :
  Task.status (if String.eqb (Task.id t) aid
               then Task.with_logs (Task.logs t ++ [entry]) t else t)
  = Task.status t
  ∧ Task.progress (if String.eqb (Task.id t) aid
                   then Task.with_logs (Task.logs t ++ [entry]) t else t)
    = Task.progress t.
Proof. by destruct (String.eqb _ _). Qed.

Lemma appendTaskLog_drivable aid entry ts :
  Forall drivable ts → Forall drivable (appendTaskLog aid entry ts).
Proof.
  intros H. unfold appendTaskLog. apply Forall_fmap.
  eapply Forall_impl; [exact H|]. intros t Ht. simpl.
  unfold drivable in *.
  destruct (appendTaskLog_same_status aid entry t) as [-> ->]. done.
Qed.

Lemma appendTaskLog_ticksLeft aid entry ts :
  totalTicksLeft (appendTaskLog aid entry ts) = totalTicksLeft ts.
Proof.
  unfold appendTaskLog. induction ts as [|t ts IH]; [done|].
  rewrite map_cons, !totalTicksLeft_cons, IH. f_equal. unfold ticksLeft.
  destruct (appendTaskLog_same_status aid entry t) as [-> ->]. done.
Qed.

Lemma appendTaskLog_every s aid entry ts :
  every (is_status s) (appendTaskLog aid entry ts) = every (is_status s) ts.
Proof.
  unfold appendTaskLog, every. induction ts as [|t ts IH]; simpl; [done|].
  rewrite IH. f_equal. unfold is_status.
  destruct (appendTaskLog_same_status aid entry t) as [-> _]. done.
Qed.

Lemma every_completed_count ts :
  every (is_status COMPLETED) ts = true →
  countStatus COMPLETED ts = length ts.
Proof.
  unfold every, countStatus. induction ts as [|t ts IH]; simpl; [done|].
  intros H. apply andb_true_iff in H as [-> H]. simpl. by rewrite IH.
Qed.

Lemma totalTicksLeft_zero ts :
  Forall drivable ts → totalTicksLeft ts = 0%nat →
  every (is_status COMPLETED) ts = true.
Proof.
  induction 1 as [|t ts Ht Hts IH]; [done|].
  rewrite totalTicksLeft_cons. intros H.
  assert (ticksLeft t = 0%nat) as H0 by lia.
  change (every (is_status COMPLETED) (t :: ts))
    with (is_status COMPLETED t && every (is_status COMPLETED) ts).
  rewrite IH by lia. rewrite andb_true_r.
  unfold ticksLeft, drivable, is_status in *.
  destruct (Task.status t); simpl in *; try done.
  assert (1 ≤ (104 - Task.progress t) / 5)
    by (apply Z.div_le_lower_bound; lia). lia.
Qed.

Lemma simulationEffect_processingRef now a :
  processingRef (simulationEffect now a) = processingRef a.
Proof. effect_cases. Qed.

Lemma commit_processingRef now prev next :
  processingRef (commit now prev next) = processingRef next.
Proof. apply (rerender_preserves processingRef), simulationEffect_processingRef. Qed.

Lemma simulationEffect_stopped now a :
  isRunning a = false →
  isRunning (simulationEffect now a) = false
  ∧ interval (simulationEffect now a) = None.
Proof.
  intros H. unfold simulationEffect. simpl. rewrite H. simpl.
  destruct (activeTaskId a) as [x|]; [|done]. by destruct (truthy_string x).
Qed.

Lemma rerender_stopped fuel now prev next :
  isRunning next = false → interval next = None →
  isRunning (rerender fuel now prev next) = false
  ∧ interval (rerender fuel now prev next) = None.
Proof.
  revert prev next. induction fuel as [|n IH]; intros prev next Hr Hi; simpl.
  - done.
  - destruct (depsChanged prev next); [|done].
    destruct (simulationEffect_stopped now next Hr). by apply IH.
Qed.

Lemma commit_unfold now prev next :
  commit now prev next
  = if depsChanged prev next
    then rerender 2 now next (simulationEffect now next) else next.
Proof. reflexivity. Qed.

Lemma commit_changed_stopped now prev next :
  depsChanged prev next = true → isRunning next = false →
  isRunning (commit now prev next) = false
  ∧ interval (commit now prev next) = None.
Proof.
  intros Hd Hr. rewrite commit_unfold, Hd.
  destruct (simulationEffect_stopped now next Hr). by apply rerender_stopped.
Qed.

(** After a change of the tasks in a running simulation the effect either
    stops the engine (every task completed) or sets the timer again. *)
Lemma commit_changed_running now prev next :
  depsChanged prev next = true →
  isRunning next = true → isRealtime next = false → tasks next ≠ [] →
  (every (is_status COMPLETED) (tasks next) = true →
   isRunning (commit now prev next) = false
   ∧ interval (commit now prev next) = None)
  ∧ (every (is_status COMPLETED) (tasks next) = false →
     isRunning (commit now prev next) = true
     ∧ is_Some (interval (commit now prev next))).
Proof.
  intros Hd Hr Hl Hne. rewrite commit_unfold, Hd.
  assert (Hlen : (0 <? length (tasks next))%nat = true).
  { apply Nat.ltb_lt. destruct (tasks next); [done|simpl; lia]. }
  split; intros Hev.
  - assert (He : simulationEffect now next
                 = set_isRunning false (set_interval None next)).
    { unfold simulationEffect. simpl. by rewrite Hr, Hl, Hev, Hlen. }
    rewrite He. by apply rerender_stopped.
  - assert (He : ∃ e, simulationEffect now next = e
                      ∧ isRunning e = isRunning next
                      ∧ isRealtime e = isRealtime next
                      ∧ activeTaskId e = activeTaskId next
                      ∧ tasksRev e = tasksRev next
                      ∧ is_Some (interval e)).
    { unfold simulationEffect. simpl. rewrite Hr, Hl, Hev. simpl.
      destruct (processingRef next); simpl;
        (eexists; split; [reflexivity|]); simpl;
        repeat split; first [done | by eexists]. }
    destruct He as (e & -> & H1 & H2 & H3 & H4 & H5).
    change (rerender 2 now next e)
      with (if depsChanged next e
            then rerender 1 now e (simulationEffect now e) else e).
    rewrite (depsChanged_same_fields next e) by done.
    split; [congruence|done].
Qed.

Lemma applyCmds_preserves {B} (f : App → B) now :
  (∀ c a, f (applyCmd now c a) = f a) →
  ∀ cs a, f (applyCmds now cs a) = f a.
Proof.
  intros Hf cs. unfold applyCmds.
  induction cs as [|c cs IH]; intros a; simpl; [done|]. by rewrite IH, Hf.
Qed.

(** The fields of the state after the synchronous part of a tick that was
    not skipped. *)
Lemma tickHandler_fields c increment now a :
  processingRef a = false →
  let t := tickHandler c increment now a in
  tasks t = (tickUpdater (c_isRunning c) increment (tasks a)).1
  ∧ isRunning t = isRunning a
  ∧ isRealtime t = isRealtime a
  ∧ tasksRev t = S (tasksRev a)
  ∧ ((processingRef t = true ∧ is_Some (inflight t))
     ∨ (processingRef t = false ∧ inflight t = inflight a)).
Proof.
  intros Hp t. split.
  { unfold t. by rewrite tickHandler_tasks, Hp. }
  unfold t, tickHandler. rewrite Hp.
  destruct (tickUpdater _ _ _) as [newTasks cmds].
  set (b := setTasks newTasks (set_processingRef true a)).
  pose proof (applyCmds_preserves isRunning now
                (λ c a, ltac:(by destruct c)) cmds b) as H1.
  pose proof (applyCmds_preserves isRealtime now
                (λ c a, ltac:(by destruct c)) cmds b) as H2.
  pose proof (applyCmds_preserves tasksRev now
                (λ c a, ltac:(by destruct c)) cmds b) as H3.
  pose proof (applyCmds_preserves inflight now
                (λ c a, ltac:(by destruct c)) cmds b) as H4.
  pose proof (applyCmds_preserves processingRef now
                (λ c a, ltac:(by destruct c)) cmds b) as H5.
  simpl in H1, H2, H3, H4, H5.
  repeat match goal with
         | |- context [match ?v with _ => _ end] => destruct v
         end; simpl; rewrite ?H1, ?H2, ?H3, ?H4, ?H5;
    (repeat split; try done);
    first [left; split; [done|by eexists] | right; split; done].
Qed.

Lemma logResolved_fields d now a p :
  inflight a = Some p →
  let l := logResolved d now a in
  tasks l = appendTaskLog (p_activeTaskId p)
              (LogEntry.mk now (ld_message d) (ld_type d)) (tasks a)
  ∧ isRunning l = isRunning a
  ∧ isRealtime l = isRealtime a
  ∧ processingRef l = false
  ∧ inflight l = None
  ∧ tasksRev l = S (tasksRev a).
Proof. intros H. unfold logResolved. rewrite H. done. Qed.

Lemma every_completed_no_ticks ts :
  every (is_status COMPLETED) ts = true → totalTicksLeft ts = 0%nat.
Proof.
  induction ts as [|t ts IH]; [done|].
  change (every (is_status COMPLETED) (t :: ts))
    with (is_status COMPLETED t && every (is_status COMPLETED) ts).
  intros H. apply andb_true_iff in H as [Ht H].
  rewrite totalTicksLeft_cons, IH by done.
  apply is_status_true in Ht. unfold ticksLeft. by rewrite Ht.
Qed.

Lemma nonempty_length {A} (l k : list A) : length l = length k → k ≠ [] → l ≠ [].
Proof. destruct l, k; done. Qed.

(** One cycle of a simulation between cycles: a stopped engine stays as it
    is; a running one comes strictly closer to completion and is between
    cycles again. *)
Lemma cycle_betweenCycles increment o now a :
  5 ≤ increment → betweenCycles a →
  betweenCycles (cycle increment o now a)
  ∧ length (tasks (cycle increment o now a)) = length (tasks a)
  ∧ (every (is_status COMPLETED) (tasks a) = true → cycle increment o now a = a)
  ∧ (every (is_status COMPLETED) (tasks a) = false →
     (totalTicksLeft (tasks (cycle increment o now a))
      < totalTicksLeft (tasks a))%nat).
Proof.
  intros Hinc (Hd & Hne & Hp & Hinf & Hl & Hcase).
  destruct Hcase as [(Hev & Hr & Hi) | (Hev & Hr & [c Hc])].
  - assert (Hsame : cycle increment o now a = a).
    { unfold cycle, engineStep. simpl. unfold tick. rewrite Hi, commit_same.
      unfold logResolved. rewrite Hinf. apply commit_same. }
    rewrite Hsame. repeat split; try done; [by left | congruence].
  - unfold cycle.
    set (t := tickHandler c increment now a).
    assert (Hx1 : engineStep (Tick increment) now a = commit now a t).
    { unfold engineStep. simpl. unfold tick. by rewrite Hc. }
    rewrite Hx1. set (x1 := commit now a t).
    destruct (tickHandler_fields c increment now a Hp)
      as (Ht1 & Ht2 & Ht3 & Ht4 & Ht5).
    fold t in Ht1, Ht2, Ht3, Ht4, Ht5.
    destruct (tickUpdater_ticksLeft (c_isRunning c) increment (tasks a)
                Hinc Hd Hev) as [Hd1 Hlt].
    rewrite <- Ht1 in Hd1, Hlt.
    assert (Hlen1 : length (tasks t) = length (tasks a))
      by (rewrite Ht1; apply tickUpdater_length).
    assert (Hne1 : tasks t ≠ []) by by eapply nonempty_length.
    assert (Hdeps : depsChanged a t = true) by by apply depsChanged_tasksRev.
    assert (Hxt : tasks x1 = tasks t) by apply commit_tasks.
    assert (Hxp : processingRef x1 = processingRef t) by apply commit_processingRef.
    assert (Hxi : inflight x1 = inflight t) by apply commit_inflight.
    assert (Hxl : isRealtime x1 = false)
      by (unfold x1; rewrite commit_isRealtime; congruence).
    destruct (commit_changed_running now a t Hdeps) as [Hstop Hrun];
      [congruence | congruence | done |].
    fold x1 in Hstop, Hrun.
    destruct Ht5 as [[Hp1 [p Hin1]] | [Hp1 Hin1]].
    + (* the tick asked the provider *)
      rewrite <- Hxi in Hin1.
      destruct (logResolved_fields (generateTaskLog o) now x1 p Hin1)
        as (Hl1 & Hl2 & Hl3 & Hl4 & Hl5 & Hl6).
      set (l := logResolved (generateTaskLog o) now x1) in *.
      assert (Hy : engineStep (LogResolved o) now x1 = commit now x1 l) by done.
      rewrite Hy. set (y := commit now x1 l).
      assert (Hyt : tasks y = tasks l) by apply commit_tasks.
      assert (Hdeps2 : depsChanged x1 l = true) by by apply depsChanged_tasksRev.
      assert (Hevl : every (is_status COMPLETED) (tasks l)
                     = every (is_status COMPLETED) (tasks t)).
      { rewrite Hl1, appendTaskLog_every. by rewrite Hxt. }
      assert (Hlenl : length (tasks l) = length (tasks a)).
      { rewrite Hl1. unfold appendTaskLog. rewrite length_map. congruence. }
      assert (Hnel : tasks l ≠ []) by by eapply nonempty_length.
      assert (Htl : totalTicksLeft (tasks l) = totalTicksLeft (tasks t)).
      { rewrite Hl1, appendTaskLog_ticksLeft. by rewrite Hxt. }
      repeat split.
      * rewrite Hyt, Hl1. apply appendTaskLog_drivable. by rewrite Hxt.
      * by rewrite Hyt.
      * unfold y. by rewrite commit_processingRef.
      * unfold y. by rewrite commit_inflight.
      * unfold y. rewrite commit_isRealtime. congruence.
      * rewrite Hyt, Hevl.
        destruct (every (is_status COMPLETED) (tasks t)) eqn:Hevt.
        -- left. split; [done|]. destruct (Hstop eq_refl) as [Hs1 _].
           apply commit_changed_stopped; [done | congruence].
        -- right. split; [done|]. destruct (Hrun eq_refl) as [Hr1 _].
           destruct (commit_changed_running now x1 l Hdeps2) as [_ Hrun2];
             [congruence | congruence | done |].
           apply Hrun2. congruence.
      * by rewrite Hyt.
      * congruence.
      * intros _. rewrite Hyt, Htl. done.
    + (* the tick ended without asking *)
      rewrite Hinf in Hin1. rewrite <- Hxi in Hin1.
      assert (Hy : engineStep (LogResolved o) now x1 = x1).
      { unfold engineStep. simpl. unfold logResolved. rewrite Hin1.
        apply commit_same. }
      rewrite Hy. repeat split.
      * by rewrite Hxt.
      * by rewrite Hxt.
      * congruence.
      * done.
      * done.
      * rewrite Hxt.
        destruct (every (is_status COMPLETED) (tasks t)) eqn:Hevt.
        -- left. split; [done|]. by apply Hstop.
        -- right. split; [done|]. by apply Hrun.
      * congruence.
      * congruence.
      * intros _. by rewrite Hxt.
Qed.

Lemma cycles_complete incs o now a :
  Forall (λ i, 5 ≤ i) incs → betweenCycles a →
  (totalTicksLeft (tasks a) ≤ length incs)%nat →
  betweenCycles (cycles incs o now a)
  ∧ every (is_status COMPLETED) (tasks (cycles incs o now a)) = true
  ∧ length (tasks (cycles incs o now a)) = length (tasks a).
Proof.
  revert now a. induction incs as [|i incs IH]; intros now a Hi Ha Hlt; simpl.
  - split; [done|]. split; [|done].
    destruct Ha as (Hd & _). apply totalTicksLeft_zero; [done|]. simpl in Hlt. lia.
  - apply Forall_cons in Hi as [Hi His].
    destruct (cycle_betweenCycles i o now a Hi Ha) as (Hb & Hlen & Hsame & Hdec).
    destruct (IH (now + 2000) (cycle i o now a) His Hb) as (H1 & H2 & H3).
    + destruct (every (is_status COMPLETED) (tasks a)) eqn:Hev.
      * rewrite (Hsame eq_refl). rewrite (every_completed_no_ticks _ Hev). lia.
      * specialize (Hdec eq_refl). simpl in Hlt. lia.
    + split; [done|]. split; [done|]. congruence.
Qed.

Lemma all_pending_ticksLeft ts :
  Forall (λ t, Task.status t = PENDING) ts →
  totalTicksLeft ts = (20 * length ts)%nat
  ∧ Forall drivable ts
  ∧ (ts ≠ [] → every (is_status COMPLETED) ts = false).
Proof.
  induction 1 as [|t ts Ht Hts (IH1 & IH2 & IH3)].
  - done.
  - rewrite totalTicksLeft_cons, IH1. unfold ticksLeft. rewrite Ht.
    split; [simpl; lia|]. split.
    + constructor; [|done]. unfold drivable. by rewrite Ht.
    + intros _. simpl. unfold is_status at 1. by rewrite Ht.
Qed.

Lemma startSimulation_betweenCycles ts now :
  ts ≠ [] → Forall (λ t, Task.status t = PENDING) ts →
  betweenCycles (startSimulation ts now) ∧ tasks (startSimulation ts now) = ts.
Proof.
  intros Hne Hp. destruct (all_pending_ticksLeft ts Hp) as (_ & Hd & Hev).
  unfold startSimulation.
  set (n := set_isRunning true (setTasks ts initialApp)).
  assert (Ht : tasks (commit now initialApp n) = ts) by by rewrite commit_tasks.
  destruct (commit_changed_running now initialApp n) as [_ Hrun]; try done.
  split; [|done]. repeat split.
  - by rewrite Ht.
  - by rewrite Ht.
  - by rewrite commit_processingRef.
  - by rewrite commit_inflight.
  - by rewrite commit_isRealtime.
  - right. rewrite Ht. split; [by apply Hev|]. apply Hrun. by apply Hev.
Qed.

Lemma runEngine_app evs more a :
  runEngine (evs ++ more) a = runEngine more (runEngine evs a).
Proof.
  revert a. induction evs as [|[e now] evs IH]; intros a; simpl; [done|].
  apply IH.
Qed.

(** C3, on the code. From any number of pending tasks, cycles whose
    increments lie in 5..19 complete every task and stop the engine: after
    twenty cycles per task the task list has the same length, all its tasks
    are completed, the running flag is cleared and the timer is gone. The
    completion line, however, is never written: the global log holds no
    such entry then, nor after any further engine events. Once every task
    is completed the effect stops the timer, so the branch of the updater
    that writes the line is not reached. *)
Theorem simulation_ends_without_completion_line
    (ts : list Task.t) (incs : list Z) (o : ProviderOutcome) (now0 now : Z) :
  ts ≠ [] →
  Forall (λ t, Task.status t = PENDING) ts →
  Forall (λ i, 5 ≤ i ≤ 19) incs →
  (20 * length ts ≤ length incs)%nat →
  let final := cycles incs o now (startSimulation ts now0) in
  length (tasks final) = length ts
  ∧ countStatus COMPLETED (tasks final) = length ts
  ∧ isRunning final = false
  ∧ interval final = None
  ∧ countAllDone (globalLogs final) = 0%nat
  ∧ ∀ more, countAllDone (globalLogs (runEngine more final)) = 0%nat.
Proof.
  intros Hne Hp Hincs Hlen final.
  destruct (startSimulation_betweenCycles ts now0 Hne Hp) as [Hb Hts].
  destruct (all_pending_ticksLeft ts Hp) as (Htot & _ & _).
  destruct (cycles_complete incs o now (startSimulation ts now0))
    as (Hf & Hev & Hl).
  - eapply Forall_impl; [exact Hincs|]. simpl. lia.
  - done.
  - rewrite Hts, Htot. done.
  - fold final in Hf, Hev, Hl.
    assert (Hq : engineQuiet final).
    { unfold final. rewrite cycles_runEngine.
      destruct ts as [|t ts']; [done|].
      apply runEngine_quiet, startSimulation_quiet. }
    destruct Hf as (_ & _ & _ & _ & _ & Hcase).
    destruct Hcase as [(_ & Hr & Hi) | (Hev' & _)]; [|congruence].
    split; [congruence|]. split.
    { rewrite every_completed_count by done. congruence. }
    split; [done|]. split; [done|]. split.
    + apply noAllDone_count. by destruct Hq as (_ & _ & ?).
    + intros more. apply noAllDone_count.
      by destruct (runEngine_quiet more final Hq) as (_ & _ & ?).
Qed.

Lemma simulation_ends_without_completion_line_witness :
  length (tasks oneTaskRun) = 1%nat
  ∧ countStatus COMPLETED (tasks oneTaskRun) = 1%nat
  ∧ isRunning oneTaskRun = false
  ∧ interval oneTaskRun = None
  ∧ countAllDone (globalLogs oneTaskRun) = 0%nat.
Proof.
  destruct (simulation_ends_without_completion_line
              [pendingTask "1"] (replicate 20 19%Z) NoClient 0 2000)
    as (H1 & H2 & H3 & H4 & H5 & _).
  - done.
  - repeat constructor.
  - repeat constructor; lia.
  - simpl. lia.
  - repeat split; assumption.
Defined.

(* ===================================================================== *)
(** * A late answer of the log provider *)
(* ===================================================================== *)

Lemma simulationEffect_idle now a :
  isRunning a = false →
  isRunning (simulationEffect now a) = false
  ∧ truthy_id (activeTaskId (simulationEffect now a)) = false
  ∧ globalLogs (simulationEffect now a) = globalLogs a.
Proof.
  intros H. unfold simulationEffect. simpl. rewrite H. simpl.
  destruct (activeTaskId a) as [x|] eqn:Ha; simpl; [|by rewrite Ha].
  destruct (truthy_string x) eqn:Hx; simpl; [done|]. by rewrite Ha.
Qed.

Lemma simulationEffect_still_running now a :
  isRunning (simulationEffect now a) = true →
  depsChanged a (simulationEffect now a) = false.
Proof.
  destruct (depsChanged a (simulationEffect now a)) eqn:Hd; [|done].
  pose proof (simulationEffect_budget now a Hd) as Hb. intros Hr.
  unfold effectBudget in Hb. rewrite Hr in Hb.
  destruct (isRunning a); [lia|].
  destruct (activeTaskId a) as [x|]; [destruct (truthy_string x)|]; lia.
Qed.

Lemma rerender_stopped_logs fuel now prev next :
  isRunning next = false →
  globalLogs (rerender fuel now prev next) = globalLogs next.
Proof.
  revert prev next. induction fuel as [|n IH]; intros prev next H; simpl; [done|].
  destruct (depsChanged prev next); [|done].
  destruct (simulationEffect_idle now next H) as (H1 & _ & H3).
  by rewrite IH, H3.
Qed.

(** The global log after a commit whose task list changed: the effect
    adds its line exactly when the simulation goes on. *)
Lemma commit_globalLogs_changed now prev next :
  depsChanged prev next = true → processingRef next = false →
  globalLogs (commit now prev next)
  = if isRunning next && negb (isRealtime next)
       && negb (every (is_status COMPLETED) (tasks next)
                && (0 <? length (tasks next))%nat)
    then appendLog (LogEntry.mk now "Conductor simulation engine started."
                      success) (globalLogs next)
    else globalLogs next.
Proof.
  intros Hd Hp. rewrite commit_unfold, Hd.
  assert (Hstay : isRunning (simulationEffect now next) = true →
                  rerender 2 now next (simulationEffect now next)
                  = simulationEffect now next).
  { intros H. cbn [rerender]. by rewrite simulationEffect_still_running. }
  destruct (isRunning next) eqn:Hr.
  - destruct (isRealtime next) eqn:Hl; cbn [andb negb].
    + assert (He : simulationEffect now next = set_interval None next).
      { unfold simulationEffect. simpl. by rewrite Hr, Hl. }
      rewrite Hstay; by rewrite He.
    + destruct (every (is_status COMPLETED) (tasks next)
                && (0 <? length (tasks next))%nat) eqn:Hall; cbn [andb negb].
      * assert (He : simulationEffect now next
                     = set_isRunning false (set_interval None next)).
        { unfold simulationEffect. simpl. by rewrite Hr, Hl, Hall. }
        rewrite rerender_stopped_logs; by rewrite He.
      * assert (He : simulationEffect now next
                     = set_interval
                         (Some (mkClosure true (activeTaskId next) (tasks next)))
                         (addLog "Conductor simulation engine started." success
                            now (set_interval None next))).
        { unfold simulationEffect. simpl. rewrite Hr, Hl, Hall, Hp. simpl.
          by rewrite Hr. }
        rewrite Hstay; by rewrite He.
  - cbn [andb negb].
    destruct (simulationEffect_idle now next Hr) as (Hr' & _ & Hg).
    by rewrite rerender_stopped_logs, Hg.
Qed.

(** C1, as amended. The answer of the log provider is applied whenever it
    arrives, whatever the mode has become in between: one entry is added to
    the log sequence of each task whose id is the active-task id the tick
    captured; the task list keeps its length and order, every other field
    and every other task stay as they were, and the live flag is not
    touched. The task list is left as it was only when no task carries that
    id any more. The line "[title] message" is added to the global log; in
    a live session it is the only line added, and in general the effect
    adds its own line after it exactly when the simulation goes on. *)
Theorem late_result_is_applied
    (a : App) (p : PendingLog) (o : ProviderOutcome) (now : Z) :
  inflight a = Some p →
  let d := generateTaskLog o in
  let entry := LogEntry.mk now (ld_message d) (ld_type d) in
  let line := LogEntry.mk now ("[" +:+ Task.title (p_currentTask p) +:+ "] "
                               +:+ ld_message d) (ld_type d) in
  let a' := engineStep (LogResolved o) now a in
  length (tasks a') = length (tasks a)
  ∧ (∀ i t, tasks a !! i = Some t →
            tasks a' !! i
            = Some (if String.eqb (Task.id t) (p_activeTaskId p)
                    then Task.with_logs (Task.logs t ++ [entry]) t else t))
  ∧ isRealtime a' = isRealtime a
  ∧ inflight a' = None
  ∧ ((∀ t, t ∈ tasks a → Task.id t ≠ p_activeTaskId p) → tasks a' = tasks a)
  ∧ (isRealtime a = true → globalLogs a' = appendLog line (globalLogs a))
  ∧ globalLogs a'
    = if isRunning a && negb (isRealtime a)
         && negb (every (is_status COMPLETED) (tasks a)
                  && (0 <? length (tasks a))%nat)
      then appendLog (LogEntry.mk now "Conductor simulation engine started."
                        success) (appendLog line (globalLogs a))
      else appendLog line (globalLogs a).
Proof.
  intros Hp d entry line a'.
  assert (Ht : tasks a' = appendTaskLog (p_activeTaskId p) entry (tasks a)).
  { unfold a', engineStep. rewrite commit_tasks. simpl.
    rewrite logResolved_tasks, Hp. done. }
  assert (Hg : globalLogs a'
    = if isRunning a && negb (isRealtime a)
         && negb (every (is_status COMPLETED) (tasks a)
                  && (0 <? length (tasks a))%nat)
      then appendLog (LogEntry.mk now "Conductor simulation engine started."
                        success) (appendLog line (globalLogs a))
      else appendLog line (globalLogs a)).
  { unfold a', engineStep.
    change (engineHandle (LogResolved o) now a) with (logResolved d now a).
    destruct (logResolved_fields d now a p Hp) as (H1 & H2 & H3 & H4 & _ & H6).
    rewrite commit_globalLogs_changed;
      [|by apply depsChanged_tasksRev|exact H4].
    rewrite H1, H2, H3, appendTaskLog_every.
    assert (length (appendTaskLog (p_activeTaskId p)
                      (LogEntry.mk now (ld_message d) (ld_type d)) (tasks a))
            = length (tasks a)) as -> by apply length_map.
    assert (globalLogs (logResolved d now a) = appendLog line (globalLogs a))
      as -> by (unfold logResolved; by rewrite Hp).
    done. }
  rewrite Ht. repeat split.
  - unfold appendTaskLog. apply length_map.
  - intros i t Hi. rewrite appendTaskLog_lookup, Hi. done.
  - unfold a', engineStep. rewrite commit_isRealtime. simpl.
    unfold logResolved. by rewrite Hp.
  - unfold a', engineStep. rewrite commit_inflight. simpl.
    unfold logResolved. by rewrite Hp.
  - intros Hno. unfold appendTaskLog.
    rewrite <- (map_id (tasks a)) at 2. apply map_ext_in.
    intros t Hin. apply list_elem_of_In in Hin.
    specialize (Hno t Hin). apply String.eqb_neq in Hno. by rewrite Hno.
  - intros Hl. rewrite Hg, Hl. by rewrite andb_false_r.
  - exact Hg.
Qed.

Lemma late_result_is_applied_witness :
  ∃ a b c,
    run lateResultTrace initialApp = Some a
    ∧ step (EvSocketOpen 0) 203000 a = Some b
    ∧ sessionMode b = live
    ∧ c = engineStep (LogResolved lateAnswer) 203500 b
    ∧ length (tasks c) = length (tasks b)
    ∧ isRealtime c = true
    ∧ (Task.logs <$> tasks c !! 2%nat)
      = Some [LogEntry.mk 200900 "Compiling route handlers..." info;
              LogEntry.mk 203500 "Compiling src/utils.ts..." info]
    ∧ globalLogs c
      = globalLogs b
        ++ [LogEntry.mk 203500
              "[Implement API Routes] Compiling src/utils.ts..." info].
Proof.
  eexists _, _, _.
  split; [vm_compute; reflexivity|].
  split; [vm_compute; reflexivity|].
  split; [reflexivity|].
  split; [reflexivity|].
  match goal with
  | |- length (tasks (engineStep _ _ ?b)) = _ ∧ _ =>
      destruct (late_result_is_applied b
                  (mkPending (demoUuid 2)
                     (Task.mk (demoUuid 2) "Implement API Routes"
                        "Create RESTful endpoints for the main resource"
                        IN_PROGRESS high
                        [LogEntry.mk 200900 "Compiling route handlers..." info]
                        42 (Some ["src/routes/api.ts"])))
                  lateAnswer 203500) as (H1 & H2 & H3 & _ & _ & H6 & _);
        [vm_compute; reflexivity|]
  end.
  split; [exact H1|]. split; [rewrite H3; reflexivity|].
  split; [erewrite H2; [|vm_compute; reflexivity]; reflexivity|].
  rewrite H6 by reflexivity. vm_compute. reflexivity.
Defined.

Lemma late_result_trace_facts :
  ∃ a b c,
    run lateResultTrace initialApp = Some a
    ∧ sessionMode a = simulating ∧ is_Some (inflight a)
    ∧ step (EvSocketOpen 0) 203000 a = Some b ∧ sessionMode b = live
    ∧ step (EvEngine (LogResolved lateAnswer)) 203500 b = Some c
    ∧ tasks c ≠ tasks b.
Proof.
  eexists _, _, _.
  split; [vm_compute; reflexivity|].
  split; [reflexivity|].
  split; [by eexists|].
  split; [vm_compute; reflexivity|].
  split; [reflexivity|].
  split; [vm_compute; reflexivity|].
  intros E.
  apply (f_equal (λ ts, length <$> (Task.logs <$> ts !! 2%nat))) in E.
  vm_compute in E. discriminate.
Qed.

(** C1, as stated, fails: on the trace above the socket opens while the
    request is in flight, and the answer that arrives in live mode adds a
    log entry to the third demo task. *)
Lemma late_result_not_discarded : ¬ lateResultsDiscarded.
Proof.
  intros H.
  destruct late_result_trace_facts as (a & b & c & Ha & Hm & Hi & Hb & Hl & Hc & Hne).
  apply Hne. by eapply H.
Qed.

(* ===================================================================== *)
(** * Further properties: what the handlers leave alone *)
(* ===================================================================== *)

Ltac unfold_handlers :=
  unfold handlePlan, planSettled, handleConnect, closeExisting,
    connectToSocket, socketOpen, onOpen, socketError, onError, socketClose,
    onClose, loadDemoMode, demoResolved, stopConductor, timeoutFired,
    logResolved in *.

Ltac split_cases :=
  repeat match goal with
         | |- context [match ?v with _ => _ end] => destruct v
         | |- context [let '(_, _) := ?v in _] => destruct v
         end; simpl; try done.

(** A projection untouched by the four setters of the feed is untouched by
    a message. *)
Lemma applyFeedActions_preserves {B} (f : App → B) now :
  (∀ v a, f (setTasks v a) = f a) →
  (∀ v a, f (set_activeTaskId v a) = f a) →
  (∀ m ty a, f (addLog m ty now a) = f a) →
  (∀ v a, f (set_goal v a) = f a) →
  ∀ xs a b, applyFeedActions now xs a = Some b → f b = f a.
Proof.
  intros H1 H2 H3 H4 xs. induction xs as [|x xs IH]; intros a b; simpl.
  - by intros [= ->].
  - destruct (applyFeedAction now x a) as [a'|] eqn:Hx; simpl; [|done].
    intros Hr. rewrite (IH a' b Hr).
    unfold applyFeedAction in Hx.
    repeat case_match; simplify_option_eq; done.
Qed.

Lemma socketMessage_preserves {B} (f : App → B) now :
  (∀ v a, f (setTasks v a) = f a) →
  (∀ v a, f (set_activeTaskId v a) = f a) →
  (∀ m ty a, f (addLog m ty now a) = f a) →
  (∀ v a, f (set_goal v a) = f a) →
  ∀ i parsed a b, socketMessage i parsed now a = Some b → f b = f a.
Proof.
  intros H1 H2 H3 H4 i parsed a b. unfold socketMessage.
  destruct (sockets a !! i) as [s|]; [|by intros [= ->]].
  destruct (readyState s); try (by intros [= ->]).
  by apply applyFeedActions_preserves.
Qed.

Lemma tick_preserves {B} (f : App → B) increment now a :
  (∀ v a, f (setTasks v a) = f a) →
  (∀ v a, f (set_activeTaskId v a) = f a) →
  (∀ m ty a, f (addLog m ty now a) = f a) →
  (∀ v a, f (set_stopTimeouts v a) = f a) →
  (∀ v a, f (set_processingRef v a) = f a) →
  (∀ v a, f (set_inflight v a) = f a) →
  f (tick increment now a) = f a.
Proof.
  intros H1 H2 H3 H4 H5 H6. unfold tick.
  destruct (interval a) as [c|]; [|done].
  unfold tickHandler. destruct (processingRef a); [done|].
  destruct (tickUpdater _ _ _) as [newTasks cmds].
  assert (Hc : ∀ b, f (applyCmds now cmds b) = f b).
  { apply applyCmds_preserves. intros c0 b. destruct c0; simpl; auto. }
  repeat match goal with
         | |- context [match ?v with _ => _ end] => destruct v
         end; rewrite ?H5, ?H6, Hc, H1, H5; done.
Qed.

(** No handler touches the timer: only the effect sets and clears it. *)
Lemma handle_interval e now a a' :
  handle e now a = Some a' → interval a' = interval a.
Proof.
  destruct e as [s|s| |r|ct|i|i|i code|i parsed| |uuid| |e]; simpl;
    try (intros [= <-]).
  - done.
  - done.
  - unfold_handlers. split_cases.
  - unfold_handlers. split_cases.
  - unfold_handlers. split_cases.
  - unfold_handlers. split_cases.
  - unfold_handlers. split_cases.
  - unfold_handlers. split_cases.
  - by apply (socketMessage_preserves interval).
  - unfold_handlers. split_cases.
  - unfold_handlers. split_cases.
  - unfold_handlers. split_cases.
  - destruct e as [increment|o|]; simpl.
    + by apply (tick_preserves interval).
    + unfold_handlers. split_cases.
    + unfold_handlers. split_cases.
Qed.

Lemma depsChanged_false prev next :
  depsChanged prev next = false →
  isRunning prev = isRunning next ∧ isRealtime prev = isRealtime next
  ∧ activeTaskId prev = activeTaskId next ∧ tasksRev prev = tasksRev next.
Proof.
  unfold depsChanged. intros H.
  apply orb_false_iff in H as [H H4]. apply orb_false_iff in H as [H H3].
  apply orb_false_iff in H as [H1 H2].
  apply negb_false_iff in H1, H2, H3, H4.
  apply Bool.eqb_prop in H1, H2. apply Nat.eqb_eq in H4.
  repeat split; try done.
  destruct (activeTaskId prev) as [x|], (activeTaskId next) as [y|];
    simpl in H3; try done.
  apply String.eqb_eq in H3. by subst.
Qed.

(** A handler changes [tasks] only through [setTasks], which makes a new
    array. *)
Lemma handle_tasksRev e now a a' :
  handle e now a = Some a' →
  (tasksRev a' = tasksRev a ∧ tasks a' = tasks a)
  ∨ (tasksRev a < tasksRev a')%nat.
Proof.
  destruct e as [s|s| |r|ct|i|i|i code|i parsed| |uuid| |e]; simpl;
    try (intros [= <-]).
  - by left.
  - by left.
  - unfold_handlers. split_cases; first [by left | right; simpl; lia].
  - unfold_handlers. split_cases; first [by left | right; simpl; lia].
  - unfold_handlers. split_cases; first [by left | right; simpl; lia].
  - unfold_handlers. split_cases; first [by left | right; simpl; lia].
  - unfold_handlers. split_cases; first [by left | right; simpl; lia].
  - unfold_handlers. split_cases; first [by left | right; simpl; lia].
  - unfold socketMessage.
    destruct (sockets a !! i) as [s|]; [|intros [= <-]; by left].
    destruct (readyState s); try (intros [= <-]; by left).
    generalize (ws_onmessage parsed). intros xs. revert a.
    induction xs as [|x xs IH]; intros a; simpl.
    + intros [= <-]. by left.
    + destruct (applyFeedAction now x a) as [b|] eqn:Hx; simpl; [|done].
      intros Hr.
      assert (Hb : (tasksRev b = tasksRev a ∧ tasks b = tasks a)
                   ∨ (tasksRev a < tasksRev b)%nat).
      { unfold applyFeedAction in Hx.
        repeat case_match; simplify_option_eq;
          first [by left | right; simpl; lia]. }
      destruct (IH b Hr) as [[E1 E2]|Hlt], Hb as [[E3 E4]|Hlt'];
        first [left; split; congruence | right; lia].
  - unfold_handlers. split_cases; first [by left | right; simpl; lia].
  - unfold_handlers. split_cases; first [by left | right; simpl; lia].
  - unfold_handlers. split_cases; first [by left | right; simpl; lia].
  - destruct e as [increment|o|]; simpl.
    + unfold tick. destruct (interval a) as [c|]; [|by left].
      destruct (processingRef a) eqn:Hp.
      * unfold tickHandler. rewrite Hp. by left.
      * right. destruct (tickHandler_fields c increment now a Hp)
          as (_ & _ & _ & -> & _). lia.
    + unfold_handlers. split_cases; first [by left | right; simpl; lia].
    + unfold_handlers. split_cases; first [by left | right; simpl; lia].
Qed.

(* ===================================================================== *)
(** * The timer and the effect *)
(* ===================================================================== *)

Lemma simulationEffect_timerFresh now a : timerFresh (simulationEffect now a).
Proof.
  unfold timerFresh, simulationEffect. simpl.
  destruct (isRunning a) eqn:Hr; simpl.
  - destruct (negb (isRealtime a)) eqn:Hl; simpl; [|done].
    apply negb_true_iff in Hl.
    destruct (every _ _ && _); simpl; [done|].
    destruct (processingRef a); simpl; intros c [= <-]; by rewrite Hr.
  - destruct (activeTaskId a) as [x|]; [|done]. by destruct (truthy_string x).
Qed.

Lemma rerender_timerFresh fuel now prev next :
  timerFresh next → timerFresh (rerender fuel now prev next).
Proof.
  revert prev next. induction fuel as [|n IH]; intros prev next H; simpl; [done|].
  destruct (depsChanged prev next); [|done].
  apply IH, simulationEffect_timerFresh.
Qed.

Lemma step_timerFresh e now a b :
  step e now a = Some b → timerFresh a → timerFresh b.
Proof.
  unfold step. intros Hs Ha.
  destruct (handle e now a) as [a'|] eqn:He; simpl in Hs; [|done].
  injection Hs as <-. rewrite commit_unfold.
  destruct (depsChanged a a') eqn:Hd.
  - apply rerender_timerFresh, simulationEffect_timerFresh.
  - apply depsChanged_false in Hd as (H1 & H2 & H3 & H4).
    pose proof (handle_interval e now a a' He) as Hi.
    destruct (handle_tasksRev e now a a' He) as [[_ Ht]|Hlt]; [|lia].
    intros c Hc. rewrite Hi in Hc.
    destruct (Ha c Hc) as (? & ? & ?). repeat split; congruence.
Qed.

Lemma run_timerFresh evs a b : run evs a = Some b → timerFresh a → timerFresh b.
Proof.
  revert a. induction evs as [|[e now] evs IH]; intros a; simpl.
  - by intros [= ->].
  - destruct (step e now a) as [a'|] eqn:Hs; simpl; [|done].
    intros Hr Ha. apply (IH a' Hr). by eapply step_timerFresh.
Qed.

(** X1. In every state the component reaches, the simulation timer is set
    only while [isRunning] holds and [isRealtime] does not; the callback it
    runs then holds the current task list and active task, and the running
    flag it captured is set. In particular no tick can happen in live mode
    or after a stop. *)
Theorem timer_only_while_simulating (evs : list (Event * Z)) (a : App) :
  run evs initialApp = Some a →
  (∀ c, interval a = Some c →
        isRunning a = true ∧ isRealtime a = false
        ∧ c_isRunning c = true
        ∧ c_tasks c = tasks a ∧ c_activeTaskId c = activeTaskId a)
  ∧ (isRealtime a = true ∨ isRunning a = false →
     ∀ increment now, step (EvEngine (Tick increment)) now a = Some a).
Proof.
  intros Hrun.
  assert (Hf : timerFresh a).
  { eapply run_timerFresh; [exact Hrun|]. intros c Hc. done. }
  split.
  - intros c Hc. destruct (Hf c Hc) as (? & ? & ->). done.
  - intros Hmode increment now. unfold step. simpl. unfold tick.
    destruct (interval a) as [c|] eqn:Hc.
    + destruct (Hf c Hc) as (? & ? & _). destruct Hmode; congruence.
    + simpl. by rewrite commit_same.
Qed.

Lemma timer_only_while_simulating_witness :
  ∃ a c, run lateResultTrace initialApp = Some a
         ∧ interval a = Some c
         ∧ isRunning a = true ∧ isRealtime a = false
         ∧ c_tasks c = tasks a ∧ c_activeTaskId c = activeTaskId a.
Proof.
  eexists _, _. split; [vm_compute; reflexivity|].
  split; [vm_compute; reflexivity|].
  match goal with
  | |- isRunning ?a = _ ∧ _ ∧ c_tasks ?c = _ ∧ _ =>
      assert (Hrun : run lateResultTrace initialApp = Some a)
        by (vm_compute; reflexivity);
      assert (Hc : interval a = Some c) by (vm_compute; reflexivity);
      pose proof (proj1 (timer_only_while_simulating lateResultTrace a Hrun)
                    c Hc) as H
  end.
  split; [exact (proj1 H)|].
  split; [exact (proj1 (proj2 H))|].
  split; [exact (proj1 (proj2 (proj2 (proj2 H))))|].
  exact (proj2 (proj2 (proj2 (proj2 H)))).
Defined.

(* ===================================================================== *)
(** * The busy flag *)
(* ===================================================================== *)

Lemma handle_refs e now a a' :
  handle e now a = Some a' →
  (∀ x, e ≠ EvEngine x) →
  processingRef a' = processingRef a ∧ inflight a' = inflight a.
Proof.
  destruct e as [s|s| |r|ct|i|i|i code|i parsed| |uuid| |e]; simpl;
    try (intros [= <-]); intros Hne.
  - done.
  - done.
  - unfold_handlers. split_cases.
  - unfold_handlers. split_cases.
  - unfold_handlers. split_cases.
  - unfold_handlers. split_cases.
  - unfold_handlers. split_cases.
  - unfold_handlers. split_cases.
  - revert Hne. intros Hm _. split.
    + by apply (socketMessage_preserves processingRef now) in Hm.
    + by apply (socketMessage_preserves inflight now) in Hm.
  - unfold_handlers. split_cases.
  - unfold_handlers. split_cases.
  - unfold_handlers. split_cases.
  - by destruct (Hne e).
Qed.

Lemma engineHandle_inflightBusy e now a :
  inflightBusy a → inflightBusy (engineHandle e now a).
Proof.
  intros H. destruct e as [increment|o|]; simpl.
  - unfold tick. destruct (interval a) as [c|]; [|done].
    destruct (processingRef a) eqn:Hp.
    + unfold tickHandler. by rewrite Hp.
    + destruct (tickHandler_fields c increment now a Hp)
        as (_ & _ & _ & _ & Hcase).
      intros Hi. destruct Hcase as [[? _] | [_ Heq]]; [done|].
      rewrite Heq in Hi. specialize (H Hi). congruence.
  - unfold logResolved. destruct (inflight a); [|done].
    intros [x Hx]. done.
  - unfold timeoutFired. by destruct (stopTimeouts a).
Qed.

Lemma step_inflightBusy e now a b :
  step e now a = Some b → inflightBusy a → inflightBusy b.
Proof.
  unfold step, inflightBusy. intros Hs Ha.
  destruct (handle e now a) as [a'|] eqn:He; simpl in Hs; [|done].
  injection Hs as <-. rewrite commit_processingRef, commit_inflight.
  destruct e as [s|s| |r|ct|i|i|i code|i parsed| |uuid| |e];
    try (destruct (handle_refs _ now a a' He) as [-> ->]; [done|exact Ha]).
  simpl in He. injection He as <-. by apply engineHandle_inflightBusy.
Qed.

Lemma run_inflightBusy evs a b :
  run evs a = Some b → inflightBusy a → inflightBusy b.
Proof.
  revert a. induction evs as [|[e now] evs IH]; intros a; simpl.
  - by intros [= ->].
  - destruct (step e now a) as [a'|] eqn:Hs; simpl; [|done].
    intros Hr Ha. apply (IH a' Hr). by eapply step_inflightBusy.
Qed.

(** X2. At most one log request is outstanding: in every state the
    component reaches, a suspended tick holds the busy flag, and as long as
    it does every tick of the timer is skipped, leaving the whole state as
    it is (no progress is made and no second request is issued) until the
    provider has answered. *)
Theorem ticks_skipped_while_request_in_flight
    (evs : list (Event * Z)) (a : App) :
  run evs initialApp = Some a →
  is_Some (inflight a) →
  processingRef a = true
  ∧ ∀ increment now, step (EvEngine (Tick increment)) now a = Some a.
Proof.
  intros Hrun Hin.
  assert (Hp : processingRef a = true).
  { eapply run_inflightBusy; [exact Hrun | | exact Hin]. intros [x Hx]. done. }
  split; [done|]. intros increment now. unfold step. simpl. unfold tick.
  destruct (interval a) as [c|]; simpl.
  - unfold tickHandler. rewrite Hp. by rewrite commit_same.
  - by rewrite commit_same.
Qed.

Lemma ticks_skipped_while_request_in_flight_witness :
  ∃ a, run lateResultTrace initialApp = Some a
       ∧ is_Some (inflight a)
       ∧ step (EvEngine (Tick 19)) 204900 a = Some a.
Proof.
  eexists. split; [vm_compute; reflexivity|].
  split; [by eexists|].
  match goal with
  | |- step _ _ ?a = _ =>
      destruct (ticks_skipped_while_request_in_flight lateResultTrace a)
        as [_ H]; [vm_compute; reflexivity | by eexists |]
  end.
  apply H.
Defined.

(* ===================================================================== *)
(** * Starting and stopping *)
(* ===================================================================== *)

Lemma simulationEffect_not_raised now a :
  isRunning a = false → isRunning (simulationEffect now a) = false.
Proof. intros H. by destruct (simulationEffect_stopped now a H). Qed.

Lemma rerender_not_raised fuel now prev next :
  isRunning next = false → isRunning (rerender fuel now prev next) = false.
Proof.
  revert prev next. induction fuel as [|n IH]; intros prev next H; simpl; [done|].
  destruct (depsChanged prev next); [|done].
  by apply IH, simulationEffect_not_raised.
Qed.

Lemma handle_raises e now a a' :
  handle e now a = Some a' →
  isRunning a = false → isRunning a' = true → startsRun e = true.
Proof.
  intros He Hf Ht.
  destruct (startsRun e) eqn:Hs; [done|]. exfalso.
  destruct e as [s|s| |r|ct|i|i|i code|i parsed| |uuid| |e]; simpl in *;
    try done; try (injection He as <-).
  - simpl in Ht. congruence.
  - simpl in Ht. congruence.
  - revert Ht. unfold_handlers. split_cases; congruence.
  - revert Ht. unfold_handlers. split_cases; congruence.
  - revert Ht. unfold_handlers. split_cases; congruence.
  - revert Ht. unfold_handlers. split_cases; congruence.
  - revert Ht. unfold_handlers. split_cases; congruence.
  - apply (socketMessage_preserves isRunning now) in He; try done.
    congruence.
  - revert Ht. unfold_handlers. split_cases; congruence.
  - revert Ht. unfold_handlers. split_cases; congruence.
  - revert Ht. destruct e as [increment|o|]; simpl.
    + rewrite (tick_preserves isRunning); [congruence | done..].
    + unfold_handlers. split_cases; congruence.
    + unfold_handlers. split_cases; congruence.
Qed.




Lemma rerender_idle fuel now prev next :
  isRunning next = false → truthy_id (activeTaskId next) = false →
  isRunning (rerender fuel now prev next) = false
  ∧ truthy_id (activeTaskId (rerender fuel now prev next)) = false.
Proof.
  revert prev next. induction fuel as [|n IH]; intros prev next H1 H2; simpl.
  - done.
  - destruct (depsChanged prev next); [|done].
    destruct (simulationEffect_idle now next H1) as (? & ? & _). by apply IH.
Qed.

Lemma step_idleClear e now a b : step e now a = Some b → idleClear a → idleClear b.
Proof.
  unfold step. intros Hs Ha.
  destruct (handle e now a) as [a'|] eqn:He; simpl in Hs; [|done].
  injection Hs as <-. rewrite commit_unfold.
  destruct (depsChanged a a') eqn:Hd.
  - destruct (isRunning a') eqn:Hr.
    + change (rerender 2 now a' (simulationEffect now a'))
        with (if depsChanged a' (simulationEffect now a')
              then rerender 1 now (simulationEffect now a')
                     (simulationEffect now (simulationEffect now a'))
              else simulationEffect now a').
      destruct (isRunning (simulationEffect now a')) eqn:Hr1.
      * rewrite simulationEffect_still_running by done. intros ?. congruence.
      * destruct (simulationEffect_idle now _ Hr1) as (H1 & H2 & _).
        destruct (depsChanged a' (simulationEffect now a')) eqn:Hd1.
        -- intros _. by apply rerender_idle.
        -- apply depsChanged_false in Hd1 as (? & _). congruence.
    + destruct (simulationEffect_idle now a' Hr) as (H1 & H2 & _).
      intros _. by apply rerender_idle.
  - apply depsChanged_false in Hd as (H1 & _ & H3 & _).
    unfold idleClear in *. by rewrite <- H1, <- H3.
Qed.

Lemma run_idleClear evs a b : run evs a = Some b → idleClear a → idleClear b.
Proof.
  revert a. induction evs as [|[e now] evs IH]; intros a; simpl.
  - by intros [= ->].
  - destruct (step e now a) as [a'|] eqn:Hs; simpl; [|done].
    intros Hr Ha. apply (IH a' Hr). by eapply step_idleClear.
Qed.

(** X4. Stopping quiesces everything but a request already in flight: from
    every state the component reaches, [stopConductor] leaves both mode
    flags cleared, no timer, an [activeTaskId] that is [null] or the empty
    string, no socket referenced and no socket connecting or open. The
    task list is kept as it is, the log gets the "Disconnected" line
    exactly when a socket was referenced, and a suspended tick stays
    suspended (its answer is still applied when it comes). *)
Theorem stop_quiesces (evs : list (Event * Z)) (a b : App) (now : Z) :
  run evs initialApp = Some a →
  step EvStopConductor now a = Some b →
  isRunning b = false ∧ isRealtime b = false
  ∧ interval b = None
  ∧ truthy_id (activeTaskId b) = false
  ∧ socketRef b = None
  ∧ activeSockets (sockets b) = 0%nat
  ∧ tasks b = tasks a
  ∧ inflight b = inflight a
  ∧ globalLogs b
    = match socketRef a with
      | Some _ => appendLog (LogEntry.mk now "Disconnected from Conductor." info)
                    (globalLogs a)
      | None => globalLogs a
      end.
Proof.
  intros Hrun Hstep.
  assert (Hinv : socketInv b ∧ timerFresh b ∧ idleClear b).
  { split; [|split].
    - eapply step_socketInv; [exact Hstep|].
      eapply run_socketInv; [exact Hrun | apply initialApp_socketInv].
    - eapply step_timerFresh; [exact Hstep|].
      eapply run_timerFresh; [exact Hrun|]. intros c Hc. done.
    - eapply step_idleClear; [exact Hstep|].
      eapply run_idleClear; [exact Hrun|]. intros _. done. }
  destruct Hinv as (Hsock & Htimer & Hidle).
  unfold step in Hstep. simpl in Hstep. injection Hstep as Hb.
  assert (Hs : isRunning (stopConductor now a) = false
               ∧ isRealtime (stopConductor now a) = false
               ∧ socketRef (stopConductor now a) = None
               ∧ tasks (stopConductor now a) = tasks a
               ∧ inflight (stopConductor now a) = inflight a
               ∧ globalLogs (stopConductor now a)
                 = match socketRef a with
                   | Some _ => appendLog
                       (LogEntry.mk now "Disconnected from Conductor." info)
                       (globalLogs a)
                   | None => globalLogs a
                   end).
  { unfold stopConductor. simpl. destruct (socketRef a) eqn:Hr; simpl; by rewrite ?Hr. }
  destruct Hs as (Hs1 & Hs2 & Hs3 & Hs4 & Hs5 & Hs6).
  assert (Hrun_b : isRunning b = false).
  { rewrite <- Hb. unfold commit. by apply rerender_not_raised. }
  assert (Href : socketRef b = None) by (by rewrite <- Hb, commit_socketRef).
  repeat split.
  - done.
  - by rewrite <- Hb, commit_isRealtime.
  - destruct (interval b) as [c|] eqn:Hc; [|done].
    destruct (Htimer c Hc) as (? & _). congruence.
  - by apply Hidle.
  - done.
  - apply noActiveSocket_count. intros i s Hi.
    destruct (ws_active s) eqn:Hact; [|done].
    specialize (Hsock i s Hi Hact). congruence.
  - by rewrite <- Hb, commit_tasks.
  - by rewrite <- Hb, commit_inflight.
  - rewrite <- Hb, <- Hs6. unfold commit. by apply rerender_stopped_logs.
Qed.

Lemma stop_quiesces_witness :
  ∃ a b, run feedTrace initialApp = Some a
         ∧ step EvStopConductor 300 a = Some b
         ∧ sessionMode a = live
         ∧ isRunning b = false ∧ isRealtime b = false ∧ interval b = None
         ∧ activeSockets (sockets b) = 0%nat
         ∧ tasks b = tasks a.
Proof.
  eexists _, _. split; [vm_compute; reflexivity|].
  split; [vm_compute; reflexivity|].
  split; [reflexivity|].
  match goal with
  | |- isRunning ?b = _ ∧ _ ∧ _ ∧ _ ∧ tasks _ = tasks ?a =>
      destruct (stop_quiesces feedTrace a b 300)
        as (H1 & H2 & H3 & _ & _ & H6 & H7 & _);
        [vm_compute; reflexivity | vm_compute; reflexivity |]
  end.
  split; [exact H1|]. split; [exact H2|]. split; [exact H3|].
  split; [exact H6|]. exact H7.
Defined.

(* ===================================================================== *)
(** * The feed: snapshots, log lines and what a message leaves alone *)
(* ===================================================================== *)

Ltac prune := simpl; try (intros; discriminate).

Ltac destruct_char s :=
  let c := fresh "c" in let r := fresh "r" in
  let b0 := fresh in let b1 := fresh in let b2 := fresh in let b3 := fresh in
  let b4 := fresh in let b5 := fresh in let b6 := fresh in let b7 := fresh in
  destruct s as [|c r]; prune;
  try (destruct c as [b0 b1 b2 b3 b4 b5 b6 b7];
       destruct b0; prune; destruct b1; prune; destruct b2; prune;
       destruct b3; prune; destruct b4; prune; destruct b5; prune;
       destruct b6; prune; destruct b7; prune).

Ltac destruct_literal :=
  repeat match goal with
         | |- context [match ?s with EmptyString => _ | String _ _ => _ end] =>
             is_var s; destruct_char s
         end.

Lemma decodeStatus_Some x st :
  decodeStatus x = Some st → x = Some (JStr (statusName st)).
Proof.
  destruct x as [[| | |s| |]|]; try done. unfold decodeStatus.
  destruct_literal; by intros [= <-].
Qed.

Lemma decodeString_Some x s : decodeString x = Some s → x = Some (JStr s).
Proof. destruct x as [[| | |s'| |]|]; try done. by intros [= ->]. Qed.

Lemma prop_Some k v w : prop k v = Some w → ∃ fs, v = JObj fs.
Proof. destruct v; try done. eauto. Qed.

Lemma decodeTask_Some v t :
  decodeTask v = Some t →
  (∃ fs, v = JObj fs)
  ∧ prop "id" v = Some (JStr (Task.id t))
  ∧ prop "status" v = Some (JStr (statusName (Task.status t))).
Proof.
  unfold decodeTask. intros H.
  destruct (decodeString (prop "id" v)) as [i|] eqn:Hi; simpl in H; [|done].
  destruct (decodeString (prop "title" v)) as [ti|]; simpl in H; [|done].
  destruct (decodeString (prop "description" v)) as [d|]; simpl in H; [|done].
  destruct (decodeStatus (prop "status" v)) as [s|] eqn:Hs; simpl in H; [|done].
  destruct (decodePriority (prop "priority" v)) as [p|]; simpl in H; [|done].
  destruct (decodeArray decodeLogEntry (prop "logs" v)) as [l|]; simpl in H; [|done].
  destruct (decodeInt (prop "progress" v)) as [pr|]; simpl in H; [|done].
  assert (∃ fc, t = Task.mk i ti d s p l pr fc) as [fc ->].
  { destruct (prop "fileChanges" v) as [w|]; simpl in H.
    - match type of H with
      | context [Some <$> ?x] => destruct x as [fc|]; simpl in H; [|done]
      end.
      injection H as <-. eauto.
    - injection H as <-. eauto. }
  simpl.
  apply decodeString_Some in Hi. apply decodeStatus_Some in Hs.
  split; [by eapply prop_Some|]. done.
Qed.

(** On a task list that fits the interface the search of [onMessage] for
    the active task finds the first task in progress. *)
Lemma onTasks_decoded l ts :
  mapM decodeTask l = Some ts →
  onTasks (JArr l)
  = ([FSetTasks (JArr l);
      FSetActiveTaskId (match firstInProgress ts with
                        | Some i => Some (JStr i)
                        | None => Some JNull
                        end)], true).
Proof.
  intros H. apply mapM_Some in H.
  assert (Hf : match findActive l with
               | Some (Some active) => emit (FSetActiveTaskId (prop "id" active))
               | Some None => emit (FSetActiveTaskId (Some JNull))
               | None => throw
               end
               = emit (FSetActiveTaskId (match firstInProgress ts with
                                         | Some i => Some (JStr i)
                                         | None => Some JNull
                                         end))).
  { induction H as [|v t l ts Hv _ IH]; [done|].
    apply decodeTask_Some in Hv as ([fs ->] & Hid & Hst).
    unfold firstInProgress in *. simpl find. unfold is_status at 1.
    simpl findActive. simpl in Hst, Hid. rewrite Hst.
    destruct (Task.status t); simpl; try exact IH.
    by rewrite Hid. }
  unfold onTasks. rewrite Hf. done.
Qed.

Lemma forEachLog_logOrGoal l : forallb logOrGoal (forEachLog l).1 = true.
Proof.
  induction l as [|x l IH]; [done|].
  destruct x; try done; simpl; unfold andThen; simpl; exact IH.
Qed.

(** The setters a message calls: those of the [tasks] block first, then
    only [addLog] and [setGoal]. *)
Lemma onMessage_actions data :
  ∃ rest,
    (onMessage data).1
    = (if truthy (prop "tasks" data)
       then match prop "tasks" data with Some v => (onTasks v).1 | None => [] end
       else []) ++ rest
    ∧ forallb logOrGoal rest = true.
Proof.
  assert (Hrest : ∀ d, ∃ rest,
    (when (truthy (prop "log" d))
        (match prop "log" d with
         | Some l => emit (FAddLog (prop "message" l)
                                   (orElse (prop "type" l) (Some (JStr "info"))))
         | None => done_
         end) >>+
      when (truthy (prop "logs" d) && isArray (prop "logs" d))
        (match prop "logs" d with
         | Some (JArr l) => forEachLog l
         | _ => done_
         end) >>+
      when (truthy (prop "projectGoal" d))
        (match prop "projectGoal" d with
         | Some g => emit (FSetGoal g)
         | None => done_
         end)).1 = rest ∧ forallb logOrGoal rest = true).
  { intros d. eexists. split; [reflexivity|].
    unfold andThen, when.
    destruct (truthy (prop "log" d)), (prop "log" d) as [lg|];
      destruct (truthy (prop "logs" d) && isArray (prop "logs" d));
      destruct (prop "logs" d) as [[| | | |ls|]|];
      destruct (truthy (prop "projectGoal" d)), (prop "projectGoal" d) as [g|];
      simpl; try done;
      try (destruct (forEachLog ls).2; simpl;
           rewrite ?forallb_app, ?forEachLog_logOrGoal; done). }
  destruct data as [| | | | |fs]; try (by exists []).
  destruct (Hrest (JObj fs)) as (rest & Hr & Hok).
  unfold onMessage, andThen at 1. fold andThen. rewrite Hr.
  destruct (prop "tasks" (JObj fs)) as [v|].
  - destruct (truthy (Some v)); simpl when.
    + destruct (onTasks v).2; [by exists rest|].
      exists []. by rewrite app_nil_r.
    + by exists rest.
  - by exists rest.
Qed.

Lemma applyFeedActions_app now xs ys a :
  applyFeedActions now (xs ++ ys) a
  = applyFeedActions now xs a ≫= applyFeedActions now ys.
Proof.
  revert a. induction xs as [|x xs IH]; intros a; simpl; [done|].
  destruct (applyFeedAction now x a) as [a'|]; simpl; [apply IH|done].
Qed.

(** [addLog] and [setGoal] leave the board alone. *)
Lemma applyFeedActions_logOrGoal now xs a b :
  forallb logOrGoal xs = true →
  applyFeedActions now xs a = Some b →
  tasks b = tasks a ∧ activeTaskId b = activeTaskId a
  ∧ tasksRev b = tasksRev a.
Proof.
  revert a. induction xs as [|x xs IH]; intros a Hok; simpl.
  - by intros [= ->].
  - simpl in Hok. apply andb_true_iff in Hok as [Hx Hok].
    destruct (applyFeedAction now x a) as [a'|] eqn:Ha; simpl; [|done].
    intros Hb. destruct (IH a' Hok Hb) as (-> & -> & ->).
    destruct x; try done; simpl in Ha; simplify_option_eq; done.
Qed.

(** What the message handler does with a list of tasks, before the
    effects run. *)
Lemma socketMessage_snapshot i s data l ts now a :
  sockets a !! i = Some s → readyState s = OPEN →
  prop "tasks" data = Some (JArr l) →
  mapM decodeTask l = Some ts →
  (∀ b, socketMessage i (Some data) now a = Some b →
        tasks b = ts ∧ activeTaskId b = firstInProgress ts)
  ∧ (truthy (prop "log" data) = false →
     truthy (prop "logs" data) = false →
     truthy (prop "projectGoal" data) = false →
     socketMessage i (Some data) now a
     = Some (set_activeTaskId (firstInProgress ts) (setTasks ts a))).
Proof.
  intros Hs Hopen Htasks Hts.
  unfold socketMessage. rewrite Hs, Hopen. unfold ws_onmessage.
  pose proof (onTasks_decoded l ts Hts) as Hon.
  assert (Hhead : ∀ rest,
    applyFeedActions now ((onTasks (JArr l)).1 ++ rest) a
    = applyFeedActions now rest
        (set_activeTaskId (firstInProgress ts) (setTasks ts a))).
  { intros rest. rewrite Hon. simpl. rewrite Hts. simpl.
    destruct (firstInProgress ts); done. }
  split.
  - intros b. destruct (onMessage_actions data) as (rest & -> & Hok).
    rewrite Htasks. simpl truthy. cbv iota. rewrite Hhead. intros Hb.
    by destruct (applyFeedActions_logOrGoal _ _ _ _ Hok Hb) as (-> & -> & _).
  - intros H1 H2 H3. destruct (prop_Some _ _ _ Htasks) as [fs ->].
    unfold onMessage. rewrite H1, H2, H3, Htasks. simpl truthy.
    simpl when. unfold andThen at 1. rewrite Hon. simpl.
    rewrite Hts. simpl. destruct (firstInProgress ts); done.
Qed.

(** In a live session without a timer the effect has nothing to do. *)
Lemma simulationEffect_live now a :
  isRunning a = true → isRealtime a = true → interval a = None →
  simulationEffect now a = a.
Proof.
  destruct a. simpl. intros -> -> ->. reflexivity.
Qed.

Lemma commit_live now prev next :
  isRunning next = true → isRealtime next = true → interval next = None →
  commit now prev next = next.
Proof.
  intros Hr Hl Hi. rewrite commit_unfold.
  destruct (depsChanged prev next); [|done].
  rewrite simulationEffect_live by done. cbn [rerender].
  by rewrite depsChanged_same_fields.
Qed.

Lemma simulationEffect_live_running now a :
  isRealtime a = true → isRunning (simulationEffect now a) = isRunning a.
Proof.
  intros Hl. unfold simulationEffect. simpl. rewrite Hl, andb_false_r.
  destruct (isRunning a) eqn:Hr; simpl; [done|].
  destruct (activeTaskId a) as [x|]; [destruct (truthy_string x)|]; done.
Qed.

Lemma rerender_live_running fuel now prev next :
  isRealtime next = true →
  isRunning (rerender fuel now prev next) = isRunning next.
Proof.
  revert prev next. induction fuel as [|n IH]; intros prev next Hl; simpl;
    [done|].
  destruct (depsChanged prev next); [|done].
  rewrite IH by by rewrite simulationEffect_isRealtime.
  by apply simulationEffect_live_running.
Qed.

Lemma simulationEffect_isProcessing now a :
  isProcessing (simulationEffect now a) = isProcessing a.
Proof. effect_cases. Qed.

Lemma simulationEffect_connectionUrl now a :
  connectionUrl (simulationEffect now a) = connectionUrl a.
Proof. effect_cases. Qed.

(** X5. In a live session a message whose [tasks] is a list of tasks
    replaces the board by that list and selects the first task in
    progress, or none; an empty list clears the board. The session stays
    live and without a timer, and with no other recognized key in the
    message nothing else changes. All this holds of the state after the
    effects have run. *)
Theorem snapshot_replaces_board
    (evs : list (Event * Z)) i s data l ts now (a : App) :
  run evs initialApp = Some a →
  isRunning a = true → isRealtime a = true →
  sockets a !! i = Some s → readyState s = OPEN →
  prop "tasks" data = Some (JArr l) →
  mapM decodeTask l = Some ts →
  (∀ b, step (EvSocketMessage i (Some data)) now a = Some b →
        tasks b = ts ∧ activeTaskId b = firstInProgress ts
        ∧ isRunning b = true ∧ isRealtime b = true ∧ interval b = None)
  ∧ (truthy (prop "log" data) = false →
     truthy (prop "logs" data) = false →
     truthy (prop "projectGoal" data) = false →
     step (EvSocketMessage i (Some data)) now a
     = Some (set_activeTaskId (firstInProgress ts) (setTasks ts a))).
Proof.
  intros Hrun Hr Hl Hs Hopen Htasks Hts.
  assert (Hi : interval a = None).
  { assert (Ht : timerFresh a)
      by (eapply run_timerFresh; [exact Hrun|by intros x]).
    destruct (interval a) as [c|] eqn:Hc; [|done].
    destruct (Ht c Hc) as (_ & Hl' & _). congruence. }
  destruct (socketMessage_snapshot i s data l ts now a Hs Hopen Htasks Hts)
    as [H1 H2].
  assert (Hp : ∀ a', socketMessage i (Some data) now a = Some a' →
                     isRunning a' = true ∧ isRealtime a' = true
                     ∧ interval a' = None).
  { intros a' Ha'. split; [|split].
    - rewrite <- Hr.
      by apply (socketMessage_preserves isRunning now) with i (Some data).
    - rewrite <- Hl.
      by apply (socketMessage_preserves isRealtime now) with i (Some data).
    - rewrite <- Hi.
      by apply (socketMessage_preserves interval now) with i (Some data). }
  assert (Hc : ∀ a', socketMessage i (Some data) now a = Some a' →
                     commit now a a' = a').
  { intros a' Ha'. destruct (Hp a' Ha') as (? & ? & ?). by apply commit_live. }
  split.
  - intros b. unfold step. simpl.
    destruct (socketMessage i (Some data) now a) as [a'|] eqn:Ha'; simpl;
      [|done].
    intros [= <-]. rewrite (Hc a' eq_refl).
    destruct (H1 a' eq_refl) as [-> ->].
    destruct (Hp a' eq_refl) as (? & ? & ?). done.
  - intros K1 K2 K3. unfold step. simpl.
    rewrite (H2 K1 K2 K3). simpl. f_equal.
    apply Hc. by apply H2.
Qed.

Lemma snapshot_replaces_board_witness :
  ∃ b, step (EvSocketMessage 0 (Some feedSnapshot)) 100 connectedApp = Some b
       ∧ Task.id <$> tasks b = ["a"; "b"]
       ∧ activeTaskId b = Some "a"
       ∧ isRealtime b = true.
Proof.
  assert (Hrun : run [(EvHandleConnect false, 0); (EvSocketOpen 0, 50)]
                   initialApp = Some connectedApp)
    by (vm_compute; reflexivity).
  set (s := mkSocket "ws://localhost:8080" OPEN false).
  assert (Hs : sockets connectedApp !! 0%nat = Some s)
    by (vm_compute; reflexivity).
  assert (Hts : mapM decodeTask [feedTask "a" "IN_PROGRESS" 30;
                                 feedTask "b" "PENDING" 0]
                = Some (default [] (mapM decodeTask
                          [feedTask "a" "IN_PROGRESS" 30;
                           feedTask "b" "PENDING" 0])))
    by (vm_compute; reflexivity).
  destruct (snapshot_replaces_board _ 0 s feedSnapshot _ _ 100 connectedApp
              Hrun eq_refl eq_refl Hs eq_refl eq_refl Hts) as [H1 H2].
  eexists. split; [exact (H2 eq_refl eq_refl eq_refl)|].
  destruct (H1 _ (H2 eq_refl eq_refl eq_refl)) as (Ht & Ha & _ & Hl & _).
  split; [by rewrite Ht|]. split; [by rewrite Ha|exact Hl].
Defined.

(** X6. Through a message of the feed and the effects that follow it, the
    live flag, the busy flag, the sockets, the socket reference, the
    connection address and the bookkeeping of the tick never change. The
    running flag is never raised, and in a live session it stays as it is.
    A message without a [tasks] value leaves the board, the active task,
    the running flag and the timer as they are, and a message that is not
    JSON leaves the whole state as it is. *)
Theorem feed_message_frame i parsed now a b :
  step (EvSocketMessage i parsed) now a = Some b →
  (isRealtime b = isRealtime a
   ∧ isProcessing b = isProcessing a ∧ sockets b = sockets a
   ∧ socketRef b = socketRef a ∧ connectionUrl b = connectionUrl a
   ∧ processingRef b = processingRef a ∧ inflight b = inflight a)
  ∧ (isRunning a = false → isRunning b = false)
  ∧ (isRealtime a = true → isRunning b = isRunning a)
  ∧ (match parsed with
     | Some data => truthy (prop "tasks" data) = false
     | None => True
     end → tasks b = tasks a ∧ activeTaskId b = activeTaskId a
           ∧ isRunning b = isRunning a ∧ interval b = interval a)
  ∧ (parsed = None → b = a).
Proof.
  unfold step. simpl.
  destruct (socketMessage i parsed now a) as [a'|] eqn:Hm; simpl; [|done].
  intros [= <-].
  assert (Hp : ∀ {B} (f : App → B),
             (∀ v x, f (setTasks v x) = f x) →
             (∀ v x, f (set_activeTaskId v x) = f x) →
             (∀ m ty x, f (addLog m ty now x) = f x) →
             (∀ v x, f (set_goal v x) = f x) → f a' = f a).
  { intros B f F1 F2 F3 F4.
    by apply (socketMessage_preserves f now F1 F2 F3 F4 i parsed). }
  split; [|split; [|split; [|split]]].
  - split; [rewrite commit_isRealtime; by apply Hp|].
    split; [unfold commit;
            rewrite (rerender_preserves isProcessing simulationEffect_isProcessing);
            by apply Hp|].
    split; [rewrite commit_sockets; by apply Hp|].
    split; [rewrite commit_socketRef; by apply Hp|].
    split; [unfold commit;
            rewrite (rerender_preserves connectionUrl
                       simulationEffect_connectionUrl);
            by apply Hp|].
    split; [rewrite commit_processingRef; by apply Hp|].
    rewrite commit_inflight. by apply Hp.
  - intros Hr. unfold commit. apply rerender_not_raised.
    rewrite <- Hr. by apply Hp.
  - intros Hl. unfold commit. rewrite rerender_live_running.
    + by apply Hp.
    + rewrite <- Hl. by apply Hp.
  - intros Hno.
    assert (Hsame : tasks a' = tasks a ∧ activeTaskId a' = activeTaskId a
                    ∧ tasksRev a' = tasksRev a).
    { revert Hm. unfold socketMessage.
      destruct (sockets a !! i) as [s|]; [|by intros [= ->]].
      destruct (readyState s); try (by intros [= ->]).
      destruct parsed as [data|]; [|by intros [= ->]].
      unfold ws_onmessage.
      destruct (onMessage_actions data) as (rest & -> & Hok). rewrite Hno.
      by apply applyFeedActions_logOrGoal. }
    destruct Hsame as (Ht & Ha & Hv).
    assert (Hc : commit now a a' = a').
    { rewrite commit_unfold, depsChanged_same_fields; try done;
        symmetry; by apply Hp. }
    rewrite Hc. split; [done|]. split; [done|].
    split; by apply Hp.
  - intros ->. revert Hm. unfold socketMessage.
    destruct (sockets a !! i) as [s|].
    + destruct (readyState s); intros [= <-]; apply commit_same.
    + intros [= <-]. apply commit_same.
Qed.

Lemma feed_message_frame_witness :
  ∃ b, step (EvSocketMessage 0 (Some feedLogs)) 100 connectedApp = Some b
       ∧ isRunning b = true ∧ isRealtime b = true
       ∧ tasks b = [] ∧ activeTaskId b = None.
Proof.
  set (b := default initialApp
              (step (EvSocketMessage 0 (Some feedLogs)) 100 connectedApp)).
  assert (Hb : step (EvSocketMessage 0 (Some feedLogs)) 100 connectedApp
               = Some b) by (vm_compute; reflexivity).
  destruct (feed_message_frame 0 (Some feedLogs) 100 connectedApp b Hb)
    as ((Hl & _) & _ & Hr & Ht & _).
  exists b. split; [exact Hb|].
  split; [by rewrite (Hr eq_refl)|]. split; [by rewrite Hl|].
  destruct (Ht eq_refl) as (H1 & H2 & _).
  split; [by rewrite H1|by rewrite H2].
Defined.

Lemma feedLine_not_null x e : feedLine x = Some e → x ≠ JNull.
Proof. by intros H ->. Qed.

Lemma forEachLog_lines l es :
  Forall2 (λ x e, feedLine x = Some e) l es →
  forEachLog l
  = (map (λ x, FAddLog (prop "message" x) (prop "type" x)) l, true).
Proof.
  induction 1 as [|x e l es Hx _ IH]; [done|].
  apply feedLine_not_null in Hx.
  destruct x; try done; simpl; rewrite IH; done.
Qed.

(** A [null] element ends the loop with an exception. *)
Lemma forEachLog_null l es l2 :
  Forall2 (λ x e, feedLine x = Some e) l es →
  forEachLog (l ++ JNull :: l2)
  = (map (λ x, FAddLog (prop "message" x) (prop "type" x)) l, false).
Proof.
  induction 1 as [|x e l es Hx _ IH]; [done|].
  apply feedLine_not_null in Hx.
  destruct x; try done; simpl; rewrite IH; done.
Qed.

Lemma applyFeedAction_line now x e a :
  feedLine x = Some e →
  applyFeedAction now (FAddLog (prop "message" x) (prop "type" x)) a
  = Some (addLog e.1 e.2 now a).
Proof.
  unfold feedLine, applyFeedAction. intros H.
  destruct (decodeString (prop "message" x)) as [m|]; [|done].
  change (Some m ≫= ?f) with (f m) in H |- *. cbv beta in H |- *.
  destruct (prop "type" x) as [w|]; cbv beta iota in H |- *.
  - destruct (decodeLogType (Some w)) as [ty|]; [|done].
    by injection H as <-.
  - by injection H as <-.
Qed.

Lemma applyFeedActions_lines now l es :
  Forall2 (λ x e, feedLine x = Some e) l es →
  ∀ a, applyFeedActions now
         (map (λ x, FAddLog (prop "message" x) (prop "type" x)) l) a
       = Some (addLogs es now a).
Proof.
  induction 1 as [|x e l es Hx _ IH]; intros a; [done|].
  rewrite map_cons. unfold applyFeedActions; fold applyFeedActions.
  rewrite (applyFeedAction_line _ _ _ _ Hx). apply IH.
Qed.

(** X7. A message with a [logs] array of well-formed lines adds them to
    the global log in the order of the array, a line without a type as
    [info], and then sets the project goal the message carries. *)
Theorem feed_log_batch_in_order i s data l es g now a :
  sockets a !! i = Some s → readyState s = OPEN →
  truthy (prop "tasks" data) = false →
  truthy (prop "log" data) = false →
  prop "logs" data = Some (JArr l) →
  mapM feedLine l = Some es →
  prop "projectGoal" data = Some (JStr g) → truthy_string g = true →
  socketMessage i (Some data) now a = Some (set_goal g (addLogs es now a)).
Proof.
  intros Hs Hopen Ht Hl Hlogs Hes Hg Hgt. apply mapM_Some in Hes.
  unfold socketMessage. rewrite Hs, Hopen. unfold ws_onmessage.
  destruct (prop_Some _ _ _ Hlogs) as [fs ->].
  unfold onMessage. rewrite Ht, Hl, Hlogs, Hg. simpl truthy. rewrite Hgt.
  simpl when. rewrite (forEachLog_lines _ _ Hes).
  unfold andThen, done_, emit. simpl.
  rewrite applyFeedActions_app, (applyFeedActions_lines _ _ _ Hes). done.
Qed.

Lemma feed_log_batch_in_order_witness :
  ∃ b, socketMessage 0 (Some feedBatch) 100 connectedApp = Some b
       ∧ goal b = "Ship the release"
       ∧ drop 2 (globalLogs b)
         = [LogEntry.mk 100 "compiling" success; LogEntry.mk 100 "linking" info].
Proof.
  destruct (sockets connectedApp !! 0%nat) as [s|] eqn:Hs;
    [|by vm_compute in Hs].
  assert (Hopen : readyState s = OPEN)
    by (vm_compute in Hs; by injection Hs as <-).
  eexists. split.
  - exact (feed_log_batch_in_order 0 s feedBatch _
             [("compiling", success); ("linking", info)] _ 100 connectedApp
             Hs Hopen eq_refl eq_refl eq_refl eq_refl eq_refl eq_refl).
  - split; [done|]. vm_compute. reflexivity.
Defined.

(** X8. A [null] element in the [logs] array ends the handling of the
    message: the lines before it are in the global log, the lines after it
    are not, and the project goal of the message is not set. *)
Theorem feed_log_batch_null_element i s data l es l2 now a :
  sockets a !! i = Some s → readyState s = OPEN →
  truthy (prop "tasks" data) = false →
  truthy (prop "log" data) = false →
  prop "logs" data = Some (JArr (l ++ JNull :: l2)) →
  mapM feedLine l = Some es →
  socketMessage i (Some data) now a = Some (addLogs es now a).
Proof.
  intros Hs Hopen Ht Hl Hlogs Hes. apply mapM_Some in Hes.
  unfold socketMessage. rewrite Hs, Hopen. unfold ws_onmessage.
  destruct (prop_Some _ _ _ Hlogs) as [fs ->].
  unfold onMessage. rewrite Ht, Hl, Hlogs. simpl truthy.
  simpl when. rewrite (forEachLog_null _ _ _ Hes).
  unfold andThen, done_. simpl.
  apply applyFeedActions_lines, Hes.
Qed.

Lemma feed_log_batch_null_element_witness :
  ∃ b, socketMessage 0 (Some feedLogs) 100 connectedApp = Some b
       ∧ goal b = goal connectedApp
       ∧ drop 2 (globalLogs b)
         = [LogEntry.mk 100 "compiling" success; LogEntry.mk 100 "linking" info].
Proof.
  destruct (sockets connectedApp !! 0%nat) as [s|] eqn:Hs;
    [|by vm_compute in Hs].
  assert (Hopen : readyState s = OPEN)
    by (vm_compute in Hs; by injection Hs as <-).
  eexists. split.
  - exact (feed_log_batch_null_element 0 s feedLogs
             [JObj [("message", JStr "compiling"); ("type", JStr "success")];
              JObj [("message", JStr "linking")]]
             [("compiling", success); ("linking", info)]
             [JObj [("message", JStr "never shown")]] 100 connectedApp
             Hs Hopen eq_refl eq_refl eq_refl eq_refl).
  - split; [done|]. vm_compute. reflexivity.
Defined.

(* ===================================================================== *)
(** * Sockets: created by Connect only, and never reopened *)
(* ===================================================================== *)

Lemma socketLater_refl s : socketLater s s.
Proof. by repeat split. Qed.

Lemma socketLater_close s : socketLater s (ws_close s).
Proof. unfold socketLater, ws_close. destruct (readyState s) eqn:H; simpl; rewrite ?H; repeat split; simpl; lia. Qed.

Lemma socketsLater_refl l : socketsLater l l.
Proof. intros i s H. exists s. split; [done|apply socketLater_refl]. Qed.

Lemma socketsLater_trans l1 l2 l3 :
  socketsLater l1 l2 → socketsLater l2 l3 → socketsLater l1 l3.
Proof.
  intros H1 H2 i s Hs. destruct (H1 i s Hs) as (s2 & Hs2 & (Hu & Hc & Hr)).
  destruct (H2 i s2 Hs2) as (s3 & Hs3 & (Hu' & Hc' & Hr')).
  exists s3. split; [done|]. repeat split; [congruence|congruence|lia].
Qed.

Lemma socketsLater_alter_close l i : socketsLater l (alter ws_close i l).
Proof.
  intros j s Hs. destruct (decide (i = j)) as [->|Hne].
  - exists (ws_close s). rewrite list_lookup_alter, decide_True, Hs by done.
    split; [done|].
    apply socketLater_close.
  - exists s. rewrite list_lookup_alter_ne by done. split; [done|].
    apply socketLater_refl.
Qed.

Lemma socketsLater_insert l i s r :
  l !! i = Some s → (rsRank (readyState s) ≤ rsRank r)%nat →
  socketsLater l (<[i := ws_set_readyState r s]> l).
Proof.
  intros Hi Hr j s' Hs. destruct (decide (i = j)) as [->|Hne].
  - exists (ws_set_readyState r s). rewrite list_lookup_insert_eq
      by (by eapply lookup_lt_Some).
    split; [done|]. rewrite Hi in Hs. injection Hs as <-. by repeat split.
  - exists s'. rewrite list_lookup_insert_ne by done. split; [done|].
    apply socketLater_refl.
Qed.

Lemma socketsLater_app l l' : socketsLater l (l ++ l').
Proof.
  intros i s Hs. exists s. split; [|apply socketLater_refl].
  by apply lookup_app_l_Some.
Qed.

Lemma handle_sockets e now a a' :
  handle e now a = Some a' →
  socketsLater (sockets a) (sockets a')
  ∧ (length (sockets a) ≤ length (sockets a')
     ≤ length (sockets a) + (if isConnectClick e then 1 else 0))%nat.
Proof.
  assert (Hsame : ∀ b : App, sockets b = sockets a →
            socketsLater (sockets a) (sockets b)
            ∧ (length (sockets a) ≤ length (sockets b)
               ≤ length (sockets a) + 0)%nat).
  { intros b ->. split; [apply socketsLater_refl|lia]. }
  destruct e as [s|s| |r|ct|i|i|i code|i parsed| |uuid| |e]; simpl;
    try (intros [= <-]).
  - by apply Hsame.
  - by apply Hsame.
  - apply Hsame. unfold_handlers. split_cases.
  - apply Hsame. unfold_handlers. split_cases.
  - unfold handleConnect.
    destruct (negb _); [split; [apply socketsLater_refl|lia]|].
    unfold closeExisting, connectToSocket. simpl.
    destruct (socketRef a) as [i|]; destruct ct; simpl;
      rewrite ?length_app, ?length_alter; simpl;
      (split; [|lia]);
      eauto using socketsLater_trans, socketsLater_alter_close,
        socketsLater_app, socketsLater_refl.
  - unfold socketOpen. destruct (sockets a !! i) as [s|] eqn:Hs;
      [|split; [apply socketsLater_refl|lia]].
    destruct (readyState s) eqn:Hr;
      try (split; [apply socketsLater_refl|lia]).
    simpl. rewrite length_insert. split; [|lia].
    apply socketsLater_insert; [done|]. rewrite Hr. simpl. lia.
  - apply Hsame. unfold_handlers. split_cases.
  - unfold socketClose. destruct (sockets a !! i) as [s|] eqn:Hs;
      [|split; [apply socketsLater_refl|lia]].
    assert (Hins : socketsLater (sockets a)
                     (<[i := ws_set_readyState CLOSED s]> (sockets a))).
    { apply socketsLater_insert; [done|]. destruct (readyState s); simpl; lia. }
    destruct (readyState s) eqn:Hr;
      try (split; [apply socketsLater_refl|lia]);
      unfold onClose; destruct (cap_isRealtime s); simpl;
      rewrite length_insert; (split; [done|lia]).
  - intros Hm. apply Hsame.
    by apply (socketMessage_preserves sockets now) in Hm.
  - apply Hsame. unfold_handlers. split_cases.
  - apply Hsame. unfold_handlers. split_cases.
  - unfold stopConductor. simpl.
    destruct (socketRef a) as [i|]; simpl; rewrite ?length_alter;
      (split; [|lia]);
      eauto using socketsLater_alter_close, socketsLater_refl.
  - apply Hsame. destruct e as [increment|o|]; simpl.
    + apply (tick_preserves sockets); done.
    + unfold logResolved. by destruct (inflight a).
    + unfold timeoutFired. by destruct (stopTimeouts a).
Qed.

(** X9. Sockets are created by Connect clicks only, at most one per click:
    nothing reconnects by itself. A socket that exists stays in the list
    with its address and its captured flag, and its ready state only moves
    forward: a closed socket is never reopened. *)
Theorem sockets_only_by_connect evs a b :
  run evs a = Some b →
  socketsLater (sockets a) (sockets b)
  ∧ (length (sockets a) ≤ length (sockets b)
     ≤ length (sockets a) + connectClicks evs)%nat.
Proof.
  revert a. induction evs as [|[e now] evs IH]; intros a; simpl.
  - intros [= ->]. split; [apply socketsLater_refl|].
    unfold connectClicks. simpl. lia.
  - unfold step. destruct (handle e now a) as [a'|] eqn:He; simpl; [|done].
    intros Hr. destruct (IH _ Hr) as [H1 H2].
    rewrite commit_sockets in H1, H2.
    destruct (handle_sockets _ _ _ _ He) as [H3 H4].
    split; [by eapply socketsLater_trans|].
    unfold connectClicks in *. simpl. destruct (isConnectClick e); simpl; lia.
Qed.

Lemma sockets_only_by_connect_witness :
  ∃ b, run closedTrace initialApp = Some b
       ∧ (length (sockets b) ≤ 2)%nat
       ∧ ∃ s', sockets b !! 1%nat = Some s'
               ∧ (rsRank CONNECTING ≤ rsRank (readyState s'))%nat.
Proof.
  eexists. split; [vm_compute; reflexivity|].
  match goal with
  | |- (length (sockets ?b) ≤ _)%nat ∧ _ =>
      assert (Hb : run closedTrace initialApp = Some b)
        by (vm_compute; reflexivity);
      pose proof (sockets_only_by_connect closedTrace initialApp b Hb)
        as [_ H2];
      assert (Ha : ∃ a, run reconnectTrace initialApp = Some a
                        ∧ run [(EvSocketOpen 1, 150);
                               (EvSocketClose 1 1006, 200);
                               (EvSocketOpen 1, 250)] a = Some b
                        ∧ sockets a !! 1%nat
                          = Some (mkSocket "ws://localhost:8080" CONNECTING true))
        by (eexists; split; [vm_compute; reflexivity|];
            split; vm_compute; reflexivity)
  end.
  split; [exact (proj2 H2)|].
  destruct Ha as (a & _ & Hr & Hs).
  destruct (proj1 (sockets_only_by_connect _ _ _ Hr) _ _ Hs)
    as (s' & Hs' & _ & _ & Hrank).
  exists s'. split; [exact Hs'|exact Hrank].
Defined.

(* ===================================================================== *)
(** * The engine and the life of a task *)
(* ===================================================================== *)

Lemma taskLater_refl t : taskLater t t.
Proof. unfold taskLater. repeat split; try done. destruct (Task.status t); auto. Qed.

Lemma taskLater_trans t1 t2 t3 :
  taskLater t1 t2 → taskLater t2 t3 → taskLater t1 t3.
Proof.
  unfold taskLater.
  intros (H1 & H2 & H3 & H4 & H5 & H6 & H7) (K1 & K2 & K3 & K4 & K5 & K6 & K7).
  repeat split; try congruence; [by etrans|].
  destruct (Task.status t1), (Task.status t2); intuition congruence.
Qed.

Lemma taskLater_tick increment t :
  is_status IN_PROGRESS t = true ∨ is_status PENDING t = true →
  taskLater t (tickTask increment t).
Proof.
  unfold taskLater, tickTask, is_status.
  destruct t as [i ti d st p l pr fc]; simpl.
  destruct st; simpl; intros [?|?]; try done;
    try destruct (100 <=? _); simpl; repeat split; auto.
Qed.

Lemma taskLater_log aid entry t :
  taskLater t (if String.eqb (Task.id t) aid
               then Task.with_logs (Task.logs t ++ [entry]) t else t).
Proof.
  destruct (String.eqb _ _); [|apply taskLater_refl].
  unfold taskLater. destruct t as [i ti d st p l pr fc]; simpl.
  repeat split; try done; [by apply prefix_app_r|by destruct st; auto].
Qed.

Lemma tasksLater_refl ts : Forall2 taskLater ts ts.
Proof. apply Forall_Forall2_diag, Forall_forall. intros. apply taskLater_refl. Qed.

Lemma tasksLater_trans ts1 ts2 ts3 :
  Forall2 taskLater ts1 ts2 → Forall2 taskLater ts2 ts3 →
  Forall2 taskLater ts1 ts3.
Proof.
  intros H. revert ts3. induction H as [|t1 t2 l1 l2 Ht _ IH]; intros ts3 H3.
  - by inversion H3.
  - inversion H3; subst. constructor; [by eapply taskLater_trans|by apply IH].
Qed.

Lemma tasksLater_alter f i ts :
  (∀ t, ts !! i = Some t → taskLater t (f t)) →
  Forall2 taskLater ts (alter f i ts).
Proof.
  revert i. induction ts as [|t ts IH]; intros [|i] H;
    try (by constructor).
  - constructor; [by apply H|apply tasksLater_refl].
  - constructor; [apply taskLater_refl|]. apply IH. intros t' Ht'. by apply H.
Qed.

Lemma tickUpdater_later r increment ts :
  Forall2 taskLater ts (tickUpdater r increment ts).1.
Proof.
  rewrite tickUpdater_tasks.
  destruct (selectedIndex ts) as [i|] eqn:Hsel; [|apply tasksLater_refl].
  apply selectedIndex_Some in Hsel as (t & Ht & Hcase).
  apply tasksLater_alter. intros t' Ht'. rewrite Ht in Ht'.
  injection Ht' as <-. apply taskLater_tick. tauto.
Qed.

Lemma appendTaskLog_later aid entry ts :
  Forall2 taskLater ts (appendTaskLog aid entry ts).
Proof.
  unfold appendTaskLog. apply Forall2_fmap_r, Forall_Forall2_diag, Forall_forall.
  intros t _. apply taskLater_log.
Qed.

Lemma runEngine_later evs a :
  Forall2 taskLater (tasks a) (tasks (runEngine evs a)).
Proof.
  revert a. induction evs as [|[e now] evs IH]; intros a; simpl.
  - apply tasksLater_refl.
  - eapply tasksLater_trans; [|apply IH].
    apply (engineStep_tasks_ind (Forall2 taskLater (tasks a))).
    + apply tasksLater_refl.
    + intros r increment ts _ H. eapply tasksLater_trans; [exact H|].
      apply tickUpdater_later.
    + intros aid entry ts H. eapply tasksLater_trans; [exact H|].
      apply appendTaskLog_later.
Qed.

(** X10. However the engine runs, the board keeps its tasks in their order,
    each with its id, title, description, priority and file changes; a task
    log only grows at its end; a status only moves forward (a pending task
    never enters review, a task in progress stays so or completes), and a
    task in review or completed keeps its status and its progress. *)
Theorem engine_task_lifecycle evs a :
  Forall2 taskLater (tasks a) (tasks (runEngine evs a)).
Proof. apply runEngine_later. Qed.

(* ===================================================================== *)
(** * The board and the header *)
(* ===================================================================== *)

Lemma cards_tasks (f : Task.t → bool) l : (map (λ t, (t, f t)) l).*1 = l.
Proof. induction l as [|t l IH]; [done|]. rewrite map_cons, fmap_cons. by f_equal. Qed.

Lemma status_partition ts :
  List.filter (λ t, status_eqb (Task.status t) PENDING) ts
  ++ List.filter (λ t, status_eqb (Task.status t) IN_PROGRESS) ts
  ++ List.filter (λ t, status_eqb (Task.status t) REVIEW) ts
  ++ List.filter (λ t, status_eqb (Task.status t) COMPLETED) ts
  ≡ₚ ts.
Proof.
  induction ts as [|t ts IH]; [done|].
  simpl. destruct (Task.status t); simpl;
    rewrite <- ?Permutation_middle; by constructor.
Qed.

(** X11. The board shows every task on exactly one card: the cards of the
    four columns together are the tasks, each in the column of its status,
    within a column in the order of the task list, and a card is marked
    active exactly when its task has the active id. *)
Theorem board_shows_each_task_once ts aid :
  boardTasks ts aid ≡ₚ ts
  ∧ (col_id <$> (ConductorBoard ts aid).*1
     = [PENDING; IN_PROGRESS; REVIEW; COMPLETED])
  ∧ ∀ col cards, (col, cards) ∈ ConductorBoard ts aid →
      cards.*1 = List.filter (λ t, status_eqb (Task.status t) (col_id col)) ts
      ∧ ∀ t flag, (t, flag) ∈ cards →
          Task.status t = col_id col
          ∧ (flag = true ↔ aid = Some (Task.id t)).
Proof.
  split; [|split; [done|]].
  - change (boardTasks ts aid) with
      ((map (λ t, (t, isActiveCard aid t))
            (List.filter (λ t, status_eqb (Task.status t) PENDING) ts)).*1
       ++ (map (λ t, (t, isActiveCard aid t))
               (List.filter (λ t, status_eqb (Task.status t) IN_PROGRESS) ts)).*1
       ++ (map (λ t, (t, isActiveCard aid t))
               (List.filter (λ t, status_eqb (Task.status t) REVIEW) ts)).*1
       ++ (map (λ t, (t, isActiveCard aid t))
               (List.filter (λ t, status_eqb (Task.status t) COMPLETED) ts)).*1
       ++ []).
    rewrite !(cards_tasks (isActiveCard aid)), app_nil_r.
    apply status_partition.
  - intros col cards Hin. unfold ConductorBoard in Hin.
    apply (list_elem_of_fmap_1 (B := Column * list (Task.t * bool)))
      in Hin as (c & [= -> ->] & _).
    split; [apply cards_tasks|].
    intros t flag Ht.
    apply (list_elem_of_fmap_1 (B := Task.t * bool))
      in Ht as (t' & [= -> ->] & Ht').
    unfold colTasks in Ht'. apply list_elem_of_In, filter_In in Ht' as [_ Hs].
    split.
    + destruct (Task.status t'), (col_id c); done.
    + unfold isActiveCard, option_string_eqb. destruct aid as [x|]; [|done].
      rewrite String.eqb_eq. split; [by intros ->|by intros [= ->]].
Qed.

(** X12. The three counters of the header add up to the number of tasks
    that are not in review: tasks in review are on the board but in no
    counter. *)
Theorem header_leaves_out_review ts :
  let '(pending, active, done) := headerStats ts in
  (pending + active + done + countStatus REVIEW ts = length ts)%nat.
Proof.
  unfold headerStats, countStatus, is_status.
  pose proof (Permutation_length (status_partition ts)) as H.
  rewrite !length_app in H. lia.
Qed.

(* ===================================================================== *)
(** * The demo *)
(* ===================================================================== *)

Lemma tasksLater_ids ts ts' :
  Forall2 taskLater ts ts' → Task.id <$> ts' = Task.id <$> ts.
Proof.
  induction 1 as [|t t' ts ts' (Hid & _) _ IH]; [done|].
  rewrite !fmap_cons. by f_equal.
Qed.

Lemma runEngine_idleClear evs a : idleClear a → idleClear (runEngine evs a).
Proof.
  revert a. induction evs as [|[e now] evs IH]; intros a H; simpl; [done|].
  apply IH. by apply (step_idleClear (EvEngine e) now a).
Qed.

Lemma demoLoaded_run uuid n1 n2 :
  run [(EvLoadDemoMode, n1); (EvDemoResolved uuid, n2)] initialApp
  = Some (demoLoaded uuid n1 n2).
Proof.
  unfold demoLoaded.
  cbn [run step handle fmap option_fmap option_map mbind option_bind].
  reflexivity.
Qed.

Lemma demoLoaded_effect uuid n1 n2 :
  demoLoaded uuid n1 n2
  = simulationEffect n2 (demoResolved uuid n2 (loadDemoMode n1 initialApp)).
Proof.
  unfold demoLoaded.
  assert (H1 : commit n1 initialApp (loadDemoMode n1 initialApp)
               = loadDemoMode n1 initialApp) by reflexivity.
  rewrite H1. set (n := demoResolved uuid n2 (loadDemoMode n1 initialApp)).
  rewrite commit_unfold.
  assert (Hd : depsChanged (loadDemoMode n1 initialApp) n = true) by reflexivity.
  rewrite Hd. cbn [rerender].
  by rewrite simulationEffect_still_running.
Qed.

Lemma demoLoaded_fields uuid n1 n2 :
  tasks (demoLoaded uuid n1 n2) = (getDemoState uuid n2).1
  ∧ goal (demoLoaded uuid n1 n2) = "DEMO: Refactor Legacy API (Simulation)"
  ∧ activeTaskId (demoLoaded uuid n1 n2) = Some (uuid 2%nat)
  ∧ isRunning (demoLoaded uuid n1 n2) = true
  ∧ isRealtime (demoLoaded uuid n1 n2) = false
  ∧ isProcessing (demoLoaded uuid n1 n2) = false
  ∧ processingRef (demoLoaded uuid n1 n2) = false
  ∧ inflight (demoLoaded uuid n1 n2) = None
  ∧ is_Some (interval (demoLoaded uuid n1 n2))
  ∧ globalLogs (demoLoaded uuid n1 n2)
    = [LogEntry.mk n1 "Loading Demo Simulation..." info;
       LogEntry.mk n2 "Demo loaded. This is a simulation, not real data."
         warning;
       LogEntry.mk n2 "Conductor simulation engine started." success].
Proof.
  rewrite demoLoaded_effect.
  repeat (split; [lazy -[Z.sub]; reflexivity|]).
  split; [|lazy -[Z.sub]; reflexivity].
  lazy -[Z.sub]. by eexists.
Qed.

Lemma demoTasks_facts uuid now :
  Forall drivable (getDemoState uuid now).1
  ∧ every (is_status COMPLETED) (getDemoState uuid now).1 = false
  ∧ totalTicksLeft (getDemoState uuid now).1 = 52%nat
  ∧ length (getDemoState uuid now).1 = 5%nat
  ∧ Task.id <$> (getDemoState uuid now).1 = uuid <$> [0; 1; 2; 3; 4]%nat.
Proof.
  split; [|repeat split; lazy -[Z.sub]; reflexivity].
  unfold getDemoState, fst.
  repeat (apply Forall_cons; split; [unfold drivable; cbn; try done; lia|]).
  apply Forall_nil_2.
Qed.

Lemma demoLoaded_betweenCycles uuid n1 n2 :
  betweenCycles (demoLoaded uuid n1 n2) ∧ engineQuiet (demoLoaded uuid n1 n2).
Proof.
  destruct (demoLoaded_fields uuid n1 n2)
    as (Ht & _ & _ & Hr & Hl & _ & Hp & Hi & Hint & Hg).
  destruct (demoTasks_facts uuid n2) as (Hd & Hev & _ & Hlen & _).
  assert (Hne : tasks (demoLoaded uuid n1 n2) ≠ []).
  { intros H0. rewrite Ht in H0. rewrite H0 in Hlen. discriminate Hlen. }
  split.
  - unfold betweenCycles. rewrite Ht at 1.
    split; [exact Hd|]. split; [exact Hne|]. split; [exact Hp|].
    split; [exact Hi|]. split; [exact Hl|]. right.
    rewrite Ht. split; [exact Hev|]. split; [exact Hr|exact Hint].
  - unfold engineQuiet. split; [exact Hne|]. split.
    + intros _. rewrite Ht. exact Hev.
    + rewrite Hg. unfold noAllDone.
      repeat (apply Forall_cons; split; [vm_compute; reflexivity|]).
      apply Forall_nil_2.
Qed.

(** X13. View Demo, clicked in the initial state, loads the five demo
    tasks with the third one active and starts the simulation. With no
    interference, 52 cycles whose increments lie in 5..19 complete all
    five tasks: the board keeps their ids in order, the running flag is
    cleared, the timer is gone, no task is marked active, and the global
    log has no completion line. *)
Theorem demo_runs_to_completion
    (uuid : nat → string) (n1 n2 : Z) (incs : list Z) (o : ProviderOutcome)
    (now : Z) :
  Forall (λ i, 5 ≤ i ≤ 19) incs →
  (52 ≤ length incs)%nat →
  ∃ a, run [(EvLoadDemoMode, n1); (EvDemoResolved uuid, n2)] initialApp = Some a
       ∧ tasks a = (getDemoState uuid n2).1
       ∧ goal a = "DEMO: Refactor Legacy API (Simulation)"
       ∧ activeTaskId a = Some (uuid 2%nat)
       ∧ isRunning a = true ∧ isRealtime a = false ∧ isProcessing a = false
       ∧ let final := cycles incs o now a in
         Task.id <$> tasks final = uuid <$> [0; 1; 2; 3; 4]%nat
         ∧ countStatus COMPLETED (tasks final) = 5%nat
         ∧ isRunning final = false
         ∧ interval final = None
         ∧ truthy_id (activeTaskId final) = false
         ∧ countAllDone (globalLogs final) = 0%nat.
Proof.
  intros Hincs Hlen. exists (demoLoaded uuid n1 n2).
  split; [apply demoLoaded_run|].
  destruct (demoLoaded_betweenCycles uuid n1 n2) as [Hb Hq].
  destruct (demoLoaded_fields uuid n1 n2)
    as (Ht & Hgoal & Hact & Hrun & Hlive & Hproc & _).
  destruct (demoTasks_facts uuid n2) as (_ & _ & Hticks & Hlen5 & Hids).
  split; [exact Ht|]. split; [exact Hgoal|]. split; [exact Hact|].
  split; [exact Hrun|]. split; [exact Hlive|]. split; [exact Hproc|].
  intros final.
  destruct (cycles_complete incs o now (demoLoaded uuid n1 n2))
    as (Hf & Hev & Hl).
  - eapply Forall_impl; [exact Hincs|]. intros i Hi. cbv beta in Hi |- *. lia.
  - exact Hb.
  - rewrite Ht, Hticks. exact Hlen.
  - fold final in Hf, Hev, Hl.
    destruct Hf as (_ & _ & _ & _ & _ & Hcase).
    destruct Hcase as [(_ & Hr & Hi) | (Hev' & _)]; [|congruence].
    split.
    { unfold final. rewrite cycles_runEngine.
      rewrite (tasksLater_ids _ _ (runEngine_later _ _)), Ht. exact Hids. }
    split.
    { rewrite (every_completed_count _ Hev), Hl, Ht. exact Hlen5. }
    split; [exact Hr|]. split; [exact Hi|]. split.
    + assert (Hic : idleClear final).
      { unfold final. rewrite cycles_runEngine. apply runEngine_idleClear.
        intros Hr'. rewrite Hrun in Hr'. discriminate Hr'. }
      exact (Hic Hr).
    + apply noAllDone_count. unfold final. rewrite cycles_runEngine.
      apply runEngine_quiet. exact Hq.
Qed.

Lemma demo_runs_to_completion_witness :
  ∃ a, run [(EvLoadDemoMode, 0); (EvDemoResolved demoUuid, 10)] initialApp
       = Some a
       ∧ countStatus COMPLETED
           (tasks (cycles (replicate 52 5) NoClient 2000 a)) = 5%nat.
Proof.
  destruct (demo_runs_to_completion demoUuid 0 10 (replicate 52 5) NoClient 2000)
    as (a & Hrun & _ & _ & _ & _ & _ & _ & _ & Hc & _).
  - apply Forall_replicate. lia.
  - rewrite length_replicate. lia.
  - exists a. split; [exact Hrun|exact Hc].
Defined.

(* ===================================================================== *)
(** * [trim], the log provider and the text fields *)
(* ===================================================================== *)

Lemma append_assoc (x y z : string) : (x +:+ y) +:+ z = x +:+ (y +:+ z).
Proof.
  induction x as [|c x IH]; [done|].
  change (String c ((x +:+ y) +:+ z) = String c (x +:+ (y +:+ z))).
  by rewrite IH.
Qed.

Lemma append_length (x y : string) :
  String.length (x +:+ y) = (String.length x + String.length y)%nat.
Proof.
  induction x as [|c x IH]; [done|].
  change (S (String.length (x +:+ y))
          = S (String.length x + String.length y)).
  by rewrite IH.
Qed.

Lemma stripPrefix_Some w s r : stripPrefix w s = Some r ↔ s = w +:+ r.
Proof.
  revert s. induction w as [|a w IH]; intros s; simpl.
  - split; [by intros [= ->]|by intros ->].
  - destruct s as [|b s]; [done|].
    destruct (Ascii.eqb_spec a b) as [->|Hne].
    + rewrite IH. split; [by intros ->|by intros [= ->]].
    + split; [done|]. intros [= ? ?]. done.
Qed.

Lemma head_omap_Some {A B} (f : A → option B) l y :
  head (omap f l) = Some y → ∃ x, x ∈ l ∧ f x = Some y.
Proof.
  induction l as [|x l IH]; [done|]. simpl.
  destruct (f x) as [z|] eqn:Hx; simpl.
  - intros [= ->]. exists x. split; [apply elem_of_cons; by left|done].
  - intros H. destruct (IH H) as (x' & Hin & Hx').
    exists x'. split; [apply elem_of_cons; by right|done].
Qed.

(** A white space character at the front is recognised, and nothing else
    is. *)
Lemma white_strip s r :
  white s = Some r → ∃ w, w ∈ WHITE_SPACE ∧ stripPrefix w s = Some r.
Proof. exact (head_omap_Some (λ w, stripPrefix w s) WHITE_SPACE r). Qed.

Lemma white_Some s r :
  white s = Some r → ∃ w, w ∈ WHITE_SPACE ∧ s = w +:+ r.
Proof.
  intros H. destruct (white_strip s r H) as (w & Hin & Hw).
  exists w. split; [exact Hin|]. exact (proj1 (stripPrefix_Some w s r) Hw).
Qed.

Lemma white_append w r : w ∈ WHITE_SPACE → white (w +:+ r) = Some r.
Proof.
  intros H. unfold WHITE_SPACE in H. rewrite !fmap_cons, fmap_nil in H.
  repeat (apply elem_of_cons in H as [->|H]; [reflexivity|]).
  by apply elem_of_nil in H.
Qed.

Lemma white_space_nonempty w : w ∈ WHITE_SPACE → (0 < String.length w)%nat.
Proof.
  intros H. unfold WHITE_SPACE in H. rewrite !fmap_cons, fmap_nil in H.
  repeat (apply elem_of_cons in H as [->|H]; [simpl; lia|]).
  by apply elem_of_nil in H.
Qed.

Lemma white_length s r :
  white s = Some r → (String.length r < String.length s)%nat.
Proof.
  intros H. apply white_Some in H as (w & Hin & ->).
  rewrite append_length. pose proof (white_space_nonempty w Hin). lia.
Qed.

Lemma white_empty : white EmptyString = None.
Proof. reflexivity. Qed.

Lemma string_length_ind (P : string → Prop) :
  (∀ s, (∀ r, (String.length r < String.length s)%nat → P r) → P s) →
  ∀ s, P s.
Proof.
  intros H. assert (∀ n s, (String.length s < n)%nat → P s) as Hn.
  { induction n as [|n IH]; intros s Hs; [lia|].
    apply H. intros r Hr. apply IH. lia. }
  intros s. apply (Hn (S (String.length s))). lia.
Qed.

Lemma trimStartN_enough n m s :
  (String.length s ≤ n)%nat → (String.length s ≤ m)%nat →
  trimStartN n s = trimStartN m s.
Proof.
  revert m s. induction n as [|n IH]; intros m s Hn Hm.
  - destruct s; [|simpl in Hn; lia]. by destruct m.
  - destruct m as [|m].
    + destruct s; [done|simpl in Hm; lia].
    + simpl. destruct (white s) as [r|] eqn:Hw; [|done].
      apply white_length in Hw. apply IH; lia.
Qed.

(** [trimStart] removes white space characters while there are any: the
    steps it is given are enough. *)
Lemma trimStart_eq s :
  trimStart s = match white s with Some r => trimStart r | None => s end.
Proof.
  unfold trimStart. destruct s as [|c s]; [done|].
  change (String.length (String c s)) with (S (String.length s)).
  cbn [trimStartN]. destruct (white (String c s)) as [r|] eqn:Hw; [|done].
  apply white_length in Hw. simpl in Hw. apply trimStartN_enough; lia.
Qed.

Lemma trimStart_white s : white (trimStart s) = None.
Proof.
  induction s as [s IH] using string_length_ind.
  rewrite trimStart_eq. destruct (white s) as [r|] eqn:Hw; [|done].
  apply IH. by apply white_length.
Qed.

Lemma trimStart_id s : white s = None → trimStart s = s.
Proof. intros H. by rewrite trimStart_eq, H. Qed.

Lemma blankN_enough n m s :
  (String.length s ≤ n)%nat → (String.length s ≤ m)%nat →
  blankN n s = blankN m s.
Proof.
  revert m s. induction n as [|n IH]; intros m s Hn Hm.
  - destruct s; [|simpl in Hn; lia]. by destruct m.
  - destruct m as [|m].
    + destruct s; [done|simpl in Hm; lia].
    + destruct s as [|c s]; [done|]. cbn [blankN].
      destruct (white (String c s)) as [r|] eqn:Hw; [|done].
      apply white_length in Hw. apply IH; lia.
Qed.

Lemma blank_eq s :
  blank s = match s with
            | EmptyString => true
            | String _ _ =>
                match white s with Some r => blank r | None => false end
            end.
Proof.
  unfold blank. destruct s as [|c s]; [done|].
  change (String.length (String c s)) with (S (String.length s)).
  cbn [blankN]. destruct (white (String c s)) as [r|] eqn:Hw; [|done].
  apply white_length in Hw. simpl in Hw. apply blankN_enough; lia.
Qed.

(** [blank] is what it is meant to be: the string is a sequence of white
    space characters. *)
Lemma blank_spec s :
  blank s = true ↔ ∃ ws, Forall (λ w, w ∈ WHITE_SPACE) ws ∧ s = joined ws.
Proof.
  split.
  - induction s as [s IH] using string_length_ind. rewrite blank_eq.
    destruct s as [|c s]; [by exists []|].
    destruct (white (String c s)) as [r|] eqn:Hw; [|done]. intros Hr.
    destruct (IH r (white_length _ _ Hw) Hr) as (ws & Hws & ->).
    apply white_Some in Hw as (w & Hin & ->).
    exists (w :: ws). split; [by constructor|done].
  - intros (ws & Hws & ->). induction Hws as [|w ws Hw _ IH]; [done|].
    rewrite blank_eq. change (joined (w :: ws)) with (w +:+ joined ws).
    rewrite white_append by done. rewrite IH.
    pose proof (white_space_nonempty w Hw) as Hlen.
    destruct w; [simpl in Hlen; lia|done].
Qed.

Lemma trimStart_blank s : trimStart s = EmptyString ↔ blank s = true.
Proof.
  induction s as [s IH] using string_length_ind.
  rewrite trimStart_eq, blank_eq. destruct s as [|c s]; [done|].
  destruct (white (String c s)) as [r|] eqn:Hw; [|done].
  apply IH. by apply white_length.
Qed.

Lemma isWhite_spec s : isWhite s = true ↔ s ∈ WHITE_SPACE.
Proof.
  unfold isWhite. rewrite existsb_exists. split.
  - intros (w & Hin & Hw). apply String.eqb_eq in Hw as ->.
    by apply list_elem_of_In.
  - intros Hin. exists s. split; [by apply list_elem_of_In|].
    apply String.eqb_refl.
Qed.

Lemma append_empty_r (x : string) : x +:+ EmptyString = x.
Proof.
  induction x as [|c x IH]; [done|].
  change (String c (x +:+ EmptyString) = String c x). by rewrite IH.
Qed.

Lemma trimEnd_prefix s : ∃ x, s = trimEnd s +:+ x.
Proof.
  induction s as [|c s [x IH]]; [by exists EmptyString|].
  cbn [trimEnd]. cbv zeta. destruct (isWhite _); [by eexists|]. exists x.
  change (String c s = String c (trimEnd s +:+ x)). by rewrite <- IH.
Qed.

Lemma trimEnd_idem s : trimEnd (trimEnd s) = trimEnd s.
Proof.
  induction s as [|c s IH]; [done|]. cbn [trimEnd]. cbv zeta.
  destruct (isWhite (String c (trimEnd s))) eqn:Hw; [done|].
  cbn [trimEnd]. cbv zeta. by rewrite IH, Hw.
Qed.

Lemma trimEnd_empty s :
  trimEnd s = EmptyString → s = EmptyString ∨ ∃ r, white s = Some r.
Proof.
  destruct s as [|c s]; [by left|]. cbn [trimEnd]. cbv zeta.
  destruct (isWhite (String c (trimEnd s))) eqn:Hw; [|done]. intros _. right.
  apply isWhite_spec in Hw. destruct (trimEnd_prefix s) as [x Hx].
  exists x. rewrite <- (white_append _ x Hw).
  change (String c (trimEnd s) +:+ x) with (String c (trimEnd s +:+ x)).
  by rewrite <- Hx.
Qed.

Lemma trimEnd_white s : white s = None → white (trimEnd s) = None.
Proof.
  intros Hs. destruct (white (trimEnd s)) as [r|] eqn:Hw; [|done].
  apply white_Some in Hw as (w & Hin & Hw).
  destruct (trimEnd_prefix s) as [x Hx].
  rewrite Hw, append_assoc in Hx. rewrite Hx, white_append in Hs; done.
Qed.

Lemma trim_blank s : trim s = EmptyString ↔ blank s = true.
Proof.
  rewrite <- trimStart_blank. unfold trim. split; [|by intros ->].
  intros H. apply trimEnd_empty in H as [H|[r H]]; [done|].
  by rewrite trimStart_white in H.
Qed.

Lemma trim_idem s : trim (trim s) = trim s.
Proof.
  unfold trim. rewrite (trimStart_id (trimEnd (trimStart s))).
  - apply trimEnd_idem.
  - apply trimEnd_white, trimStart_white.
Qed.

(** X14. The log line of the provider always has type [info] and a
    message that is not empty and has no white space around it. An answer
    of the model is trimmed, and an answer of white space characters only
    ([blank], see [blank_spec]), like a missing one, gives
    "Processing...". *)
Theorem generateTaskLog_line o :
  ld_type (generateTaskLog o) = info
  ∧ truthy_string (ld_message (generateTaskLog o)) = true
  ∧ trim (ld_message (generateTaskLog o)) = ld_message (generateTaskLog o)
  ∧ ∀ s, ld_message (generateTaskLog (Response (Some s)))
         = if blank s then "Processing..." else trim s.
Proof.
  assert (Hs : ∀ s, ld_message (generateTaskLog (Response (Some s)))
                    = if blank s then "Processing..." else trim s).
  { intros s. simpl. destruct (blank s) eqn:Hb.
    - apply trim_blank in Hb. by rewrite Hb.
    - destruct (trim s) eqn:Ht; [|done].
      apply trim_blank in Ht. congruence. }
  split; [by destruct o|]. split; [|split; [|done]].
  - destruct o as [|[s|]|]; try done. rewrite Hs.
    destruct (blank s) eqn:Hb; [done|].
    destruct (trim s) eqn:Ht; [|done]. apply trim_blank in Ht. congruence.
  - destruct o as [|[s|]|]; try done. rewrite Hs.
    destruct (blank s); [done|apply trim_idem].
Qed.

(** An answer that is one no-break space, and one with an em space and a
    no-break space around the text. *)
Lemma generateTaskLog_unicode :
  ld_message (generateTaskLog (Response (Some (utf8 [194; 160]%nat))))
  = "Processing..."
  ∧ ld_message
      (generateTaskLog
         (Response (Some (utf8 [226; 128; 131]%nat +:+ "Linking"
                          +:+ utf8 [194; 160]%nat))))
    = "Linking".
Proof. split; vm_compute; reflexivity. Qed.

(** X15. A click on Generate Plan with a goal of white space characters
    only, or on Connect with such an address, does nothing at all. The
    empty text is the case of no character. *)
Theorem blank_input_ignored e (ws : list string) now a :
  Forall (λ w, w ∈ WHITE_SPACE) ws →
  inputOf e a = Some (joined ws) →
  step e now a = Some a.
Proof.
  intros Hws Hin.
  assert (Hb : trim (joined ws) = EmptyString).
  { apply trim_blank, blank_spec. by exists ws. }
  destruct e; try done; injection Hin as Hin; unfold step; simpl.
  - unfold handlePlan. rewrite Hin, Hb. simpl. by rewrite commit_same.
  - unfold handleConnect. rewrite Hin, Hb. simpl. by rewrite commit_same.
Qed.

Lemma blank_input_ignored_witness :
  step EvHandlePlan 0
    (set_goal (utf8 [9; 194; 160; 226; 128; 131; 32]%nat) initialApp)
  = Some (set_goal (utf8 [9; 194; 160; 226; 128; 131; 32]%nat) initialApp)
  ∧ step (EvHandleConnect false) 0
      (set_connectionUrl (utf8 [227; 128; 128; 10]%nat) initialApp)
    = Some (set_connectionUrl (utf8 [227; 128; 128; 10]%nat) initialApp).
Proof.
  split.
  - apply (blank_input_ignored EvHandlePlan
             [utf8 [9]%nat; utf8 [194; 160]%nat; utf8 [226; 128; 131]%nat; utf8 [32]%nat]).
    + repeat (apply Forall_cons; split; [by apply isWhite_spec|]).
      apply Forall_nil_2.
    + reflexivity.
  - apply (blank_input_ignored (EvHandleConnect false)
             [utf8 [227; 128; 128]%nat; utf8 [10]%nat]).
    + repeat (apply Forall_cons; split; [by apply isWhite_spec|]).
      apply Forall_nil_2.
    + reflexivity.
Defined.

(** X16. When the WebSocket constructor rejects the address, the attempt
    ends after the old connection was given up: the busy flag stays set,
    the log ends with the handshake line and holds no error line for the
    attempt, no socket is referenced, none is connecting or open, and none
    was created; the mode flags are as before. *)
Theorem rejected_address_leaves_busy (evs : list (Event * Z)) (a b : App) (now : Z) :
  run evs initialApp = Some a →
  blank (connectionUrl a) = false →
  step (EvHandleConnect true) now a = Some b →
  isProcessing b = true
  ∧ globalLogs b
    = appendLog (LogEntry.mk now ("Initiating handshake with conductor at "
                                  +:+ connectionUrl a +:+ "...") info)
                (globalLogs a)
  ∧ socketRef b = None
  ∧ activeSockets (sockets b) = 0%nat
  ∧ length (sockets b) = length (sockets a)
  ∧ isRunning b = isRunning a ∧ isRealtime b = isRealtime a
  ∧ tasks b = tasks a.
Proof.
  intros Hrun Hb Hstep.
  assert (Hinv : socketInv a)
    by (eapply run_socketInv; [exact Hrun|apply initialApp_socketInv]).
  assert (Ht : truthy_string (trim (connectionUrl a)) = true).
  { destruct (trim (connectionUrl a)) eqn:Htrim; [|done].
    apply trim_blank in Htrim. congruence. }
  unfold step in Hstep. simpl in Hstep. injection Hstep as <-.
  unfold handleConnect. rewrite Ht. simpl negb. cbv iota.
  set (m := "Initiating handshake with conductor at " +:+ connectionUrl a
            +:+ "...").
  set (a1 := addLog m info now (set_isProcessing true a)).
  assert (H1 : socketInv a1) by by apply closeExisting_after_log_inv.
  destruct (closeExisting_noActive a1 H1) as [Hno Href].
  assert (Hc : commit now a (closeExisting a1) = closeExisting a1).
  { rewrite commit_unfold, depsChanged_same_fields; try done;
      unfold closeExisting; by destruct (socketRef a1). }
  rewrite Hc.
  split; [unfold closeExisting; by destruct (socketRef a1)|].
  split; [unfold closeExisting; by destruct (socketRef a1)|].
  split; [done|]. split; [by apply noActiveSocket_count|].
  unfold closeExisting.
  destruct (socketRef a1); simpl; rewrite ?length_alter; done.
Qed.

Lemma rejected_address_leaves_busy_witness :
  ∃ a b, run reconnectTrace initialApp = Some a
         ∧ step (EvHandleConnect true) 200 a = Some b
         ∧ isProcessing b = true ∧ socketRef b = None
         ∧ activeSockets (sockets b) = 0%nat.
Proof.
  eexists _, _. split; [vm_compute; reflexivity|].
  split; [vm_compute; reflexivity|].
  match goal with
  | |- isProcessing ?b = _ ∧ _ =>
      match type of b with _ => idtac end;
      assert (Ha : ∃ a, run reconnectTrace initialApp = Some a
                        ∧ blank (connectionUrl a) = false
                        ∧ step (EvHandleConnect true) 200 a = Some b)
        by (eexists; split; [vm_compute; reflexivity|];
            split; vm_compute; reflexivity)
  end.
  destruct Ha as (a & Hrun & Hb & Hstep).
  destruct (rejected_address_leaves_busy _ _ _ _ Hrun Hb Hstep)
    as (H1 & _ & H3 & H4 & _).
  split; [exact H1|]. split; [exact H3|exact H4].
Defined.

(* ===================================================================== *)
(** * The active task during a simulation *)
(* ===================================================================== *)

Lemma findIndex_split {A} (p : A → bool) l i :
  findIndex p l = Some i →
  ∃ l1 x l2, l = l1 ++ x :: l2 ∧ length l1 = i ∧ p x = true
             ∧ Forall (λ y, p y = false) l1.
Proof.
  revert i. induction l as [|z l IH]; intros i; simpl; [done|].
  destruct (p z) eqn:Hz.
  - intros [= <-]. by exists [], z, l.
  - destruct (findIndex p l) as [j|]; simpl; [|done]. intros [= <-].
    destruct (IH j eq_refl) as (l1 & x & l2 & -> & Hlen & Hx & Hl1).
    exists (z :: l1), x, l2. repeat split; try done.
    + simpl. by rewrite Hlen.
    + by constructor.
Qed.

Lemma findIndex_None_Forall {A} (p : A → bool) l :
  findIndex p l = None → Forall (λ y, p y = false) l.
Proof.
  induction l as [|z l IH]; simpl; [done|].
  destruct (p z) eqn:Hz; [done|].
  destruct (findIndex p l); [done|]. intros _. constructor; auto.
Qed.

Lemma find_app_none {A} (p : A → bool) l1 l2 :
  Forall (λ y, p y = false) l1 → find p (l1 ++ l2) = find p l2.
Proof. induction 1 as [|z l Hz _ IH]; [done|]. simpl. by rewrite Hz. Qed.

Lemma find_none {A} (p : A → bool) l :
  Forall (λ y, p y = false) l → find p l = None.
Proof. induction 1 as [|z l Hz _ IH]; [done|]. simpl. by rewrite Hz. Qed.

Lemma countStatus_app s l1 l2 :
  countStatus s (l1 ++ l2) = (countStatus s l1 + countStatus s l2)%nat.
Proof. unfold countStatus. by rewrite List.filter_app, length_app. Qed.

Lemma countStatus_zero s l :
  countStatus s l = 0%nat → Forall (λ y, is_status s y = false) l.
Proof.
  unfold countStatus. induction l as [|z l IH]; simpl; [done|].
  destruct (is_status s z) eqn:Hz; simpl; [done|]. intros H. constructor; auto.
Qed.

Lemma insert_middle {A} (l1 l2 : list A) x y :
  <[length l1 := y]> (l1 ++ x :: l2) = l1 ++ y :: l2.
Proof. rewrite insert_app_r_alt by lia. by rewrite Nat.sub_diag. Qed.

Lemma firstInProgress_middle l1 t l2 :
  Forall (λ y, is_status IN_PROGRESS y = false) l1 →
  firstInProgress (l1 ++ t :: l2)
  = if is_status IN_PROGRESS t then Some (Task.id t) else firstInProgress l2.
Proof.
  intros H. unfold firstInProgress. rewrite find_app_none by done.
  simpl. by destruct (is_status IN_PROGRESS t).
Qed.

(** The setter calls of the updater keep the active id in step with the
    task list it returns. *)
Lemma tickUpdater_active r increment ts :
  (countStatus IN_PROGRESS ts ≤ 1)%nat →
  foldl cmdActive (firstInProgress ts) (tickUpdater r increment ts).2
  = firstInProgress (tickUpdater r increment ts).1.
Proof.
  intros Hc. unfold tickUpdater.
  destruct (findIndex (is_status IN_PROGRESS) ts) as [i|] eqn:Hip.
  - apply findIndex_split in Hip as (l1 & t & l2 & -> & <- & Ht & Hl1).
    rewrite (list_lookup_middle l1 l2 t) by done.
    assert (Hl2 : Forall (λ y, is_status IN_PROGRESS y = false) l2).
    { apply countStatus_zero.
      rewrite countStatus_app in Hc. unfold countStatus at 2 in Hc.
      simpl in Hc. rewrite Ht in Hc. simpl in Hc.
      fold (countStatus IN_PROGRESS l2) in Hc. lia. }
    rewrite firstInProgress_middle, Ht by done.
    destruct (100 <=? _); simpl; rewrite insert_middle,
      firstInProgress_middle by done.
    + assert (is_status IN_PROGRESS
                (Task.with_status COMPLETED
                   (Task.with_progress
                      (Z.min (Task.progress t + increment) 100) t)) = false)
        as -> by done.
      unfold firstInProgress. by rewrite find_none.
    + assert (is_status IN_PROGRESS
                (Task.with_progress
                   (Z.min (Task.progress t + increment) 100) t) = true)
        as -> by (by destruct t).
      by destruct t.
  - apply findIndex_None_Forall in Hip.
    assert (Hnone : firstInProgress ts = None)
      by (unfold firstInProgress; by rewrite find_none).
    rewrite Hnone.
    destruct (findIndex (is_status PENDING) ts) as [i|] eqn:Hpe.
    + apply findIndex_split in Hpe as (l1 & t & l2 & -> & <- & Ht & _).
      rewrite (list_lookup_middle l1 l2 t) by done. simpl.
      apply Forall_app in Hip as [Hl1 _].
      rewrite insert_middle, firstInProgress_middle by done.
      by destruct t.
    + destruct (every _ _ && r); simpl; done.
Qed.

Lemma applyCmds_active now cs a :
  activeTaskId (applyCmds now cs a) = foldl cmdActive (activeTaskId a) cs.
Proof.
  unfold applyCmds. revert a. induction cs as [|c cs IH]; intros a; simpl.
  - done.
  - rewrite IH. by destruct c.
Qed.

Lemma tickHandler_active c increment now a :
  processingRef a = false →
  activeTaskId (tickHandler c increment now a)
  = foldl cmdActive (activeTaskId a)
      (tickUpdater (c_isRunning c) increment (tasks a)).2.
Proof.
  intros Hp. unfold tickHandler. rewrite Hp.
  destruct (tickUpdater _ _ _) as [newTasks cmds]. simpl.
  repeat match goal with
         | |- context [if ?b then _ else _] => destruct b
         | |- context [match ?x with Some _ => _ | None => _ end] => destruct x
         end; simpl; by rewrite applyCmds_active.
Qed.

Lemma appendTaskLog_firstInProgress aid entry ts :
  firstInProgress (appendTaskLog aid entry ts) = firstInProgress ts.
Proof.
  unfold firstInProgress, appendTaskLog.
  induction ts as [|t ts IH]; [done|]. simpl.
  assert (is_status IN_PROGRESS
            (if String.eqb (Task.id t) aid
             then Task.with_logs (Task.logs t ++ [entry]) t else t)
          = is_status IN_PROGRESS t) as -> by (by destruct (String.eqb _ _)).
  destruct (is_status IN_PROGRESS t); simpl; [|exact IH].
  by destruct (String.eqb _ _).
Qed.

Lemma engineHandle_activeTracks e now a :
  activeTracks a → activeTracks (engineHandle e now a).
Proof.
  intros [Hc Ha]. destruct e as [increment|o|]; simpl.
  - unfold tick. destruct (interval a) as [c|]; [|done].
    destruct (processingRef a) eqn:Hp.
    { unfold tickHandler. by rewrite Hp. }
    destruct (tickHandler_fields c increment now a Hp) as (Ht & Hr & _).
    split.
    + rewrite Ht. by apply tickUpdater_countActive.
    + rewrite Hr. intros Hrun.
      rewrite tickHandler_active, Ht, (Ha Hrun) by done.
      by apply tickUpdater_active.
  - destruct (inflight a) as [p|] eqn:Hinf.
    + destruct (logResolved_fields (generateTaskLog o) now a p Hinf)
        as (Ht & Hr & _).
      assert (Hact : activeTaskId (logResolved (generateTaskLog o) now a)
                     = activeTaskId a)
        by (unfold logResolved; by rewrite Hinf).
      split.
      * by rewrite Ht, appendTaskLog_countStatus.
      * by rewrite Hr, Hact, Ht, appendTaskLog_firstInProgress.
    + unfold logResolved. by rewrite Hinf.
  - unfold timeoutFired. destruct (stopTimeouts a); [done|]. by split.
Qed.

Lemma simulationEffect_activeTracks now a :
  activeTracks a → activeTracks (simulationEffect now a).
Proof.
  intros [Hc Ha]. split; [by rewrite simulationEffect_tasks|].
  rewrite simulationEffect_tasks. revert Ha. unfold simulationEffect. simpl.
  destruct (isRunning a) eqn:Hr; simpl.
  - destruct (isRealtime a); simpl; [by auto|].
    destruct (every _ _ && _); simpl; [done|].
    destruct (processingRef a); simpl; auto.
  - intros _. destruct (activeTaskId a) as [x|]; [destruct (truthy_string x)|];
      simpl; congruence.
Qed.

Lemma rerender_activeTracks fuel now prev next :
  activeTracks next → activeTracks (rerender fuel now prev next).
Proof.
  revert prev next. induction fuel as [|n IH]; intros prev next H; simpl;
    [done|].
  destruct (depsChanged prev next); [|done].
  by apply IH, simulationEffect_activeTracks.
Qed.

Lemma runEngine_activeTracks evs a :
  activeTracks a → activeTracks (runEngine evs a).
Proof.
  revert a. induction evs as [|[e now] evs IH]; intros a H; simpl; [done|].
  apply IH. unfold engineStep, commit.
  by apply rerender_activeTracks, engineHandle_activeTracks.
Qed.

(** X17. During a simulation the active id follows the task in progress.
    If at most one task is in progress and [activeTaskId] names it when
    the engine starts, then after any engine events at most one task is
    in progress and, while the run is on, [activeTaskId] is the id of that
    task, and [null] when no task is in progress. *)
Theorem active_id_follows_task_in_progress evs a :
  (countStatus IN_PROGRESS (tasks a) ≤ 1)%nat →
  (isRunning a = true → activeTaskId a = firstInProgress (tasks a)) →
  (countStatus IN_PROGRESS (tasks (runEngine evs a)) ≤ 1)%nat
  ∧ (isRunning (runEngine evs a) = true →
     activeTaskId (runEngine evs a) = firstInProgress (tasks (runEngine evs a))).
Proof. intros Hc Ha. by apply runEngine_activeTracks. Qed.

Lemma active_id_follows_task_in_progress_witness :
  activeTaskId (runEngine steadyRun (demoLoaded demoUuid 0 10))
  = firstInProgress (tasks (runEngine steadyRun (demoLoaded demoUuid 0 10))).
Proof.
  apply (active_id_follows_task_in_progress steadyRun (demoLoaded demoUuid 0 10)).
  - vm_compute. lia.
  - intros _. vm_compute. reflexivity.
  - vm_compute. reflexivity.
Defined.

(* ===================================================================== *)
(** * After Stop *)
(* ===================================================================== *)

Lemma socketsLater_noActive l l' :
  socketsLater l l' → length l' = length l →
  noActiveSocket l → noActiveSocket l'.
Proof.
  intros Hl Hlen Hno i s' Hi.
  destruct (l !! i) as [s|] eqn:Hs.
  - destruct (Hl i s Hs) as (s2 & Hs2 & _ & _ & Hr).
    rewrite Hi in Hs2. injection Hs2 as <-.
    specialize (Hno i s Hs). unfold ws_active in *.
    destruct (readyState s), (readyState s'); simpl in Hr; try done; lia.
  - apply lookup_ge_None in Hs. apply lookup_lt_Some in Hi. lia.
Qed.

Lemma handle_stopped e now a a' :
  handle e now a = Some a' → revives e = false →
  isRunning a = false → isRealtime a = false → noActiveSocket (sockets a) →
  isRunning a' = false ∧ isRealtime a' = false ∧ noActiveSocket (sockets a').
Proof.
  intros He Hrev Hr Hl Hno.
  assert (Hsock : noActiveSocket (sockets a')).
  { destruct (handle_sockets e now a a' He) as [H1 H2].
    apply (socketsLater_noActive (sockets a)); [done| |done].
    destruct e; try done; simpl in H2; lia. }
  split; [|split; [|done]]; clear Hsock.
  - destruct (isRunning a') eqn:Hr'; [|done].
    pose proof (handle_raises e now a a' He Hr Hr') as Hs.
    destruct e as [s|s| |r|ct|i|i|i code|i parsed| |uuid| |e]; try done.
    simpl in He. injection He as <-. unfold socketOpen in Hr'.
    destruct (sockets a !! i) as [s|] eqn:Hi; [|congruence].
    specialize (Hno i s Hi). unfold ws_active in Hno.
    destruct (readyState s); try done; congruence.
  - destruct e as [s|s| |r|ct|i|i|i code|i parsed| |uuid| |e]; try done;
      simpl in He; try (injection He as <-).
    + done.
    + done.
    + unfold handlePlan. by destruct (negb _).
    + unfold planSettled. destruct (pendingPlans a); [done|]. by destruct r.
    + unfold socketOpen. destruct (sockets a !! i) as [s|] eqn:Hi; [|done].
      specialize (Hno i s Hi). unfold ws_active in Hno.
      by destruct (readyState s).
    + unfold socketError, onError. destruct (sockets a !! i) as [s|]; [|done].
      destruct (readyState s); try done; by destruct (negb _).
    + unfold socketClose, onClose. destruct (sockets a !! i) as [s|]; [|done].
      destruct (readyState s); try done; by destruct (cap_isRealtime s).
    + by apply (socketMessage_preserves isRealtime now) in He as ->.
    + done.
    + unfold stopConductor. simpl. by destruct (socketRef a).
    + destruct e as [increment|o|]; simpl.
      * by rewrite (tick_preserves isRealtime).
      * unfold logResolved. by destruct (inflight a).
      * unfold timeoutFired. by destruct (stopTimeouts a).
Qed.

Lemma run_stopped evs a b :
  run evs a = Some b →
  Forall (λ ev, revives ev.1 = false) evs →
  isRunning a = false → isRealtime a = false → noActiveSocket (sockets a) →
  isRunning b = false ∧ isRealtime b = false ∧ noActiveSocket (sockets b).
Proof.
  revert a. induction evs as [|[e now] evs IH]; intros a; simpl.
  - by intros [= ->].
  - unfold step. destruct (handle e now a) as [a'|] eqn:He; simpl; [|done].
    intros Hrun Hall Hr Hl Hno. apply Forall_cons in Hall as [He1 Hall].
    destruct (handle_stopped e now a a' He He1 Hr Hl Hno) as (H1 & H2 & H3).
    apply (IH _ Hrun Hall).
    + unfold commit. by apply rerender_not_raised.
    + by rewrite commit_isRealtime.
    + by rewrite commit_sockets.
Qed.

(** X18. Stop is final. After [stopConductor], whatever happens next short
    of a new Connect click or of a demo that arrives (late open, message,
    error and close events of the old socket, timer ticks, answers of the
    log provider, plans), the session stays stopped: [isRunning] and
    [isRealtime] stay false, there is no timer, and no socket is
    connecting or open. *)
Theorem stop_is_final (evs more : list (Event * Z)) (a b c : App) (now : Z) :
  run evs initialApp = Some a →
  step EvStopConductor now a = Some b →
  Forall (λ ev, revives ev.1 = false) more →
  run more b = Some c →
  isRunning c = false ∧ isRealtime c = false
  ∧ interval c = None
  ∧ activeSockets (sockets c) = 0%nat.
Proof.
  intros Hrun Hstop Hall Hmore.
  assert (Hb : isRunning b = false ∧ isRealtime b = false
               ∧ noActiveSocket (sockets b)).
  { assert (Hinv : socketInv b).
    { eapply step_socketInv; [exact Hstop|].
      eapply run_socketInv; [exact Hrun | apply initialApp_socketInv]. }
    unfold step in Hstop. simpl in Hstop. injection Hstop as <-.
    split; [|split].
    - unfold commit. apply rerender_not_raised.
      unfold stopConductor. simpl. by destruct (socketRef a).
    - rewrite commit_isRealtime. unfold stopConductor. simpl.
      by destruct (socketRef a).
    - intros i s Hi. destruct (ws_active s) eqn:Hs; [|done].
      pose proof (Hinv i s Hi Hs) as Href.
      rewrite commit_socketRef in Href. unfold stopConductor in Href.
      simpl in Href. destruct (socketRef a) eqn:E; simpl in Href; congruence. }
  destruct Hb as (H1 & H2 & H3).
  destruct (run_stopped more b c Hmore Hall H1 H2 H3) as (K1 & K2 & K3).
  split; [done|]. split; [done|]. split; [|by apply noActiveSocket_count].
  assert (Ht : timerFresh c).
  { eapply run_timerFresh; [exact Hmore|].
    eapply step_timerFresh; [exact Hstop|].
    eapply run_timerFresh; [exact Hrun|]. by intros x. }
  destruct (interval c) as [x|] eqn:Hx; [|done].
  destruct (Ht x Hx) as (Hr & _). congruence.
Qed.

Lemma stop_is_final_witness :
  ∃ a b c, run feedTrace initialApp = Some a
           ∧ step EvStopConductor 200 a = Some b
           ∧ run lateEvents b = Some c
           ∧ isRunning c = false ∧ isRealtime c = false.
Proof.
  set (a := default initialApp (run feedTrace initialApp)).
  set (b := default initialApp (step EvStopConductor 200 a)).
  set (c := default initialApp (run lateEvents b)).
  assert (Hrun : run feedTrace initialApp = Some a) by (vm_compute; reflexivity).
  assert (Hstop : step EvStopConductor 200 a = Some b)
    by (vm_compute; reflexivity).
  assert (Hmore : run lateEvents b = Some c) by (vm_compute; reflexivity).
  assert (Hall : Forall (λ ev : Event * Z, revives ev.1 = false) lateEvents)
    by (repeat (apply Forall_cons; split; [reflexivity|]); apply Forall_nil_2).
  pose proof (stop_is_final feedTrace lateEvents a b c 200 Hrun Hstop Hall Hmore)
    as H.
  exists a, b, c. split; [exact Hrun|]. split; [exact Hstop|].
  split; [exact Hmore|]. split; [exact (proj1 H)|exact (proj1 (proj2 H))].
Defined.
